(** * POCLoader: the octree descriptor loader of potree-core

    A shallow embedding of [source/loaders/POCLoader.js]: the metadata
    handler [xhr.onload], the failure handler [xhr.onerror] and the child
    box splitter [POCLoader.createChildAABB].

    JavaScript objects that the loader mutates or shares ([Vector3] corners
    of boxes, octree nodes) live in an explicit store and are referred to by
    location; calls that leave the loader (decoder constructors, node
    constructor, [root.load()], [console.log], the completion callback) are
    recorded in a trace, in program order.

    JavaScript numbers are IEEE 754 binary64.  The embedding is written over
    an interface [Number] of the arithmetic the loader uses, instantiated
    twice: with Rocq's primitive binary64 floats (the arithmetic the code
    runs on) and with the canonical rationals [Qc] (exact arithmetic). *)

From Stdlib Require Import ZArith QArith Qcanon Lqa Floats String Ascii List Lia.
From stdpp Require Import base option list gmap strings.

Set Default Proof Using "Type".
Local Open Scope Z_scope.
Local Open Scope string_scope.
Local Open Scope list_scope.

(** ** Numbers *)

(** The arithmetic of JavaScript numbers that the loader uses. *)
Class Number (num : Type) := {
  num_zero : num;                 (* the literal [0] *)
  num_two : num;                  (* the literal [2] *)
  num_add : num -> num -> num;    (* [a + b] *)
  num_sub : num -> num -> num;    (* [a - b] *)
  num_div : num -> num -> num;    (* [a / b] *)
  num_pow2 : Z -> num;            (* [Math.pow(2, k)] at an integer [k] *)
  num_leb : num -> num -> bool    (* [a <= b] *)
}.

(** Binary64 with round-to-nearest-even: what a JavaScript engine computes. *)
#[global] Instance float_Number : Number float := {
  num_zero := 0%float;
  num_two := 2%float;
  num_add := PrimFloat.add;
  num_sub := PrimFloat.sub;
  num_div := PrimFloat.div;
  num_pow2 := fun k => Z.ldexp 1%float k;
  num_leb := PrimFloat.leb
}.

Definition Qc_pow2 (k : Z) : Qc :=
  match k with
  | Z0 => 1%Qc
  | Zpos p => Qcpower (Q2Qc 2) (Pos.to_nat p)
  | Zneg p => Qcinv (Qcpower (Q2Qc 2) (Pos.to_nat p))
  end.

Definition Qc_leb (a b : Qc) : bool := bool_decide (a <= b)%Qc.

(** Exact rational arithmetic. *)
#[global] Instance Qc_Number : Number Qc := {
  num_zero := Q2Qc 0;
  num_two := Q2Qc 2;
  num_add := Qcplus;
  num_sub := Qcminus;
  num_div := Qcdiv;
  num_pow2 := Qc_pow2;
  num_leb := Qc_leb
}.

(** An integer-valued JavaScript number or [NaN]: the result of [parseInt]
    and the operand of the bitwise [&] in [createChildAABB]. *)
Inductive JSInt := NaN | Int (n : Z).

#[global] Instance JSInt_eq_dec : EqDecision JSInt.
Proof. solve_decision. Defined.

#[global] Instance JSInt_countable : Countable JSInt :=
  inj_countable'
    (fun i => match i with NaN => None | Int n => Some n end)
    (fun o => match o with None => NaN | Some n => Int n end)
    (fun i => match i with NaN => eq_refl | Int _ => eq_refl end).

(** [index & mask] for a small non-negative [mask].  [ToInt32] sends [NaN]
    to [0] and keeps the low bits of every integer, which are all that a
    mask below [2^31] reads. *)
Definition bitand (index : JSInt) (mask : Z) : Z :=
  match index with
  | NaN => 0
  | Int n => Z.land n mask
  end.

(** ** Strings *)

(** [s.charAt(i)]: the one-character string at [i], or the empty string
    when [i] is out of range. *)
Definition charAt (s : string) (i : Z) : string :=
  if (i <? 0)%Z then ""
  else match String.get (Z.to_nat i) s with
       | Some c => String c ""
       | None => ""
       end.

(** [s.substring(0, e)]: a negative end is read as [0], an end beyond the
    length as the length. *)
Definition substring0 (s : string) (e : Z) : string :=
  String.substring 0 (Z.to_nat e) s.

Definition js_length (s : string) : Z := Z.of_nat (String.length s).

Definition digit_of_ascii (c : ascii) : option Z :=
  let n := N_of_ascii c in
  if ((48 <=? n) && (n <=? 57))%N then Some (Z.of_N n - 48) else None.

Fixpoint leading_digits (acc : Z) (s : string) : Z :=
  match s with
  | String c rest =>
      match digit_of_ascii c with
      | Some d => leading_digits (10 * acc + d) rest
      | None => acc
      end
  | EmptyString => acc
  end.

(** [parseInt(s)] in radix 10 on a string with no leading white space, sign
    or [0x] prefix (the loader applies it to the result of [charAt], at most
    one character long): the number spelled by the leading decimal digits,
    [NaN] when there is none. *)
Definition parseInt (s : string) : JSInt :=
  match s with
  | String c rest =>
      match digit_of_ascii c with
      | Some d => Int (leading_digits d rest)
      | None => NaN
      end
  | EmptyString => NaN
  end.

(** [s.indexOf(p) === 0]. *)
Definition starts_with (p s : string) : bool := String.prefix p s.

(** ** Versions *)

(** Modelled from the spec: [Version.js] is not among the sources.  A
    version string has the form "major.minor"; [upTo threshold] holds when
    the parsed version is at most the threshold, compared numerically
    component by component; a string of another form does not parse. *)
Module Version.

Record t := mk { versionMajor : Z; versionMinor : Z }.

Fixpoint all_digits (s : string) : bool :=
  match s with
  | EmptyString => true
  | String c rest => bool_decide (is_Some (digit_of_ascii c)) && all_digits rest
  end.

Definition number (s : string) : option Z :=
  match s with
  | EmptyString => None
  | String _ _ => if all_digits s then Some (leading_digits 0 s) else None
  end.

Fixpoint split_dot (acc s : string) : option (string * string) :=
  match s with
  | EmptyString => None
  | String c rest =>
      if Ascii.eqb c "."%char then Some (acc, rest)
      else split_dot (String.append acc (String c "")) rest
  end.

Definition parse (s : string) : option t :=
  match split_dot "" s with
  | Some (major, minor) =>
      match number major, number minor with
      | Some a, Some b => Some (mk a b)
      | _, _ => None
      end
  | None => None
  end.

Definition leb (v w : t) : bool :=
  ((versionMajor v <? versionMajor w)
   || ((versionMajor v =? versionMajor w) && (versionMinor v <=? versionMinor w)))%Z.

Definition upTo (v : t) (threshold : string) : bool :=
  match parse threshold with
  | Some w => leb v w
  | None => false
  end.

End Version.

(** ** Objects *)

(** A location in one of the stores. *)
Definition loc := nat.

(** [Box3]: a box holds references to its two corner vectors.  The loader
    mutates the vectors in place and never reassigns the two fields. *)
Record Box3 := mkBox3 { Box3_min : loc; Box3_max : loc }.

(** The value of [pointAttributes] in the metadata document: a format tag
    or a list of attribute names. *)
Inductive DocPointAttributes :=
| PATag (tag : string)
| PAList (attributes : list string).

(** The descriptor's [pointAttributes]: the document's value as it stands,
    or the object [new PointAttributes(v)] built from it. *)
Inductive PointAttributesField :=
| PARaw (v : DocPointAttributes)
| PAObject (v : DocPointAttributes).

(** The event object handed to [xhr.onerror]. *)
Inductive ProgressEvent := mkProgressEvent (type : string).

Inductive Exn := TypeError (what : string).

Inductive Completion (A : Type) :=
| Normal (a : A)
| Throw (e : Exn).
Arguments Normal {A} a.
Arguments Throw {A} e.

(** ** State and exceptions

    A computation runs on a state and completes normally with a value or
    abruptly with an exception; the state changes made before a [throw]
    persist. *)

Definition M (S A : Type) : Type := S -> Completion A * S.

Definition ret {S A} (a : A) : M S A := fun w => (Normal a, w).

Definition bind {S A B} (m : M S A) (k : A -> M S B) : M S B :=
  fun w =>
    match m w with
    | (Normal a, w') => k a w'
    | (Throw e, w') => (Throw e, w')
    end.

Definition throw {S A} (e : Exn) : M S A := fun w => (Throw e, w).

Definition get {S} : M S S := fun w => (Normal w, w).

Definition modify {S} (f : S -> S) : M S unit := fun w => (Normal tt, f w).

Notation "'let*' x ':=' m 'in' k" := (bind m (fun x => k))
  (at level 10, x name, m at level 100, k at level 200).
Notation "'do' m 'then' k" := (bind m (fun _ => k))
  (at level 10, m at level 100, k at level 200).

(** ** The node class

    [PointCloudOctreeGeometryNode.js] is not among the sources.  The loader
    and the node class share the counter of loads in flight,
    [Global.numNodesLoading]; the spec says that [node.load()] starts the
    asynchronous load of the node's points and is not awaited, and does not
    say what the call makes of the counter.  The model leaves that open:
    it holds for every function of the counter. *)
Class NodeClass := {
  numNodesLoading_after_load : Z -> Z
}.

Section Loader.

Context {num : Type} {NumOps : Number num} {NodeOps : NodeClass}.

Record Vector3 := mkVector3 { vec_x : num; vec_y : num; vec_z : num }.

(** The result of [box.getBoundingSphere(new Sphere())], kept symbolic: the
    sphere computed by three.js from the corners the box had at the call. *)
Inductive Sphere := BoundingSphereOf (bmin bmax : Vector3).

(** The payload decoders, by the constructor call that made them. *)
Inductive PayloadLoader :=
| LASLAZLoader (version : string)
| BinaryLoader (version : string) (boundingBox : Box3) (scale : option num).

(** The metadata document, as [JSON.parse] returns it. *)
Record BoundingBoxDoc := mkBoundingBoxDoc {
  lx : num; ly : num; lz : num; ux : num; uy : num; uz : num
}.

(** An absent [hierarchy] and an empty one behave alike (reading
    [data.hierarchy[0][1]] throws a TypeError on both): both are [[]]. *)
Record MetadataDocument := mkMetadataDocument {
  doc_version : string;
  doc_octreeDir : string;
  doc_spacing : num;
  doc_hierarchyStepSize : num;
  doc_pointAttributes : DocPointAttributes;
  doc_boundingBox : BoundingBoxDoc;
  doc_tightBoundingBox : option BoundingBoxDoc;
  doc_projection : option string;
  doc_scale : option num;
  doc_hierarchy : list (string * num)
}.

(** Modelled from the spec: the class [PointCloudOctreeGeometryNode] is not
    among the sources.  A node has a name, a bounding box, a level, a
    spacing, a point count, a [hasChildren] flag, children indexed by the
    octant digit that ends the child's name, and a back-reference to its
    parent.  [None] is a field the loader has not assigned. *)
Record Node := mkNode {
  node_name : string;
  node_index : JSInt;
  node_boundingBox : Box3;
  node_level : option Z;
  node_numPoints : option num;
  node_spacing : option num;
  node_hasChildren : option bool;
  node_children : gmap JSInt loc;
  node_parent : option loc
}.

(** [PointCloudOctreeGeometry], the descriptor.  [None] is a field that is
    not assigned (or assigned [undefined]). *)
Record PointCloudOctreeGeometry := mkPco {
  pco_url : option string;
  pco_octreeDir : option string;
  pco_spacing : option num;
  pco_hierarchyStepSize : option num;
  pco_pointAttributes : option PointAttributesField;
  pco_projection : option string;
  pco_boundingBox : option Box3;
  pco_tightBoundingBox : option Box3;
  pco_boundingSphere : option Sphere;
  pco_tightBoundingSphere : option Sphere;
  pco_offset : option loc;
  pco_loader : option PayloadLoader;
  pco_root : option loc;
  pco_nodes : option (gmap string loc)
}.

Definition new_pco : PointCloudOctreeGeometry :=
  mkPco None None None None None None None None None None None None None None.

(** Calls that leave the loader, in program order. *)
Inductive Event :=
| EvXhrSend (method url : string)
| EvGetBoundingSphere (box : Box3)
| EvNewLoader (l : PayloadLoader)
| EvNewPointAttributes (v : DocPointAttributes)
| EvNewNode (node : loc) (name : string)
| EvNodeLoad (node : loc)
| EvConsoleLog (message url : string) (event : ProgressEvent)
| EvCallback (arg : option PointCloudOctreeGeometry).

Record World := mkWorld {
  vectors : list Vector3;          (* the Vector3 objects *)
  nodes : list Node;               (* the node objects *)
  pco : PointCloudOctreeGeometry;  (* the descriptor of this load *)
  numNodesLoading : Z;             (* Global.numNodesLoading *)
  trace : list Event
}.

Definition with_vectors (f : list Vector3 -> list Vector3) (w : World) : World :=
  mkWorld (f (vectors w)) (nodes w) (pco w) (numNodesLoading w) (trace w).
Definition with_nodes (f : list Node -> list Node) (w : World) : World :=
  mkWorld (vectors w) (f (nodes w)) (pco w) (numNodesLoading w) (trace w).
Definition with_pco (f : PointCloudOctreeGeometry -> PointCloudOctreeGeometry)
    (w : World) : World :=
  mkWorld (vectors w) (nodes w) (f (pco w)) (numNodesLoading w) (trace w).
Definition with_numNodesLoading (f : Z -> Z) (w : World) : World :=
  mkWorld (vectors w) (nodes w) (pco w) (f (numNodesLoading w)) (trace w).
Definition with_trace (f : list Event -> list Event) (w : World) : World :=
  mkWorld (vectors w) (nodes w) (pco w) (numNodesLoading w) (f (trace w)).

Definition emit (e : Event) : M World unit :=
  modify (with_trace (fun t => t ++ [e])).

(** ** three.js: [Vector3] and [Box3] *)

(** [new Vector3(x, y, z)] *)
Definition new_Vector3 (x y z : num) : M World loc :=
  fun w => (Normal (length (vectors w)),
            with_vectors (fun h => h ++ [mkVector3 x y z]) w).

Definition read_Vector3 (v : loc) : M World Vector3 :=
  fun w =>
    match vectors w !! v with
    | Some a => (Normal a, w)
    | None => (Throw (TypeError "not a Vector3"), w)
    end.

Definition write_Vector3 (v : loc) (a : Vector3) : M World unit :=
  modify (with_vectors (fun h => <[v := a]> h)).

(** [v.clone()] *)
Definition Vector3_clone (v : loc) : M World loc :=
  let* a := read_Vector3 v in
  new_Vector3 (vec_x a) (vec_y a) (vec_z a).

(** [this.copy(v)] *)
Definition Vector3_copy (this v : loc) : M World unit :=
  let* a := read_Vector3 v in
  let* _ := read_Vector3 this in
  write_Vector3 this a.

(** [this.sub(v)] *)
Definition Vector3_sub (this v : loc) : M World unit :=
  let* a := read_Vector3 this in
  let* b := read_Vector3 v in
  write_Vector3 this
    (mkVector3 (num_sub (vec_x a) (vec_x b))
               (num_sub (vec_y a) (vec_y b))
               (num_sub (vec_z a) (vec_z b))).

(** [this.subVectors(a, b)] *)
Definition Vector3_subVectors (this a b : loc) : M World loc :=
  let* va := read_Vector3 a in
  let* vb := read_Vector3 b in
  let* _ := read_Vector3 this in
  do write_Vector3 this
       (mkVector3 (num_sub (vec_x va) (vec_x vb))
                  (num_sub (vec_y va) (vec_y vb))
                  (num_sub (vec_z va) (vec_z vb))) then
  ret this.

Definition set_x (f : num -> num) (a : Vector3) : Vector3 :=
  mkVector3 (f (vec_x a)) (vec_y a) (vec_z a).
Definition set_y (f : num -> num) (a : Vector3) : Vector3 :=
  mkVector3 (vec_x a) (f (vec_y a)) (vec_z a).
Definition set_z (f : num -> num) (a : Vector3) : Vector3 :=
  mkVector3 (vec_x a) (vec_y a) (f (vec_z a)).

(** [v.c += size.c / 2] and [v.c -= size.c / 2] on the component [c] that
    [proj] reads and [upd] writes. *)
Definition add_half (proj : Vector3 -> num)
    (upd : (num -> num) -> Vector3 -> Vector3) (v size : loc) : M World unit :=
  let* s := read_Vector3 size in
  let* a := read_Vector3 v in
  write_Vector3 v (upd (fun c => num_add c (num_div (proj s) num_two)) a).

Definition sub_half (proj : Vector3 -> num)
    (upd : (num -> num) -> Vector3 -> Vector3) (v size : loc) : M World unit :=
  let* s := read_Vector3 size in
  let* a := read_Vector3 v in
  write_Vector3 v (upd (fun c => num_sub c (num_div (proj s) num_two)) a).

(** [new Box3(min, max)] keeps the two references. *)
Definition new_Box3 (min max : loc) : M World Box3 := ret (mkBox3 min max).

(** [box.clone()]: a new box on copies of the two corners. *)
Definition Box3_clone (box : Box3) : M World Box3 :=
  let* min := Vector3_clone (Box3_min box) in
  let* max := Vector3_clone (Box3_max box) in
  ret (mkBox3 min max).

(** [box.getBoundingSphere(new Sphere())] *)
Definition Box3_getBoundingSphere (box : Box3) : M World Sphere :=
  let* a := read_Vector3 (Box3_min box) in
  let* b := read_Vector3 (Box3_max box) in
  do emit (EvGetBoundingSphere box) then
  ret (BoundingSphereOf a b).

(** ** [POCLoader.createChildAABB] *)

Definition createChildAABB (aabb : Box3) (index : JSInt) : M World Box3 :=
  let* min := Vector3_clone (Box3_min aabb) in
  let* max := Vector3_clone (Box3_max aabb) in
  let* fresh := new_Vector3 num_zero num_zero num_zero in
  let* size := Vector3_subVectors fresh max min in
  do (if bitand index 1 >? 0
      then add_half vec_z set_z min size
      else sub_half vec_z set_z max size) then
  do (if bitand index 2 >? 0
      then add_half vec_y set_y min size
      else sub_half vec_y set_y max size) then
  do (if bitand index 4 >? 0
      then add_half vec_x set_x min size
      else sub_half vec_x set_x max size) then
  new_Box3 min max.

(** ** Octree nodes *)

Definition read_Node (n : loc) : M World Node :=
  fun w =>
    match nodes w !! n with
    | Some a => (Normal a, w)
    | None => (Throw (TypeError "not a node"), w)
    end.

Definition update_Node (n : loc) (f : Node -> Node) : M World unit :=
  let* a := read_Node n in
  modify (with_nodes (fun h => <[n := f a]> h)).

Definition set_level (v : Z) (a : Node) : Node :=
  mkNode (node_name a) (node_index a) (node_boundingBox a) (Some v)
    (node_numPoints a) (node_spacing a) (node_hasChildren a)
    (node_children a) (node_parent a).
Definition set_numPoints (v : num) (a : Node) : Node :=
  mkNode (node_name a) (node_index a) (node_boundingBox a) (node_level a)
    (Some v) (node_spacing a) (node_hasChildren a)
    (node_children a) (node_parent a).
Definition set_spacing (v : option num) (a : Node) : Node :=
  mkNode (node_name a) (node_index a) (node_boundingBox a) (node_level a)
    (node_numPoints a) v (node_hasChildren a)
    (node_children a) (node_parent a).
Definition set_hasChildren (v : bool) (a : Node) : Node :=
  mkNode (node_name a) (node_index a) (node_boundingBox a) (node_level a)
    (node_numPoints a) (node_spacing a) (Some v)
    (node_children a) (node_parent a).
Definition set_child (i : JSInt) (child : loc) (a : Node) : Node :=
  mkNode (node_name a) (node_index a) (node_boundingBox a) (node_level a)
    (node_numPoints a) (node_spacing a) (node_hasChildren a)
    (<[i := child]> (node_children a)) (node_parent a).
Definition set_parent (parent : loc) (a : Node) : Node :=
  mkNode (node_name a) (node_index a) (node_boundingBox a) (node_level a)
    (node_numPoints a) (node_spacing a) (node_hasChildren a)
    (node_children a) (Some parent).

(** Modelled from the spec: [new PointCloudOctreeGeometryNode(name, pco,
    boundingBox)] makes a node of that name and box, with no child and no
    parent, whose index among its siblings is the digit that ends its name.
    The descriptor argument is the one descriptor of this load. *)
Definition new_PointCloudOctreeGeometryNode (name : string) (boundingBox : Box3)
    : M World loc :=
  let* w := get in
  let n := length (nodes w) in
  let index := parseInt (charAt name (js_length name - 1)) in
  do modify (with_nodes (fun h =>
       h ++ [mkNode name index boundingBox None None None None ∅ None])) then
  do emit (EvNewNode n name) then
  ret n.

(** Modelled from the spec: [parent.addChild(child)] attaches the child
    under its index and sets the child's back-reference. *)
Definition Node_addChild (parent child : loc) : M World unit :=
  let* c := read_Node child in
  do update_Node parent (set_child (node_index c) child) then
  update_Node child (set_parent parent).

(** Modelled from the spec: [node.load()] invokes the node's own
    asynchronous point-payload load, fire-and-forget: the call returns and
    the loader does not wait for the load.  What the call makes of
    [Global.numNodesLoading] is left to the node class. *)
Definition Node_load (n : loc) : M World unit :=
  do emit (EvNodeLoad n) then
  modify (with_numNodesLoading numNodesLoading_after_load).

(** ** The descriptor's fields *)

Definition set_pco_url v (p : PointCloudOctreeGeometry) :=
  mkPco v (pco_octreeDir p) (pco_spacing p) (pco_hierarchyStepSize p)
    (pco_pointAttributes p) (pco_projection p) (pco_boundingBox p)
    (pco_tightBoundingBox p) (pco_boundingSphere p) (pco_tightBoundingSphere p)
    (pco_offset p) (pco_loader p) (pco_root p) (pco_nodes p).
Definition set_pco_octreeDir v (p : PointCloudOctreeGeometry) :=
  mkPco (pco_url p) v (pco_spacing p) (pco_hierarchyStepSize p)
    (pco_pointAttributes p) (pco_projection p) (pco_boundingBox p)
    (pco_tightBoundingBox p) (pco_boundingSphere p) (pco_tightBoundingSphere p)
    (pco_offset p) (pco_loader p) (pco_root p) (pco_nodes p).
Definition set_pco_spacing v (p : PointCloudOctreeGeometry) :=
  mkPco (pco_url p) (pco_octreeDir p) v (pco_hierarchyStepSize p)
    (pco_pointAttributes p) (pco_projection p) (pco_boundingBox p)
    (pco_tightBoundingBox p) (pco_boundingSphere p) (pco_tightBoundingSphere p)
    (pco_offset p) (pco_loader p) (pco_root p) (pco_nodes p).
Definition set_pco_hierarchyStepSize v (p : PointCloudOctreeGeometry) :=
  mkPco (pco_url p) (pco_octreeDir p) (pco_spacing p) v
    (pco_pointAttributes p) (pco_projection p) (pco_boundingBox p)
    (pco_tightBoundingBox p) (pco_boundingSphere p) (pco_tightBoundingSphere p)
    (pco_offset p) (pco_loader p) (pco_root p) (pco_nodes p).
Definition set_pco_pointAttributes v (p : PointCloudOctreeGeometry) :=
  mkPco (pco_url p) (pco_octreeDir p) (pco_spacing p) (pco_hierarchyStepSize p)
    v (pco_projection p) (pco_boundingBox p)
    (pco_tightBoundingBox p) (pco_boundingSphere p) (pco_tightBoundingSphere p)
    (pco_offset p) (pco_loader p) (pco_root p) (pco_nodes p).
Definition set_pco_projection v (p : PointCloudOctreeGeometry) :=
  mkPco (pco_url p) (pco_octreeDir p) (pco_spacing p) (pco_hierarchyStepSize p)
    (pco_pointAttributes p) v (pco_boundingBox p)
    (pco_tightBoundingBox p) (pco_boundingSphere p) (pco_tightBoundingSphere p)
    (pco_offset p) (pco_loader p) (pco_root p) (pco_nodes p).
Definition set_pco_boundingBox v (p : PointCloudOctreeGeometry) :=
  mkPco (pco_url p) (pco_octreeDir p) (pco_spacing p) (pco_hierarchyStepSize p)
    (pco_pointAttributes p) (pco_projection p) v
    (pco_tightBoundingBox p) (pco_boundingSphere p) (pco_tightBoundingSphere p)
    (pco_offset p) (pco_loader p) (pco_root p) (pco_nodes p).
Definition set_pco_tightBoundingBox v (p : PointCloudOctreeGeometry) :=
  mkPco (pco_url p) (pco_octreeDir p) (pco_spacing p) (pco_hierarchyStepSize p)
    (pco_pointAttributes p) (pco_projection p) (pco_boundingBox p)
    v (pco_boundingSphere p) (pco_tightBoundingSphere p)
    (pco_offset p) (pco_loader p) (pco_root p) (pco_nodes p).
Definition set_pco_boundingSphere v (p : PointCloudOctreeGeometry) :=
  mkPco (pco_url p) (pco_octreeDir p) (pco_spacing p) (pco_hierarchyStepSize p)
    (pco_pointAttributes p) (pco_projection p) (pco_boundingBox p)
    (pco_tightBoundingBox p) v (pco_tightBoundingSphere p)
    (pco_offset p) (pco_loader p) (pco_root p) (pco_nodes p).
Definition set_pco_tightBoundingSphere v (p : PointCloudOctreeGeometry) :=
  mkPco (pco_url p) (pco_octreeDir p) (pco_spacing p) (pco_hierarchyStepSize p)
    (pco_pointAttributes p) (pco_projection p) (pco_boundingBox p)
    (pco_tightBoundingBox p) (pco_boundingSphere p) v
    (pco_offset p) (pco_loader p) (pco_root p) (pco_nodes p).
Definition set_pco_offset v (p : PointCloudOctreeGeometry) :=
  mkPco (pco_url p) (pco_octreeDir p) (pco_spacing p) (pco_hierarchyStepSize p)
    (pco_pointAttributes p) (pco_projection p) (pco_boundingBox p)
    (pco_tightBoundingBox p) (pco_boundingSphere p) (pco_tightBoundingSphere p)
    v (pco_loader p) (pco_root p) (pco_nodes p).
Definition set_pco_loader v (p : PointCloudOctreeGeometry) :=
  mkPco (pco_url p) (pco_octreeDir p) (pco_spacing p) (pco_hierarchyStepSize p)
    (pco_pointAttributes p) (pco_projection p) (pco_boundingBox p)
    (pco_tightBoundingBox p) (pco_boundingSphere p) (pco_tightBoundingSphere p)
    (pco_offset p) v (pco_root p) (pco_nodes p).
Definition set_pco_root v (p : PointCloudOctreeGeometry) :=
  mkPco (pco_url p) (pco_octreeDir p) (pco_spacing p) (pco_hierarchyStepSize p)
    (pco_pointAttributes p) (pco_projection p) (pco_boundingBox p)
    (pco_tightBoundingBox p) (pco_boundingSphere p) (pco_tightBoundingSphere p)
    (pco_offset p) (pco_loader p) v (pco_nodes p).
Definition set_pco_nodes v (p : PointCloudOctreeGeometry) :=
  mkPco (pco_url p) (pco_octreeDir p) (pco_spacing p) (pco_hierarchyStepSize p)
    (pco_pointAttributes p) (pco_projection p) (pco_boundingBox p)
    (pco_tightBoundingBox p) (pco_boundingSphere p) (pco_tightBoundingSphere p)
    (pco_offset p) (pco_loader p) (pco_root p) v.

(** [pco.field = v] *)
Definition assign (f : PointCloudOctreeGeometry -> PointCloudOctreeGeometry)
    : M World unit :=
  modify (with_pco f).

(** [callback(pco)] and [callback()]: the handler receives the descriptor
    as it stands at the call, or nothing. *)
Definition callback_with_pco : M World unit :=
  let* w := get in
  emit (EvCallback (Some (pco w))).

Definition callback_with_nothing : M World unit := emit (EvCallback None).

(** ** [POCLoader.load]: the handler [xhr.onload] *)

(** [new Version(data.version)] *)
Definition new_Version (version : string) : M World Version.t :=
  match Version.parse version with
  | Some v => ret v
  | None => throw (TypeError "malformed version")
  end.

(** Lines 36-50: the version, the directory of the payload files and the
    fields copied from the document. *)
Definition read_header (url : string) (data : MetadataDocument)
    : M World Version.t :=
  let* version := new_Version (doc_version data) in
  do (if starts_with "http" (doc_octreeDir data)
      then assign (set_pco_octreeDir (Some (doc_octreeDir data)))
      else assign (set_pco_octreeDir
             (Some (String.append (String.append url "/../") (doc_octreeDir data))))) then
  do assign (set_pco_spacing (Some (doc_spacing data))) then
  do assign (set_pco_hierarchyStepSize (Some (doc_hierarchyStepSize data))) then
  do assign (set_pco_pointAttributes (Some (PARaw (doc_pointAttributes data)))) then
  ret version.

(** Lines 52-76: the two boxes, moved so that the minimum corner of the
    full box is the origin. *)
Definition normalize (data : MetadataDocument) : M World Box3 :=
  let bb := doc_boundingBox data in
  let* min := new_Vector3 (lx bb) (ly bb) (lz bb) in
  let* max := new_Vector3 (ux bb) (uy bb) (uz bb) in
  let* boundingBox := new_Box3 min max in
  let* tightBoundingBox := Box3_clone boundingBox in
  do match doc_tightBoundingBox data with
     | Some tb =>
         let* lo := new_Vector3 (lx tb) (ly tb) (lz tb) in
         do Vector3_copy (Box3_min tightBoundingBox) lo then
         let* hi := new_Vector3 (ux tb) (uy tb) (uz tb) in
         Vector3_copy (Box3_max tightBoundingBox) hi
     | None => ret tt
     end then
  let* offset := Vector3_clone min in
  do Vector3_sub (Box3_min boundingBox) offset then
  do Vector3_sub (Box3_max boundingBox) offset then
  do Vector3_sub (Box3_min tightBoundingBox) offset then
  do Vector3_sub (Box3_max tightBoundingBox) offset then
  do assign (set_pco_projection (doc_projection data)) then
  do assign (set_pco_boundingBox (Some boundingBox)) then
  do assign (set_pco_tightBoundingBox (Some tightBoundingBox)) then
  let* sphere := Box3_getBoundingSphere boundingBox in
  do assign (set_pco_boundingSphere (Some sphere)) then
  let* tightSphere := Box3_getBoundingSphere tightBoundingBox in
  do assign (set_pco_tightBoundingSphere (Some tightSphere)) then
  do assign (set_pco_offset (Some offset)) then
  ret boundingBox.

(** [data.pointAttributes === 'LAS' || data.pointAttributes === 'LAZ'] *)
Definition is_LAS_or_LAZ (v : DocPointAttributes) : bool :=
  match v with
  | PATag tag => String.eqb tag "LAS" || String.eqb tag "LAZ"
  | PAList _ => false
  end.

(** Lines 79-87: the payload decoder. *)
Definition select_loader (data : MetadataDocument) (boundingBox : Box3)
    : M World unit :=
  if is_LAS_or_LAZ (doc_pointAttributes data)
  then
    let loader := LASLAZLoader (doc_version data) in
    do emit (EvNewLoader loader) then
    assign (set_pco_loader (Some loader))
  else
    let loader := BinaryLoader (doc_version data) boundingBox (doc_scale data) in
    do emit (EvNewLoader loader) then
    do assign (set_pco_loader (Some loader)) then
    let* w := get in
    match pco_pointAttributes (pco w) with
    | Some (PARaw v) =>
        do emit (EvNewPointAttributes v) then
        assign (set_pco_pointAttributes (Some (PAObject v)))
    | _ => throw (TypeError "pointAttributes")
    end.

(** [data.hierarchy[0][1]] *)
Definition first_numPoints (data : MetadataDocument) : M World num :=
  match doc_hierarchy data with
  | (_, numPoints) :: _ => ret numPoints
  | [] => throw (TypeError "data.hierarchy[0] is undefined")
  end.

(** Lines 89-100: the root node, its load and the index of nodes. *)
Definition build_root (data : MetadataDocument) (version : Version.t)
    (boundingBox : Box3) : M World (gmap string loc) :=
  let name := "r" in
  let* root := new_PointCloudOctreeGeometryNode name boundingBox in
  do update_Node root (set_level 0) then
  do update_Node root (set_hasChildren true) then
  let* w := get in
  do update_Node root (set_spacing (pco_spacing (pco w))) then
  let* numPoints :=
    (if Version.upTo version "1.5" then first_numPoints data else ret num_zero) in
  do update_Node root (set_numPoints numPoints) then
  do assign (set_pco_root (Some root)) then
  do Node_load root then
  ret (<[name := root]> (∅ : gmap string loc)).

(** Lines 107-120: the body of the loop over the hierarchy.  The index
    [nodes] is a plain object: a parent name that it does not hold reads as
    [undefined] (or as a property of [Object.prototype], which has no
    [boundingBox]), and the body throws a TypeError before it builds
    anything. *)
Definition build_node (index_of_nodes : gmap string loc) (entry : string * num)
    : M World (gmap string loc) :=
  let name := fst entry in
  let numPoints := snd entry in
  let index := parseInt (charAt name (js_length name - 1)) in
  let parentName := substring0 name (js_length name - 1) in
  let level := js_length name - 1 in
  match index_of_nodes !! parentName with
  | None => throw (TypeError "parentNode is undefined")
  | Some parentNode =>
      let* parent := read_Node parentNode in
      let* boundingBox := createChildAABB (node_boundingBox parent) index in
      let* node := new_PointCloudOctreeGeometryNode name boundingBox in
      do update_Node node (set_level level) then
      do update_Node node (set_numPoints numPoints) then
      let* w := get in
      match pco_spacing (pco w) with
      | None => throw (TypeError "pco.spacing")
      | Some spacing =>
          do update_Node node
               (set_spacing (Some (num_div spacing (num_pow2 level)))) then
          do Node_addChild parentNode node then
          ret (<[name := node]> index_of_nodes)
      end
  end.

(** Lines 105-121: [for (let i = 1; i < data.hierarchy.length; i++)], on
    the entries after the first. *)
Fixpoint build_nodes (entries : list (string * num))
    (index_of_nodes : gmap string loc) : M World (gmap string loc) :=
  match entries with
  | [] => ret index_of_nodes
  | entry :: rest =>
      let* index_of_nodes' := build_node index_of_nodes entry in
      build_nodes rest index_of_nodes'
  end.

(** Lines 103-122. *)
Definition build_hierarchy (data : MetadataDocument) (version : Version.t)
    (index_of_nodes : gmap string loc) : M World (gmap string loc) :=
  if Version.upTo version "1.4"
  then build_nodes (tail (doc_hierarchy data)) index_of_nodes
  else ret index_of_nodes.

(** Lines 35-100: everything before the loop over the hierarchy. *)
Definition build_descriptor_and_root (url : string) (data : MetadataDocument)
    : M World (Version.t * gmap string loc) :=
  let* version := read_header url data in
  let* boundingBox := normalize data in
  do select_loader data boundingBox then
  let* index_of_nodes := build_root data version boundingBox in
  ret (version, index_of_nodes).

Definition xhr_onload (url : string) (data : MetadataDocument) : M World unit :=
  let* built := build_descriptor_and_root url data in
  let* index_of_nodes := build_hierarchy data (fst built) (snd built) in
  do assign (set_pco_nodes (Some index_of_nodes)) then
  callback_with_pco.

(** ** The handler [xhr.onerror] *)

Definition xhr_onerror (url : string) (event : ProgressEvent) : M World unit :=
  do modify (with_numNodesLoading (fun n => n - 1)) then
  do emit (EvConsoleLog "Potree: loading file failed." url event) then
  callback_with_nothing.

(** ** [POCLoader.load] *)

(** What the transport answers: the parsed document, or a failure event. *)
Inductive Response :=
| Loaded (data : MetadataDocument)
| Failed (event : ProgressEvent).

(** [load(url, callback)], followed by the handler that the transport
    invokes. *)
Definition load (url : string) (response : Response) : M World unit :=
  do modify (with_pco (fun _ => new_pco)) then
  do assign (set_pco_url (Some url)) then
  do emit (EvXhrSend "GET" url) then
  match response with
  | Loaded data => xhr_onload url data
  | Failed event => xhr_onerror url event
  end.

(** ** Values read back from the store *)

(** The two corners of a box, as the store holds them. *)
Definition corners (w : World) (box : Box3) : option (Vector3 * Vector3) :=
  match vectors w !! Box3_min box, vectors w !! Box3_max box with
  | Some a, Some b => Some (a, b)
  | _, _ => None
  end.

(** The corners that [createChildAABB] computes for the child, from the
    corners of the parent: the same branches on the values. *)
Definition child_corners (pmin pmax : Vector3) (index : JSInt)
    : Vector3 * Vector3 :=
  let size := mkVector3 (num_sub (vec_x pmax) (vec_x pmin))
                        (num_sub (vec_y pmax) (vec_y pmin))
                        (num_sub (vec_z pmax) (vec_z pmin)) in
  let up proj := fun c => num_add c (num_div (proj size) num_two) in
  let down proj := fun c => num_sub c (num_div (proj size) num_two) in
  let '(min1, max1) :=
    if bitand index 1 >? 0 then (set_z (up vec_z) pmin, pmax)
    else (pmin, set_z (down vec_z) pmax) in
  let '(min2, max2) :=
    if bitand index 2 >? 0 then (set_y (up vec_y) min1, max1)
    else (min1, set_y (down vec_y) max1) in
  if bitand index 4 >? 0 then (set_x (up vec_x) min2, max2)
  else (min2, set_x (down vec_x) max2).

(** The store grew: every object of [w] is an object of [w'], unchanged. *)
Definition vectors_kept (w w' : World) : Prop :=
  forall v a, vectors w !! v = Some a -> vectors w' !! v = Some a.

(** ** Geometry of boxes *)

(** In the statements a box is the pair of its minimum and maximum
    corners.  [leq a b] is the test [a <= b]. *)
Definition leq (a b : num) : Prop := num_leb a b = true.

Definition on_every_axis (P : (Vector3 -> num) -> Prop) : Prop :=
  P vec_x /\ P vec_y /\ P vec_z.

Definition on_some_axis (P : (Vector3 -> num) -> Prop) : Prop :=
  P vec_x \/ P vec_y \/ P vec_z.

(** [min <= max] on every axis. *)
Definition ordered (box : Vector3 * Vector3) : Prop :=
  on_every_axis (fun proj => leq (proj (fst box)) (proj (snd box))).

(** The point [p] lies in the box, faces included. *)
Definition inside (p : Vector3) (box : Vector3 * Vector3) : Prop :=
  on_every_axis (fun proj =>
    leq (proj (fst box)) (proj p) /\ leq (proj p) (proj (snd box))).

(** The box [a] lies in the box [b]. *)
Definition contained (a b : Vector3 * Vector3) : Prop :=
  on_every_axis (fun proj =>
    leq (proj (fst b)) (proj (fst a)) /\ leq (proj (snd a)) (proj (snd b))).

Definition extent (proj : Vector3 -> num) (box : Vector3 * Vector3) : num :=
  num_sub (proj (snd box)) (proj (fst box)).

(** The child has half the extent of the parent on every axis. *)
Definition half_extent (parent child : Vector3 * Vector3) : Prop :=
  on_every_axis (fun proj =>
    extent proj child = num_div (extent proj parent) num_two).

(** [p] lies on a face that the boxes [a] and [b] share: on some axis the
    maximum of one is the minimum of the other, and [p] has that
    coordinate. *)
Definition on_shared_face (p : Vector3) (a b : Vector3 * Vector3) : Prop :=
  on_some_axis (fun proj =>
    (proj (snd a) = proj (fst b) /\ proj p = proj (snd a)) \/
    (proj (snd b) = proj (fst a) /\ proj p = proj (snd b))).

(** The eight boxes [children 0 .. children 7] tile the box [parent]: each
    has half its extent, their union is the parent, and two of them meet
    on a shared face only. *)
Definition tiles (parent : Vector3 * Vector3)
    (children : Z -> Vector3 * Vector3) : Prop :=
  (forall i, 0 <= i < 8 -> half_extent parent (children i)) /\
  (forall p, inside p parent <-> exists i, 0 <= i < 8 /\ inside p (children i)) /\
  (forall i j p, 0 <= i < 8 -> 0 <= j < 8 -> i <> j ->
     inside p (children i) -> inside p (children j) ->
     on_shared_face p (children i) (children j)).

(** The eight boxes that [createChildAABB] returns for the box [parent] of
    the world [w] tile it. *)
Definition child_tiling (w : World) (parent : Box3) : Prop :=
  exists pmin pmax children,
    corners w parent = Some (pmin, pmax) /\
    (forall i, 0 <= i < 8 ->
       exists child w',
         createChildAABB parent (Int i) w = (Normal child, w') /\
         corners w' child = Some (children i)) /\
    tiles (pmin, pmax) children.

(** One axis of [child_corners]: the half of [[lo, hi]] that a bit of the
    index selects. *)
Definition axis_half (upper : bool) (lo hi : num) : num * num :=
  if upper then (num_add lo (num_div (num_sub hi lo) num_two), hi)
  else (lo, num_sub hi (num_div (num_sub hi lo) num_two)).

(** ** What the phases of [xhr.onload] leave in the world *)

Definition vsub (a b : Vector3) : Vector3 :=
  mkVector3 (num_sub (vec_x a) (vec_x b))
            (num_sub (vec_y a) (vec_y b))
            (num_sub (vec_z a) (vec_z b)).

Definition vadd (a b : Vector3) : Vector3 :=
  mkVector3 (num_add (vec_x a) (vec_x b))
            (num_add (vec_y a) (vec_y b))
            (num_add (vec_z a) (vec_z b)).

(** The corners that a box of the document declares. *)
Definition declared_min (b : BoundingBoxDoc) : Vector3 :=
  mkVector3 (lx b) (ly b) (lz b).
Definition declared_max (b : BoundingBoxDoc) : Vector3 :=
  mkVector3 (ux b) (uy b) (uz b).
Definition declared (b : BoundingBoxDoc) : Vector3 * Vector3 :=
  (declared_min b, declared_max b).

(** The tight box that the loader works on: the declared one, or else the
    full box. *)
Definition declared_tight (data : MetadataDocument) : Vector3 * Vector3 :=
  match doc_tightBoundingBox data with
  | Some tb => declared tb
  | None => declared (doc_boundingBox data)
  end.

(** The vectors that [normalize] allocates, as it leaves them: the corners
    of the full box and of the tight box, both moved by the offset, the two
    temporaries of a declared tight box, and the offset. *)
Definition normalized_vectors (data : MetadataDocument) : list Vector3 :=
  let off := declared_min (doc_boundingBox data) in
  [vsub (declared_min (doc_boundingBox data)) off;
   vsub (declared_max (doc_boundingBox data)) off;
   vsub (fst (declared_tight data)) off;
   vsub (snd (declared_tight data)) off]
  ++ match doc_tightBoundingBox data with
     | Some tb => [declared_min tb; declared_max tb]
     | None => []
     end
  ++ [off].

(** Where [normalize] puts the offset, counted from the first vector it
    allocates. *)
Definition offset_slot (data : MetadataDocument) : nat :=
  match doc_tightBoundingBox data with
  | Some _ => 6%nat
  | None => 4%nat
  end.

Definition octreeDir_of (url : string) (data : MetadataDocument) : string :=
  if starts_with "http" (doc_octreeDir data)
  then doc_octreeDir data
  else String.append (String.append url "/../") (doc_octreeDir data).

Definition loader_of (data : MetadataDocument) (boundingBox : Box3)
    : PayloadLoader :=
  if is_LAS_or_LAZ (doc_pointAttributes data)
  then LASLAZLoader (doc_version data)
  else BinaryLoader (doc_version data) boundingBox (doc_scale data).

Definition pointAttributes_of (data : MetadataDocument) : PointAttributesField :=
  if is_LAS_or_LAZ (doc_pointAttributes data)
  then PARaw (doc_pointAttributes data)
  else PAObject (doc_pointAttributes data).

(** The descriptor when the root has been built; [n] is the number of
    vectors and [r] the number of nodes that existed before. *)
Definition descriptor_of (p0 : PointCloudOctreeGeometry) (url : string)
    (data : MetadataDocument) (n r : nat) : PointCloudOctreeGeometry :=
  let off := declared_min (doc_boundingBox data) in
  mkPco (pco_url p0)
        (Some (octreeDir_of url data))
        (Some (doc_spacing data))
        (Some (doc_hierarchyStepSize data))
        (Some (pointAttributes_of data))
        (doc_projection data)
        (Some (mkBox3 n (n + 1)%nat))
        (Some (mkBox3 (n + 2)%nat (n + 3)%nat))
        (Some (BoundingSphereOf (vsub (declared_min (doc_boundingBox data)) off)
                                (vsub (declared_max (doc_boundingBox data)) off)))
        (Some (BoundingSphereOf (vsub (fst (declared_tight data)) off)
                                (vsub (snd (declared_tight data)) off)))
        (Some (n + offset_slot data)%nat)
        (Some (loader_of data (mkBox3 n (n + 1)%nat)))
        (Some r)
        (pco_nodes p0).

(** The point count of the root. *)
Definition root_numPoints (data : MetadataDocument) (version : Version.t)
    : option num :=
  if Version.upTo version "1.5"
  then match doc_hierarchy data with
       | (_, numPoints) :: _ => Some numPoints
       | [] => None
       end
  else Some num_zero.

Definition root_node (data : MetadataDocument) (numPoints : num) (n : nat)
    : Node :=
  mkNode "r" NaN (mkBox3 n (n + 1)%nat) (Some 0) (Some numPoints)
         (Some (doc_spacing data)) (Some true) ∅ None.

(** The calls made before the loop over the hierarchy. *)
Definition events_before_hierarchy (data : MetadataDocument) (n r : nat)
    : list Event :=
  [EvGetBoundingSphere (mkBox3 n (n + 1)%nat);
   EvGetBoundingSphere (mkBox3 (n + 2)%nat (n + 3)%nat);
   EvNewLoader (loader_of data (mkBox3 n (n + 1)%nat))]
  ++ (if is_LAS_or_LAZ (doc_pointAttributes data) then []
      else [EvNewPointAttributes (doc_pointAttributes data)])
  ++ [EvNewNode r "r"; EvNodeLoad r].

(** ** The loop over the hierarchy *)

(** [name.substring(0, name.length - 1)] *)
Definition parent_name (name : string) : string :=
  substring0 name (js_length name - 1).

(** [parseInt(name.charAt(name.length - 1))] *)
Definition child_index (name : string) : JSInt :=
  parseInt (charAt name (js_length name - 1)).

(** [name.length - 1] *)
Definition level_of (name : string) : Z := js_length name - 1.

(** Every entry's parent precedes it: the name of its parent is one of the
    [known] names (the key of the root, at first) or the name of an entry
    before it. *)
Fixpoint parents_precede (known : list string) (entries : list (string * num))
    : Prop :=
  match entries with
  | [] => True
  | entry :: rest =>
      parent_name (fst entry) ∈ known /\
      parents_precede (fst entry :: known) rest
  end.

(** Two states of a node that differ in its children at most. *)
Definition same_but_children (a b : Node) : Prop :=
  node_name a = node_name b /\ node_index a = node_index b /\
  node_boundingBox a = node_boundingBox b /\ node_level a = node_level b /\
  node_numPoints a = node_numPoints b /\ node_spacing a = node_spacing b /\
  node_hasChildren a = node_hasChildren b /\ node_parent a = node_parent b.

(** Every node of [w] is a node of [w'], with other children at most. *)
Definition nodes_kept (w w' : World) : Prop :=
  forall n a, nodes w !! n = Some a ->
    exists b, nodes w' !! n = Some b /\ same_but_children a b.

(** What one turn of the loop does for an entry: from the index [idx] and
    the world [w] it makes the index [idx'] and the world [w'], in which
    [node] is the new node. *)
Definition node_built (rootSpacing : num) (entry : string * num)
    (idx : gmap string loc) (w : World)
    (idx' : gmap string loc) (w' : World) (node : loc) : Prop :=
  let name := fst entry in
  exists parent before pmin pmax built after,
    idx !! parent_name name = Some parent /\
    nodes w !! parent = Some before /\
    corners w (node_boundingBox before) = Some (pmin, pmax) /\
    nodes w !! node = None /\
    nodes w' !! node = Some built /\
    node_name built = name /\
    node_level built = Some (level_of name) /\
    node_index built = child_index name /\
    node_numPoints built = Some (snd entry) /\
    node_spacing built
      = Some (num_div rootSpacing (num_pow2 (level_of name))) /\
    node_parent built = Some parent /\
    corners w' (node_boundingBox built)
      = Some (child_corners pmin pmax (child_index name)) /\
    nodes w' !! parent = Some after /\
    node_children after !! child_index name = Some node /\
    idx' !! name = Some node.

(** What the loop relies on: the known names are indexed, every indexed
    node exists and has a box with two corners, and the descriptor has its
    spacing. *)
Definition loop_invariant (rootSpacing : num) (known : list string)
    (idx : gmap string loc) (w : World) : Prop :=
  (forall name, name ∈ known -> is_Some (idx !! name)) /\
  (forall name n, idx !! name = Some n ->
     exists node a b,
       nodes w !! n = Some node /\
       corners w (node_boundingBox node) = Some (a, b)) /\
  pco_spacing (pco w) = Some rootSpacing.

(** ** The whole handler *)

(** The documents on which [xhr.onload] completes: the version parses, the
    root finds its point count when it reads one, and in the legacy format
    every entry after the first has its parent in the index before it. *)
Definition well_formed (data : MetadataDocument) (version : Version.t) : Prop :=
  Version.parse (doc_version data) = Some version /\
  (Version.upTo version "1.5" = true -> doc_hierarchy data <> []) /\
  (Version.upTo version "1.4" = true ->
   parents_precede ["r"] (tail (doc_hierarchy data))).

(** The entries that the loop visits. *)
Definition hierarchy_entries (data : MetadataDocument) (version : Version.t)
    : list (string * num) :=
  if Version.upTo version "1.4" then tail (doc_hierarchy data) else [].

(** The world when the root has been built and its load started, from a
    world of vectors [vs], nodes [ns], descriptor [p], counter [c] and
    trace [t]. *)
Definition world_with_root (url : string) (data : MetadataDocument)
    (numPoints : num) (vs : list Vector3) (ns : list Node)
    (p : PointCloudOctreeGeometry) (c : Z) (t : list Event) : World :=
  mkWorld (vs ++ normalized_vectors data)
          (ns ++ [root_node data numPoints (length vs)])
          (descriptor_of p url data (length vs) (length ns))
          (numNodesLoading_after_load c)
          (t ++ events_before_hierarchy data (length vs) (length ns)).

(** Lines 123-125 on the world that the loop leaves. *)
Definition finished (idx : gmap string loc) (w : World) : World :=
  mkWorld (vectors w) (nodes w) (set_pco_nodes (Some idx) (pco w))
          (numNodesLoading w)
          (trace w ++ [EvCallback (Some (set_pco_nodes (Some idx) (pco w)))]).

(** ** Statements about the descriptor *)

(** Each box of the descriptor is the box of the document with the offset
    subtracted from every coordinate, and the offset is the minimum corner
    of the full box. *)
Definition normalized_by_offset (data : MetadataDocument) (w : World) : Prop :=
  let off := declared_min (doc_boundingBox data) in
  exists box tight offset,
    pco_boundingBox (pco w) = Some box /\
    pco_tightBoundingBox (pco w) = Some tight /\
    pco_offset (pco w) = Some offset /\
    vectors w !! offset = Some off /\
    corners w box
      = Some (vsub (declared_min (doc_boundingBox data)) off,
              vsub (declared_max (doc_boundingBox data)) off) /\
    corners w tight
      = Some (vsub (fst (declared_tight data)) off,
              vsub (snd (declared_tight data)) off).

(** Adding the offset to the boxes of the descriptor gives back the boxes
    of the document. *)
Definition normalization_round_trip (data : MetadataDocument) (w : World)
    : Prop :=
  exists box tight offset off bmin bmax tmin tmax,
    pco_boundingBox (pco w) = Some box /\
    pco_tightBoundingBox (pco w) = Some tight /\
    pco_offset (pco w) = Some offset /\
    vectors w !! offset = Some off /\
    off = declared_min (doc_boundingBox data) /\
    corners w box = Some (bmin, bmax) /\
    corners w tight = Some (tmin, tmax) /\
    vadd bmin off = declared_min (doc_boundingBox data) /\
    vadd bmax off = declared_max (doc_boundingBox data) /\
    vadd tmin off = fst (declared_tight data) /\
    vadd tmax off = snd (declared_tight data).

(** A box of the document moved by the offset: the minimum corner of the
    declared full box subtracted from both of its corners. *)
Definition shifted (data : MetadataDocument) (box : Vector3 * Vector3)
    : Vector3 * Vector3 :=
  (vsub (fst box) (declared_min (doc_boundingBox data)),
   vsub (snd box) (declared_min (doc_boundingBox data))).

(** The tight box of the descriptor lies in its full box. *)
Definition tight_in_full (w : World) : Prop :=
  exists box tight b t,
    pco_boundingBox (pco w) = Some box /\
    pco_tightBoundingBox (pco w) = Some tight /\
    corners w box = Some b /\ corners w tight = Some t /\
    contained t b.

(** The tight box of the descriptor is another object than its full box,
    with the same corners. *)
Definition tight_copies_full (w : World) : Prop :=
  exists box tight b,
    pco_boundingBox (pco w) = Some box /\
    pco_tightBoundingBox (pco w) = Some tight /\
    Box3_min tight <> Box3_min box /\ Box3_max tight <> Box3_max box /\
    corners w box = Some b /\ corners w tight = Some b.

(** ** The order of the calls *)

Inductive Phase :=
| Normalizing | TreeBuilding | DecoderSelecting | RootLoadTriggered | Done.

(** The phase that a call belongs to; the request and the failure log
    belong to none of the five. *)
Definition phase_of (e : Event) : option Phase :=
  match e with
  | EvGetBoundingSphere _ => Some Normalizing
  | EvNewNode _ _ => Some TreeBuilding
  | EvNewLoader _ | EvNewPointAttributes _ => Some DecoderSelecting
  | EvNodeLoad _ => Some RootLoadTriggered
  | EvCallback _ => Some Done
  | EvXhrSend _ _ | EvConsoleLog _ _ _ => None
  end.

(** Normalizing, then TreeBuilding, then DecoderSelecting, then
    RootLoadTriggered, then Done. *)
Definition stated_rank (ph : Phase) : nat :=
  match ph with
  | Normalizing => 0
  | TreeBuilding => 1
  | DecoderSelecting => 2
  | RootLoadTriggered => 3
  | Done => 4
  end%nat.

(** The calls follow the order of the phases: no call of a later phase
    comes before a call of an earlier one. *)
Definition follows (rank : Phase -> nat) (events : list Event) : Prop :=
  forall i j e e' ph ph',
    (i < j)%nat -> events !! i = Some e -> events !! j = Some e' ->
    phase_of e = Some ph -> phase_of e' = Some ph' ->
    (rank ph <= rank ph')%nat.

(** ** Computations that do not call back *)

Definition is_callback (e : Event) : bool :=
  match e with
  | EvCallback _ => true
  | _ => false
  end.

Definition is_node_load (e : Event) : bool :=
  match e with
  | EvNodeLoad _ => true
  | _ => false
  end.

(** The counter of loads in flight after the calls [events], when it was
    [c] before them and only the calls of [node.load()] among them wrote
    it. *)
Definition counter_after (events : list Event) (c : Z) : Z :=
  fold_left
    (fun c e => if is_node_load e then numNodesLoading_after_load c else c)
    events c.

(** However the computation [m] ends, it adds calls to the trace, none of
    them the callback, and the counter of loads in flight is written by
    the calls of [node.load()] among them only. *)
Definition quiet {A : Type} (m : M World A) : Prop :=
  forall w r w',
    m w = (r, w') ->
    exists events,
      trace w' = trace w ++ events /\
      Forall (fun e => is_callback e = false) events /\
      numNodesLoading w' = counter_after events (numNodesLoading w).

(** ** One turn of the loop, as a relation *)

(** The node that a turn of the loop allocates for [entry] under the
    parent [parent], with the box [box]. *)
Definition entry_node (rootSpacing : num) (entry : string * num)
    (parent : loc) (box : Box3) : Node :=
  mkNode (fst entry) (child_index (fst entry)) box
         (Some (level_of (fst entry))) (Some (snd entry))
         (Some (num_div rootSpacing (num_pow2 (level_of (fst entry)))))
         None ∅ (Some parent).

(** A completed turn of the loop for [entry]: the parent is indexed and
    has a box; three vectors are allocated (the corners of the child and
    the size of the parent), the parent gets the child, the node is
    allocated and indexed. *)
Definition turn (entry : string * num)
    (idx : gmap string loc) (w : World)
    (idx' : gmap string loc) (w' : World) : Prop :=
  exists parent before pmin pmax rootSpacing,
    idx !! parent_name (fst entry) = Some parent /\
    nodes w !! parent = Some before /\
    corners w (node_boundingBox before) = Some (pmin, pmax) /\
    pco_spacing (pco w) = Some rootSpacing /\
    idx' = <[fst entry := length (nodes w)]> idx /\
    w' = mkWorld
           (vectors w
            ++ [fst (child_corners pmin pmax (child_index (fst entry)));
                snd (child_corners pmin pmax (child_index (fst entry)));
                vsub pmax pmin])
           (<[parent := set_child (child_index (fst entry))
                          (length (nodes w)) before]> (nodes w)
            ++ [entry_node rootSpacing entry parent
                  (mkBox3 (length (vectors w)) (length (vectors w) + 1)%nat)])
           (pco w) (numNodesLoading w)
           (trace w ++ [EvNewNode (length (nodes w)) (fst entry)]).

(** ** The index of nodes at the end of the loop *)

(** The position of the last of the [entries] that has the name [name]. *)
Fixpoint last_position (name : string) (entries : list (string * num))
    : option nat :=
  match entries with
  | [] => None
  | entry :: rest =>
      match last_position name rest with
      | Some j => Some (S j)
      | None => if decide (fst entry = name) then Some 0%nat else None
      end
  end.

(** The index that the loop makes of the entries, when the root is the
    node [root] and the nodes of the entries follow it in the store: a
    name is indexed to the node of the last entry that has it, "r" to the
    root unless an entry is called "r", and no other name is indexed. *)
Definition index_of_entries (root : loc) (entries : list (string * num))
    (name : string) : option loc :=
  match last_position name entries with
  | Some j => Some (root + 1 + j)%nat
  | None => if decide (name = "r") then Some root else None
  end.

(** ** The octree that the loop builds *)

(** The index names the nodes: a name of the index is the name of its
    node, which was allocated from [base] on, and no name is empty. *)
Definition named_index (base : loc) (idx : gmap string loc) (w : World)
    : Prop :=
  forall name n, idx !! name = Some n ->
    (base <= n)%nat /\ name <> "" /\
    exists node, nodes w !! n = Some node /\ node_name node = name.

(** The node [node], at [n], is linked in the tree whose root is at
    [base].  Its level and its index among its siblings are read off its
    name.  It has no parent exactly when it is the root, called "r";
    otherwise its parent is an older node of the tree, whose name is the
    name of the node without its last character and whose level is one
    less.  Each of its children is a younger node that has it as parent
    and sits under its own index. *)
Definition linked (base : loc) (w : World) (n : loc) (node : Node) : Prop :=
  node_name node <> "" /\
  node_level node = Some (level_of (node_name node)) /\
  node_index node = child_index (node_name node) /\
  match node_parent node with
  | None => n = base /\ node_name node = "r"
  | Some q =>
      (base <= q < n)%nat /\
      exists above,
        nodes w !! q = Some above /\
        node_name above = parent_name (node_name node) /\
        node_level above = Some (level_of (node_name node) - 1)
  end /\
  forall i c, node_children node !! i = Some c ->
    (n < c)%nat /\
    exists below,
      nodes w !! c = Some below /\
      node_parent below = Some n /\ node_index below = i.

Definition octree_from (base : loc) (w : World) : Prop :=
  forall n node,
    (base <= n)%nat -> nodes w !! n = Some node -> linked base w n node.

(** The box of a node at the level [level] under the box [root]: its
    minimum is at most its maximum, it lies in [root], and on each axis
    its extent is the extent of [root] divided by [2^level]. *)
Definition box_at_level (root box : Vector3 * Vector3) (level : Z) : Prop :=
  ordered box /\ contained box root /\
  on_every_axis (fun proj =>
    extent proj box = num_div (extent proj root) (num_pow2 level)).

(** ** Documents that differ in their hierarchy *)

(** The document [data] with the hierarchy [h]. *)
Definition set_doc_hierarchy (h : list (string * num)) (data : MetadataDocument)
    : MetadataDocument :=
  mkMetadataDocument (doc_version data) (doc_octreeDir data) (doc_spacing data)
    (doc_hierarchyStepSize data) (doc_pointAttributes data)
    (doc_boundingBox data) (doc_tightBoundingBox data) (doc_projection data)
    (doc_scale data) h.

(** ** The vectors that the boxes hold *)

(** The two vector objects of a box. *)
Definition box_locs (b : Box3) : list loc := [Box3_min b; Box3_max b].

(** The vector objects of the boxes of the nodes allocated from [base]
    on, node after node. *)
Definition node_box_locs (base : loc) (ns : list Node) : list loc :=
  flat_map box_locs (drop base (map node_boundingBox ns)).

(** ** The hierarchy as the spec words it *)

(** The last character of a string. *)
Fixpoint last_char (s : string) : option ascii :=
  match s with
  | EmptyString => None
  | String c EmptyString => Some c
  | String _ rest => last_char rest
  end.

Definition octal_digit_of_ascii (c : ascii) : option Z :=
  let n := N_of_ascii c in
  if ((48 <=? n) && (n <=? 55))%N then Some (Z.of_N n - 48) else None.

(** From the spec's words: "the final character of [name] interpreted as
    a single octal digit (0-7)".  A name that ends in another character
    has none. *)
Definition last_octal_digit (name : string) : option Z :=
  match last_char name with
  | Some c => octal_digit_of_ascii c
  | None => None
  end.

(** From the spec's words: the list is "in an order where every entry's
    parent precedes it": the name of an entry after the first, without its
    last character, is the name of an entry before it. *)
Definition parent_listed_before (entries : list (string * num)) : Prop :=
  forall i entry,
    (0 < i)%nat -> entries !! i = Some entry ->
    exists j before,
      (j < i)%nat /\ entries !! j = Some before /\
      fst before = parent_name (fst entry).

(** What the load leaves of the [i]-th entry visited by the loop, in the
    world [w] with the index [idx], when the root was allocated at [base]
    and the loop has visited [entries].  The node of the entry comes
    [i + 1] nodes after the root.  It has the name and the point count of
    the entry, the level [length name - 1], the index that [parseInt]
    reads from the last character of the name (the digit itself when that
    is an octal digit) and the root spacing divided by [2^level].  Its
    parent is the node that was indexed under the name without its last
    character when the entry was visited, and its box has the corners
    that [createChildAABB] computes from the corners of the box of that
    node, for its index.  It is the child of its parent under its index
    unless a later entry has the same parent name and the same index, and
    the index has it under its name unless a later entry has the same
    name. *)
Definition node_of_entry (rootSpacing : num) (base : loc)
    (entries : list (string * num)) (idx : gmap string loc) (w : World)
    (i : nat) (entry : string * num) : Prop :=
  let name := fst entry in
  let n := (base + 1 + i)%nat in
  exists node parent above pmin pmax,
    nodes w !! n = Some node /\
    node_name node = name /\
    node_level node = Some (js_length name - 1) /\
    node_index node = child_index name /\
    (forall d, last_octal_digit name = Some d -> node_index node = Int d) /\
    node_numPoints node = Some (snd entry) /\
    node_spacing node
      = Some (num_div rootSpacing (num_pow2 (js_length name - 1))) /\
    index_of_entries base (take i entries) (parent_name name) = Some parent /\
    node_parent node = Some parent /\
    nodes w !! parent = Some above /\
    node_name above = parent_name name /\
    corners w (node_boundingBox above) = Some (pmin, pmax) /\
    corners w (node_boundingBox node)
      = Some (child_corners pmin pmax (node_index node)) /\
    ((forall k later,
        (i < k)%nat -> entries !! k = Some later ->
        parent_name (fst later) = parent_name name ->
        child_index (fst later) <> child_index name) ->
     node_children above !! node_index node = Some n) /\
    ((forall k later,
        (i < k)%nat -> entries !! k = Some later -> fst later <> name) ->
     idx !! name = Some n).

End Loader.

(** * Sample worlds and documents *)

#[local] Set Warnings "-inexact-float".

(** A decimal literal denotes the nearest binary64 value, as it does in
    JavaScript source text and in JSON. *)

Definition empty_world {num : Type} : @World num :=
  mkWorld [] [] new_pco 0 [].

(** A world that holds the cube of corners (0.1, 0.1, 0.1) and
    (0.5, 0.5, 0.5). *)
Definition float_cube_world : @World float :=
  mkWorld [mkVector3 0.1%float 0.1%float 0.1%float;
           mkVector3 0.5%float 0.5%float 0.5%float] [] new_pco 0 [].

Definition float_cube : Box3 := mkBox3 0%nat 1%nat.

(** The same with the unit cube, in exact arithmetic. *)
Definition unit_cube_world : @World Qc :=
  mkWorld [mkVector3 (Q2Qc 0) (Q2Qc 0) (Q2Qc 0);
           mkVector3 (Q2Qc 1) (Q2Qc 1) (Q2Qc 1)] [] new_pco 0 [].

Definition unit_cube : Box3 := mkBox3 0%nat 1%nat.

(** The document of the legacy example: three nodes under the root
    spacing 1, in the cube from 0 to 8. *)
Definition legacy_doc : @MetadataDocument float :=
  mkMetadataDocument "1.4" "data" 1%float 5%float (PATag "LAZ")
    (mkBoundingBoxDoc 0%float 0%float 0%float 8%float 8%float 8%float)
    None None None
    [("r", 100%float); ("r0", 10%float); ("r01", 3%float)].

(** A document of the current format whose box goes from -3 to 0.1. *)
Definition offset_doc : @MetadataDocument float :=
  mkMetadataDocument "1.8" "http://host/data" 1%float 5%float
    (PAList ["POSITION_CARTESIAN"])
    (mkBoundingBoxDoc (-3)%float (-3)%float (-3)%float
                      0.1%float 0.1%float 0.1%float)
    None None (Some 0.001%float) [].

(** A document that declares a tight box larger than its full box. *)
Definition wide_tight_doc : @MetadataDocument float :=
  mkMetadataDocument "1.8" "data" 1%float 5%float
    (PAList ["POSITION_CARTESIAN"])
    (mkBoundingBoxDoc 0%float 0%float 0%float 1%float 1%float 1%float)
    (Some (mkBoundingBoxDoc (-1)%float (-1)%float (-1)%float
                            2%float 2%float 2%float))
    None (Some 0.001%float) [].

(** A document in exact arithmetic, with a tight box inside its full box
    and a root that reads its point count (version 1.5). *)
Definition exact_doc : @MetadataDocument Qc :=
  mkMetadataDocument "1.5" "data" (Q2Qc 1) (Q2Qc 5)
    (PAList ["POSITION_CARTESIAN"])
    (mkBoundingBoxDoc (Q2Qc (-3)) (Q2Qc (-3)) (Q2Qc (-3))
                      (Q2Qc (1 # 10)) (Q2Qc (1 # 10)) (Q2Qc (1 # 10)))
    (Some (mkBoundingBoxDoc (Q2Qc (-2)) (Q2Qc (-2)) (Q2Qc (-2))
                            (Q2Qc 0) (Q2Qc 0) (Q2Qc 0)))
    None (Some (Q2Qc (1 # 1000))) [("r", Q2Qc 100); ("r0", Q2Qc 10)].

(** A legacy document whose second entry has no parent: "r00" comes
    without "r0". *)
Definition orphan_doc : @MetadataDocument float :=
  mkMetadataDocument "1.4" "data" 1%float 5%float (PATag "LAZ")
    (mkBoundingBoxDoc 0%float 0%float 0%float 8%float 8%float 8%float)
    None None None
    [("r", 100%float); ("r00", 2%float)].

(** The legacy example in exact arithmetic, with one more child of the
    root. *)
Definition exact_legacy_doc : @MetadataDocument Qc :=
  mkMetadataDocument "1.4" "data" (Q2Qc 1) (Q2Qc 5) (PATag "LAZ")
    (mkBoundingBoxDoc (Q2Qc 0) (Q2Qc 0) (Q2Qc 0) (Q2Qc 8) (Q2Qc 8) (Q2Qc 8))
    None None None
    [("r", Q2Qc 100); ("r0", Q2Qc 10); ("r01", Q2Qc 3); ("r4", Q2Qc 7)].

(** A document that declares a tight box inside its full box. *)
Definition inner_tight_doc : @MetadataDocument float :=
  mkMetadataDocument "1.8" "data" 1%float 5%float
    (PAList ["POSITION_CARTESIAN"])
    (mkBoundingBoxDoc (-3)%float (-3)%float (-3)%float 5%float 5%float 5%float)
    (Some (mkBoundingBoxDoc (-2)%float (-2)%float (-2)%float
                            4%float 4%float 4%float))
    None (Some 0.001%float) [].

(** A document whose box has no lower bound (a JSON number such as
    [-1e999] parses to minus infinity) and that declares no tight box. *)
Definition unbounded_doc : @MetadataDocument float :=
  mkMetadataDocument "1.8" "data" 1%float 5%float
    (PAList ["POSITION_CARTESIAN"])
    (mkBoundingBoxDoc neg_infinity neg_infinity neg_infinity
                      8%float 8%float 8%float)
    None None (Some 0.001%float) [].

(** A legacy document whose first entry is not called "r": the parent of
    "x0" is listed before it, and is not in the index, where the root is
    under "r". *)
Definition root_x_doc : @MetadataDocument float :=
  mkMetadataDocument "1.4" "data" 1%float 5%float (PATag "LAZ")
    (mkBoundingBoxDoc 0%float 0%float 0%float 8%float 8%float 8%float)
    None None None
    [("x", 100%float); ("x0", 10%float)].

(** A legacy document with names that end in no octal digit. *)
Definition odd_names_doc : @MetadataDocument float :=
  mkMetadataDocument "1.4" "data" 1%float 5%float (PATag "LAZ")
    (mkBoundingBoxDoc 0%float 0%float 0%float 8%float 8%float 8%float)
    None None None
    [("r", 100%float); ("r8", 10%float); ("rx", 3%float)].

(** A legacy document that lists "r0" twice. *)
Definition twin_doc : @MetadataDocument float :=
  mkMetadataDocument "1.4" "data" 1%float 5%float (PATag "LAZ")
    (mkBoundingBoxDoc 0%float 0%float 0%float 8%float 8%float 8%float)
    None None None
    [("r", 100%float); ("r0", 10%float); ("r0", 3%float)].

Definition sample_url : string := "http://host/cloud.json".

(** A node class for the examples: its [load()] counts the node among the
    loads in flight. *)
#[global] Instance counting_nodes : NodeClass := {
  numNodesLoading_after_load := Z.succ
}.

(** * Running the loader *)

(** ** The store as a list that grows at its end *)

Lemma bind_Normal {S A B} (m : M S A) (k : A -> M S B) w a w' :
  m w = (Normal a, w') -> bind m k w = k a w'.
Proof. unfold bind. intros ->. reflexivity. Qed.

Lemma bind_Throw {S A B} (m : M S A) (k : A -> M S B) w e w' :
  m w = (Throw e, w') -> bind m k w = (Throw e, w').
Proof. unfold bind. intros ->. reflexivity. Qed.

Lemma bind_bind {S A B C} (m : M S A) (k : A -> M S B) (k' : B -> M S C) w :
  bind (bind m k) k' w = bind m (fun a => bind (k a) k') w.
Proof. unfold bind. destruct (m w) as [[a | e] w']; reflexivity. Qed.

Lemma bind_ext {S A B} (m : M S A) (k k' : A -> M S B) (s : S) :
  (forall a s', k a s' = k' a s') -> bind m k s = bind m k' s.
Proof.
  intros H. unfold bind. destruct (m s) as [[a | e] s']; [apply H | reflexivity].
Qed.

Lemma lookup_grown {A} (vs l : list A) (k : nat) :
  (vs ++ l) !! (length vs + k)%nat = l !! k.
Proof. rewrite lookup_app_r by lia. f_equal. lia. Qed.

Lemma lookup_grown0 {A} (vs l : list A) :
  (vs ++ l) !! length vs = l !! 0%nat.
Proof. rewrite <- (lookup_grown vs l 0). f_equal. lia. Qed.

Lemma lookup_kept {A} (vs l : list A) (v : nat) a :
  vs !! v = Some a -> (vs ++ l) !! v = Some a.
Proof. apply lookup_app_l_Some. Qed.

Lemma insert_grown0 {A} (vs l : list A) x :
  <[length vs := x]> (vs ++ l) = vs ++ <[0%nat := x]> l.
Proof. rewrite <- insert_app_r. f_equal. lia. Qed.

Lemma insert_kept {A} (vs l : list A) (v : nat) a x :
  vs !! v = Some a -> <[v := x]> (vs ++ l) = <[v := x]> vs ++ l.
Proof. intros Hv. apply insert_app_l. eapply lookup_lt_Some, Hv. Qed.

Lemma lookup_after_insert {A} (l l' : list A) (i : nat) x :
  (<[i := x]> l ++ l') !! length l = l' !! 0%nat.
Proof. rewrite <- (length_insert l i x). apply lookup_grown0. Qed.

Lemma insert_after_insert {A} (l l' : list A) (i : nat) x y :
  <[length l := y]> (<[i := x]> l ++ l') = <[i := x]> l ++ <[0%nat := y]> l'.
Proof. rewrite <- (length_insert l i x). apply insert_grown0. Qed.

Lemma lookup_fresh {A} (vs : list A) (k : nat) : vs !! (length vs + k)%nat = None.
Proof. apply lookup_ge_None. lia. Qed.

Lemma lookup_fresh0 {A} (vs : list A) : vs !! length vs = None.
Proof. apply lookup_ge_None. lia. Qed.

(** Stores are kept in the form [old ++ [new objects]], locations in the
    form [length old + k]. *)
Ltac norm_heap :=
  simpl;
  repeat (rewrite <- app_assoc || rewrite length_app || rewrite <- Nat.add_assoc
          || rewrite insert_app_r || rewrite insert_grown0
          || rewrite lookup_grown || rewrite lookup_grown0);
  simpl.

Ltac heap_side :=
  norm_heap;
  first [ reflexivity | eassumption | apply lookup_kept; eassumption ].

(** One step of a sequence: rewrite with the equation [L] of its first
    computation. *)
Tactic Notation "run_with" uconstr(L) :=
  rewrite ?bind_bind; erewrite bind_Normal; [ | eapply L; heap_side ].

Section Runs.

Context {num : Type} {NumOps : Number num} {NodeOps : NodeClass}.
Implicit Types (vs : list (@Vector3 num)) (ns : list (@Node num)).
Implicit Types (p : @PointCloudOctreeGeometry num) (t : list (@Event num)).

Lemma new_Vector3_run x y z vs ns p c t :
  new_Vector3 x y z (mkWorld vs ns p c t)
  = (Normal (length vs), mkWorld (vs ++ [mkVector3 x y z]) ns p c t).
Proof. reflexivity. Qed.

Lemma read_Vector3_run v a vs ns p c t :
  vs !! v = Some a ->
  read_Vector3 v (mkWorld vs ns p c t) = (Normal a, mkWorld vs ns p c t).
Proof. unfold read_Vector3. simpl. intros ->. reflexivity. Qed.

Lemma write_Vector3_run v a vs ns p c t :
  write_Vector3 v a (mkWorld vs ns p c t)
  = (Normal tt, mkWorld (<[v := a]> vs) ns p c t).
Proof. reflexivity. Qed.

Lemma Vector3_clone_run v a vs ns p c t :
  vs !! v = Some a ->
  Vector3_clone v (mkWorld vs ns p c t)
  = (Normal (length vs), mkWorld (vs ++ [a]) ns p c t).
Proof.
  intros Hv. unfold Vector3_clone.
  run_with read_Vector3_run.
  rewrite new_Vector3_run. destruct a; reflexivity.
Qed.

Lemma Vector3_copy_run this v a a0 vs ns p c t :
  vs !! v = Some a -> vs !! this = Some a0 ->
  Vector3_copy this v (mkWorld vs ns p c t)
  = (Normal tt, mkWorld (<[this := a]> vs) ns p c t).
Proof.
  intros Hv Hthis. unfold Vector3_copy.
  run_with read_Vector3_run. run_with read_Vector3_run.
  apply write_Vector3_run.
Qed.

Lemma Vector3_sub_run this v a b vs ns p c t :
  vs !! this = Some a -> vs !! v = Some b ->
  Vector3_sub this v (mkWorld vs ns p c t)
  = (Normal tt,
     mkWorld (<[this := mkVector3 (num_sub (vec_x a) (vec_x b))
                                 (num_sub (vec_y a) (vec_y b))
                                 (num_sub (vec_z a) (vec_z b))]> vs) ns p c t).
Proof.
  intros Hthis Hv. unfold Vector3_sub.
  run_with read_Vector3_run. run_with read_Vector3_run.
  apply write_Vector3_run.
Qed.

Lemma Vector3_subVectors_run this a b va vb v0 vs ns p c t :
  vs !! a = Some va -> vs !! b = Some vb -> vs !! this = Some v0 ->
  Vector3_subVectors this a b (mkWorld vs ns p c t)
  = (Normal this,
     mkWorld (<[this := mkVector3 (num_sub (vec_x va) (vec_x vb))
                                 (num_sub (vec_y va) (vec_y vb))
                                 (num_sub (vec_z va) (vec_z vb))]> vs) ns p c t).
Proof.
  intros Ha Hb H0. unfold Vector3_subVectors.
  run_with read_Vector3_run. run_with read_Vector3_run.
  run_with read_Vector3_run. run_with write_Vector3_run.
  reflexivity.
Qed.

Lemma add_half_run proj upd v size s a vs ns p c t :
  vs !! size = Some s -> vs !! v = Some a ->
  add_half proj upd v size (mkWorld vs ns p c t)
  = (Normal tt,
     mkWorld (<[v := upd (fun c => num_add c (num_div (proj s) num_two)) a]> vs)
       ns p c t).
Proof.
  intros Hs Ha. unfold add_half.
  run_with read_Vector3_run. run_with read_Vector3_run.
  apply write_Vector3_run.
Qed.

Lemma sub_half_run proj upd v size s a vs ns p c t :
  vs !! size = Some s -> vs !! v = Some a ->
  sub_half proj upd v size (mkWorld vs ns p c t)
  = (Normal tt,
     mkWorld (<[v := upd (fun c => num_sub c (num_div (proj s) num_two)) a]> vs)
       ns p c t).
Proof.
  intros Hs Ha. unfold sub_half.
  run_with read_Vector3_run. run_with read_Vector3_run.
  apply write_Vector3_run.
Qed.

(** [createChildAABB] allocates three vectors (the two corners of the
    child and the size of the parent) and writes to nothing else. *)
Lemma createChildAABB_run aabb index pmin pmax vs ns p c t :
  vs !! Box3_min aabb = Some pmin -> vs !! Box3_max aabb = Some pmax ->
  createChildAABB aabb index (mkWorld vs ns p c t) =
    (Normal (mkBox3 (length vs) (length vs + 1)%nat),
     mkWorld (vs ++ [fst (child_corners pmin pmax index);
                     snd (child_corners pmin pmax index);
                     mkVector3 (num_sub (vec_x pmax) (vec_x pmin))
                               (num_sub (vec_y pmax) (vec_y pmin))
                               (num_sub (vec_z pmax) (vec_z pmin))]) ns p c t).
Proof.
  intros Ha Hb.
  unfold createChildAABB, child_corners.
  run_with Vector3_clone_run.
  run_with Vector3_clone_run.
  run_with new_Vector3_run.
  run_with Vector3_subVectors_run.
  norm_heap.
  destruct (bitand index 1 >? 0), (bitand index 2 >? 0), (bitand index 4 >? 0).
  all: repeat first [ run_with add_half_run | run_with sub_half_run ];
       norm_heap; unfold new_Box3, ret; reflexivity.
Qed.

Lemma corners_Some (w : @World num) box a b :
  corners w box = Some (a, b) <->
  vectors w !! Box3_min box = Some a /\ vectors w !! Box3_max box = Some b.
Proof.
  unfold corners.
  destruct (vectors w !! Box3_min box), (vectors w !! Box3_max box);
    split; intros H; try discriminate; try (destruct H; discriminate).
  - injection H as -> ->. auto.
  - destruct H as [[= ->] [= ->]]. reflexivity.
Qed.

(** C10. [createChildAABB] does not mutate its arguments: on a box whose
    corners are [pmin] and [pmax] it returns a box on two new vectors (the
    clones, moved to the child's corners); every vector that existed before
    the call, the corners of the parent among them, is unchanged, and so are
    the nodes, the descriptor, the counter and the trace. *)
Theorem createChildAABB_frame (w : @World num) aabb index pmin pmax :
  corners w aabb = Some (pmin, pmax) ->
  exists child w',
    createChildAABB aabb index w = (Normal child, w') /\
    vectors_kept w w' /\
    corners w' aabb = Some (pmin, pmax) /\
    vectors w !! Box3_min child = None /\
    vectors w !! Box3_max child = None /\
    Box3_min child <> Box3_max child /\
    corners w' child = Some (child_corners pmin pmax index) /\
    nodes w' = nodes w /\ pco w' = pco w /\
    numNodesLoading w' = numNodesLoading w /\ trace w' = trace w.
Proof.
  intros Hc. apply corners_Some in Hc as [Ha Hb].
  destruct w as [vs ns p c t]. simpl in *.
  eexists _, _. split; [apply (createChildAABB_run _ _ _ _ _ _ _ _ _ Ha Hb)|].
  simpl. repeat split.
  - intros v a Hv. simpl. apply lookup_kept, Hv.
  - apply corners_Some. simpl. split; apply lookup_kept; assumption.
  - apply lookup_fresh0.
  - apply lookup_fresh.
  - lia.
  - rewrite (surjective_pairing (child_corners pmin pmax index)).
    apply corners_Some. simpl. norm_heap. split; reflexivity.
Qed.

End Runs.

Section Corners.

Context {num : Type} {NumOps : Number num} {NodeOps : NodeClass}.

Lemma child_corners_x (a b : @Vector3 num) index :
  (vec_x (fst (child_corners a b index)), vec_x (snd (child_corners a b index)))
  = axis_half (bitand index 4 >? 0) (vec_x a) (vec_x b).
Proof.
  unfold child_corners, axis_half.
  destruct (bitand index 1 >? 0), (bitand index 2 >? 0), (bitand index 4 >? 0);
    reflexivity.
Qed.

Lemma child_corners_y (a b : @Vector3 num) index :
  (vec_y (fst (child_corners a b index)), vec_y (snd (child_corners a b index)))
  = axis_half (bitand index 2 >? 0) (vec_y a) (vec_y b).
Proof.
  unfold child_corners, axis_half.
  destruct (bitand index 1 >? 0), (bitand index 2 >? 0), (bitand index 4 >? 0);
    reflexivity.
Qed.

Lemma child_corners_z (a b : @Vector3 num) index :
  (vec_z (fst (child_corners a b index)), vec_z (snd (child_corners a b index)))
  = axis_half (bitand index 1 >? 0) (vec_z a) (vec_z b).
Proof.
  unfold child_corners, axis_half.
  destruct (bitand index 1 >? 0), (bitand index 2 >? 0), (bitand index 4 >? 0);
    reflexivity.
Qed.

(** Bit 2 of the index selects the half on x, bit 1 on y, bit 0 on z. *)
Lemma child_corners_axes (a b : @Vector3 num) index :
  let c := child_corners a b index in
  (vec_x (fst c) = fst (axis_half (bitand index 4 >? 0) (vec_x a) (vec_x b)) /\
   vec_x (snd c) = snd (axis_half (bitand index 4 >? 0) (vec_x a) (vec_x b))) /\
  (vec_y (fst c) = fst (axis_half (bitand index 2 >? 0) (vec_y a) (vec_y b)) /\
   vec_y (snd c) = snd (axis_half (bitand index 2 >? 0) (vec_y a) (vec_y b))) /\
  (vec_z (fst c) = fst (axis_half (bitand index 1 >? 0) (vec_z a) (vec_z b)) /\
   vec_z (snd c) = snd (axis_half (bitand index 1 >? 0) (vec_z a) (vec_z b))).
Proof.
  pose proof (child_corners_x a b index) as Hx.
  pose proof (child_corners_y a b index) as Hy.
  pose proof (child_corners_z a b index) as Hz.
  simpl. rewrite <- Hx, <- Hy, <- Hz. simpl. auto.
Qed.

Lemma createChildAABB_corners (w : @World num) parent index pmin pmax :
  corners w parent = Some (pmin, pmax) ->
  exists child w',
    createChildAABB parent index w = (Normal child, w') /\
    corners w' child = Some (child_corners pmin pmax index).
Proof.
  intros Hc. apply corners_Some in Hc as [Ha Hb].
  destruct w as [vs ns p c t]. simpl in *.
  eexists _, _. split; [apply (createChildAABB_run _ _ _ _ _ _ _ _ _ Ha Hb)|].
  rewrite (surjective_pairing (child_corners pmin pmax index)).
  apply corners_Some. simpl. norm_heap. split; reflexivity.
Qed.

End Corners.

(** ** The eight octants *)

Lemma octant_bits (bx by_ bz : bool) :
  exists i, 0 <= i < 8 /\
    (bitand (Int i) 4 >? 0) = bx /\ (bitand (Int i) 2 >? 0) = by_ /\
    (bitand (Int i) 1 >? 0) = bz.
Proof.
  exists ((if bx then 4 else 0) + (if by_ then 2 else 0) + (if bz then 1 else 0)).
  destruct bx, by_, bz; repeat split; reflexivity || lia.
Qed.

Lemma octant_cases i : 0 <= i < 8 ->
  i = 0 \/ i = 1 \/ i = 2 \/ i = 3 \/ i = 4 \/ i = 5 \/ i = 6 \/ i = 7.
Proof. lia. Qed.

Lemma octant_bits_inj i j :
  0 <= i < 8 -> 0 <= j < 8 ->
  (bitand (Int i) 4 >? 0) = (bitand (Int j) 4 >? 0) ->
  (bitand (Int i) 2 >? 0) = (bitand (Int j) 2 >? 0) ->
  (bitand (Int i) 1 >? 0) = (bitand (Int j) 1 >? 0) ->
  i = j.
Proof.
  intros Hi Hj.
  destruct (octant_cases i Hi) as [-> | [-> | [-> | [-> | [-> | [-> | [-> | ->]]]]]]];
  destruct (octant_cases j Hj) as [-> | [-> | [-> | [-> | [-> | [-> | [-> | ->]]]]]]];
  intros H4 H2 H1; vm_compute in H4, H2, H1; congruence.
Qed.

(** ** Names that end in an octal digit *)

(** The character of the digit [d]. *)
Lemma digit_of_octal (d : Z) :
  0 <= d < 8 -> digit_of_ascii (ascii_of_N (Z.to_N (48 + d))) = Some d.
Proof.
  intros Hd.
  destruct (octant_cases d Hd) as [-> | [-> | [-> | [-> | [-> | [-> | [-> | ->]]]]]]];
    reflexivity.
Qed.

Lemma substring0_append (s : string) (c : ascii) :
  String.substring 0 (String.length s) (String.append s (String c "")) = s.
Proof.
  induction s as [|a s IH]; simpl.
  - reflexivity.
  - rewrite IH. reflexivity.
Qed.

Lemma get_append_last (s : string) (c : ascii) :
  String.get (String.length s) (String.append s (String c "")) = Some c.
Proof.
  induction s as [|a s IH]; simpl; [reflexivity | exact IH].
Qed.

Lemma length_append_last (s : string) (c : ascii) :
  String.length (String.append s (String c "")) = S (String.length s).
Proof.
  induction s as [|a s IH]; simpl; [reflexivity | rewrite IH; reflexivity].
Qed.

(** For a name made of the name [s] of the parent and an octal digit [d]:
    the index read by [parseInt] is [d], the name of the parent is [s], and
    the level is the length of [s]. *)
Lemma octal_name (s : string) (d : Z) :
  0 <= d < 8 ->
  let name := String.append s (String (ascii_of_N (Z.to_N (48 + d))) "") in
  child_index name = Int d /\
  parent_name name = s /\
  level_of name = js_length s.
Proof.
  intros Hd name. subst name.
  unfold child_index, parent_name, level_of, charAt, substring0, js_length.
  rewrite length_append_last.
  replace (Z.of_nat (S (String.length s)) - 1) with (Z.of_nat (String.length s))
    by lia.
  rewrite Nat2Z.id.
  destruct (Z.of_nat (String.length s) <? 0)%Z eqn:E; [lia|].
  rewrite get_append_last, substring0_append.
  split; [|split; reflexivity].
  unfold parseInt. rewrite (digit_of_octal d Hd). reflexivity.
Qed.

(** ** Exact arithmetic *)

(** Order and equations of [Qc], decided on the underlying fractions. *)
Ltac qc_order :=
  unfold leq, num_leb, num_add, num_sub, num_div, num_two, Qc_Number, Qc_leb in *;
  rewrite ?bool_decide_eq_true in *;
  unfold Qcle, Qclt, Qcplus, Qcminus, Qcopp, Qcdiv, Qcmult, Qcinv in *;
  simpl in *;
  repeat rewrite Qred_correct in *;
  change (Qinv (Qmake 2 1)) with (Qmake 1 2) in *;
  try lra; try ring.

Lemma axis_half_extent upper (lo hi : Qc) :
  num_sub (snd (axis_half upper lo hi)) (fst (axis_half upper lo hi))
  = num_div (num_sub hi lo) num_two.
Proof. destruct upper; simpl; apply Qc_is_canon; qc_order. Qed.

Lemma axis_half_sub upper (lo hi q : Qc) :
  leq lo hi ->
  leq (fst (axis_half upper lo hi)) q -> leq q (snd (axis_half upper lo hi)) ->
  leq lo q /\ leq q hi.
Proof. destruct upper; simpl; intros; split; qc_order. Qed.

Lemma axis_half_cover (lo hi q : Qc) :
  leq lo q -> leq q hi ->
  exists upper,
    leq (fst (axis_half upper lo hi)) q /\ leq q (snd (axis_half upper lo hi)).
Proof.
  intros H1 H2.
  destruct (Qclt_le_dec q (lo + (hi - lo) / Q2Qc 2)%Qc) as [Hlt | Hge].
  - exists false. simpl. split; qc_order.
  - exists true. simpl. split; qc_order.
Qed.

Lemma axis_half_face (lo hi q : Qc) :
  leq (fst (axis_half true lo hi)) q -> leq q (snd (axis_half false lo hi)) ->
  snd (axis_half false lo hi) = fst (axis_half true lo hi) /\
  q = snd (axis_half false lo hi).
Proof.
  simpl. intros H1 H2. split; apply Qc_is_canon; qc_order.
Qed.

Lemma axis_half_meet (bi bj : bool) (lo hi q : Qc) :
  bi <> bj ->
  leq (fst (axis_half bi lo hi)) q /\ leq q (snd (axis_half bi lo hi)) ->
  leq (fst (axis_half bj lo hi)) q /\ leq q (snd (axis_half bj lo hi)) ->
  (snd (axis_half bi lo hi) = fst (axis_half bj lo hi) /\
   q = snd (axis_half bi lo hi)) \/
  (snd (axis_half bj lo hi) = fst (axis_half bi lo hi) /\
   q = snd (axis_half bj lo hi)).
Proof.
  intros Hne [Hi1 Hi2] [Hj1 Hj2].
  destruct bi, bj; try congruence.
  - right. apply axis_half_face; assumption.
  - left. apply axis_half_face; assumption.
Qed.

(** C2, as amended.  In exact arithmetic, for every box whose minimum is at
    most its maximum on each axis, the eight boxes that [createChildAABB]
    returns for the indices 0..7 have half the extent of the box on each
    axis, their union is the box, and two of them have in common only
    points of a face they share. *)
Theorem createChildAABB_tiles_exact (w : @World Qc) parent pmin pmax :
  corners w parent = Some (pmin, pmax) ->
  ordered (pmin, pmax) ->
  child_tiling w parent.
Proof.
  intros Hc (Ox & Oy & Oz). simpl in Ox, Oy, Oz.
  exists pmin, pmax, (fun i => child_corners pmin pmax (Int i)).
  split; [exact Hc|]. split.
  { intros i _. apply createChildAABB_corners, Hc. }
  split; [|split].
  - intros i _.
    destruct (child_corners_axes pmin pmax (Int i))
      as ((X1 & X2) & (Y1 & Y2) & (Z1 & Z2)).
    unfold half_extent, on_every_axis, extent. simpl.
    rewrite X1, X2, Y1, Y2, Z1, Z2.
    repeat split; apply axis_half_extent.
  - intros q. split.
    + intros ((Hx1 & Hx2) & (Hy1 & Hy2) & (Hz1 & Hz2)). simpl in *.
      destruct (axis_half_cover _ _ _ Hx1 Hx2) as [bx Hbx].
      destruct (axis_half_cover _ _ _ Hy1 Hy2) as [by_ Hby].
      destruct (axis_half_cover _ _ _ Hz1 Hz2) as [bz Hbz].
      destruct (octant_bits bx by_ bz) as (i & Hi & E4 & E2 & E1).
      exists i. split; [exact Hi|].
      destruct (child_corners_axes pmin pmax (Int i))
        as ((X1 & X2) & (Y1 & Y2) & (Z1 & Z2)).
      unfold inside, on_every_axis.
      rewrite X1, X2, Y1, Y2, Z1, Z2, E4, E2, E1. auto.
    + intros (i & _ & Hin).
      destruct (child_corners_axes pmin pmax (Int i))
        as ((X1 & X2) & (Y1 & Y2) & (Z1 & Z2)).
      unfold inside, on_every_axis in Hin.
      rewrite X1, X2, Y1, Y2, Z1, Z2 in Hin.
      destruct Hin as ((Hx1 & Hx2) & (Hy1 & Hy2) & (Hz1 & Hz2)).
      pose proof (axis_half_sub _ _ _ _ Ox Hx1 Hx2).
      pose proof (axis_half_sub _ _ _ _ Oy Hy1 Hy2).
      pose proof (axis_half_sub _ _ _ _ Oz Hz1 Hz2).
      repeat split; simpl; tauto.
  - intros i j q Hi Hj Hne Hqi Hqj.
    destruct (child_corners_axes pmin pmax (Int i))
      as ((X1 & X2) & (Y1 & Y2) & (Z1 & Z2)).
    destruct (child_corners_axes pmin pmax (Int j))
      as ((X1' & X2') & (Y1' & Y2') & (Z1' & Z2')).
    unfold inside, on_every_axis in Hqi, Hqj.
    rewrite X1, X2, Y1, Y2, Z1, Z2 in Hqi.
    rewrite X1', X2', Y1', Y2', Z1', Z2' in Hqj.
    destruct Hqi as (Hxi & Hyi & Hzi), Hqj as (Hxj & Hyj & Hzj).
    unfold on_shared_face, on_some_axis.
    rewrite X1, X2, Y1, Y2, Z1, Z2, X1', X2', Y1', Y2', Z1', Z2'.
    destruct (decide ((bitand (Int i) 4 >? 0) = (bitand (Int j) 4 >? 0)))
      as [E4 | N4]; [|left; apply axis_half_meet; assumption].
    destruct (decide ((bitand (Int i) 2 >? 0) = (bitand (Int j) 2 >? 0)))
      as [E2 | N2]; [|right; left; apply axis_half_meet; assumption].
    destruct (decide ((bitand (Int i) 1 >? 0) = (bitand (Int j) 1 >? 0)))
      as [E1 | N1]; [|right; right; apply axis_half_meet; assumption].
    exfalso. apply Hne. apply octant_bits_inj; assumption.
Qed.

Lemma createChildAABB_tiles_exact_witness : child_tiling unit_cube_world unit_cube.
Proof.
  apply (createChildAABB_tiles_exact unit_cube_world unit_cube
           (mkVector3 (Q2Qc 0) (Q2Qc 0) (Q2Qc 0))
           (mkVector3 (Q2Qc 1) (Q2Qc 1) (Q2Qc 1))).
  - reflexivity.
  - repeat split.
Defined.

(** C2, as stated, fails in binary64: of the cube from 0.1 to 0.5 the lower
    children end at 0.5 - 0.2 = 0.3 and the upper children start at
    0.1 + 0.2 = 0.30000000000000004; the extent 0.3 - 0.1 of a lower child
    is 0.19999999999999998 and half the extent of the cube is 0.2. *)
Lemma createChildAABB_tiles_float_counterexample :
  corners float_cube_world float_cube
    = Some (mkVector3 0.1%float 0.1%float 0.1%float,
            mkVector3 0.5%float 0.5%float 0.5%float) /\
  ordered (mkVector3 0.1%float 0.1%float 0.1%float,
           mkVector3 0.5%float 0.5%float 0.5%float) /\
  ~ child_tiling float_cube_world float_cube.
Proof.
  split; [reflexivity|]. split; [repeat split|].
  intros (pmin & pmax & children & Hc & Hrun & Hhalf & _).
  vm_compute in Hc. injection Hc as <- <-.
  destruct (Hrun 0 ltac:(lia)) as (child & w' & Hr & Hch).
  vm_compute in Hr. injection Hr as <- <-.
  vm_compute in Hch. injection Hch as Hch.
  specialize (Hhalf 0 ltac:(lia)). rewrite <- Hch in Hhalf.
  destruct Hhalf as (_ & _ & Hz). vm_compute in Hz.
  apply (f_equal (fun x => PrimFloat.eqb x 0.2%float)) in Hz.
  vm_compute in Hz. discriminate.
Qed.

Section Phases.

Context {num : Type} {NumOps : Number num} {NodeOps : NodeClass}.
Implicit Types (vs : list (@Vector3 num)) (ns : list (@Node num)).
Implicit Types (p : @PointCloudOctreeGeometry num) (t : list (@Event num)).
Implicit Types (data : @MetadataDocument num).

Lemma assign_run f vs ns p c t :
  assign f (mkWorld vs ns p c t) = (Normal tt, mkWorld vs ns (f p) c t).
Proof. reflexivity. Qed.

Lemma emit_run e vs ns p c t :
  emit e (mkWorld vs ns p c t) = (Normal tt, mkWorld vs ns p c (t ++ [e])).
Proof. reflexivity. Qed.

Lemma get_run {S} (w : S) : get w = (Normal w, w).
Proof. reflexivity. Qed.

Lemma ret_run {S A} (a : A) (w : S) : ret a w = (Normal a, w).
Proof. reflexivity. Qed.

Lemma read_Node_run n a vs ns p c t :
  ns !! n = Some a ->
  read_Node n (mkWorld vs ns p c t) = (Normal a, mkWorld vs ns p c t).
Proof. unfold read_Node. simpl. intros ->. reflexivity. Qed.

Lemma update_Node_run n f a vs ns p c t :
  ns !! n = Some a ->
  update_Node n f (mkWorld vs ns p c t)
  = (Normal tt, mkWorld vs (<[n := f a]> ns) p c t).
Proof.
  intros Hn. unfold update_Node. run_with read_Node_run. reflexivity.
Qed.

Lemma new_Node_run name box vs ns p c t :
  new_PointCloudOctreeGeometryNode name box (mkWorld vs ns p c t)
  = (Normal (length ns),
     mkWorld vs
       (ns ++ [mkNode name (parseInt (charAt name (js_length name - 1))) box
                      None None None None ∅ None])
       p c (t ++ [EvNewNode (length ns) name])).
Proof. reflexivity. Qed.

Lemma Node_load_run n vs ns p c t :
  Node_load n (mkWorld vs ns p c t)
  = (Normal tt,
     mkWorld vs ns p (numNodesLoading_after_load c) (t ++ [EvNodeLoad n])).
Proof. reflexivity. Qed.

Lemma Box3_clone_run box a b vs ns p c t :
  vs !! Box3_min box = Some a -> vs !! Box3_max box = Some b ->
  Box3_clone box (mkWorld vs ns p c t)
  = (Normal (mkBox3 (length vs) (length vs + 1)%nat),
     mkWorld (vs ++ [a; b]) ns p c t).
Proof.
  intros Ha Hb. unfold Box3_clone.
  run_with Vector3_clone_run. run_with Vector3_clone_run.
  norm_heap. reflexivity.
Qed.

Lemma Box3_getBoundingSphere_run box a b vs ns p c t :
  vs !! Box3_min box = Some a -> vs !! Box3_max box = Some b ->
  Box3_getBoundingSphere box (mkWorld vs ns p c t)
  = (Normal (BoundingSphereOf a b),
     mkWorld vs ns p c (t ++ [EvGetBoundingSphere box])).
Proof.
  intros Ha Hb. unfold Box3_getBoundingSphere.
  run_with read_Vector3_run. run_with read_Vector3_run.
  run_with emit_run. reflexivity.
Qed.

(** Lines 36-50. *)
Lemma read_header_run url data v vs ns p c t :
  Version.parse (doc_version data) = Some v ->
  read_header url data (mkWorld vs ns p c t)
  = (Normal v,
     mkWorld vs ns
       (set_pco_pointAttributes (Some (PARaw (doc_pointAttributes data)))
          (set_pco_hierarchyStepSize (Some (doc_hierarchyStepSize data))
             (set_pco_spacing (Some (doc_spacing data))
                (set_pco_octreeDir (Some (octreeDir_of url data)) p))))
       c t).
Proof.
  intros Hv. unfold read_header, new_Version, octreeDir_of. rewrite Hv.
  erewrite bind_Normal by apply ret_run.
  destruct (starts_with "http" (doc_octreeDir data));
    repeat run_with assign_run; reflexivity.
Qed.

(** Lines 52-76. *)
Lemma normalize_run data vs ns p c t :
  let n := length vs in
  let off := declared_min (doc_boundingBox data) in
  normalize data (mkWorld vs ns p c t)
  = (Normal (mkBox3 n (n + 1)%nat),
     mkWorld (vs ++ normalized_vectors data) ns
       (set_pco_offset (Some (n + offset_slot data)%nat)
          (set_pco_tightBoundingSphere
             (Some (BoundingSphereOf (vsub (fst (declared_tight data)) off)
                                     (vsub (snd (declared_tight data)) off)))
             (set_pco_boundingSphere
                (Some (BoundingSphereOf
                         (vsub (declared_min (doc_boundingBox data)) off)
                         (vsub (declared_max (doc_boundingBox data)) off)))
                (set_pco_tightBoundingBox (Some (mkBox3 (n + 2)%nat (n + 3)%nat))
                   (set_pco_boundingBox (Some (mkBox3 n (n + 1)%nat))
                      (set_pco_projection (doc_projection data) p))))))
       c (t ++ [EvGetBoundingSphere (mkBox3 n (n + 1)%nat);
                EvGetBoundingSphere (mkBox3 (n + 2)%nat (n + 3)%nat)])).
Proof.
  intros n off. subst n off.
  unfold normalize, normalized_vectors, declared_tight, offset_slot, declared,
    declared_min, declared_max, new_Box3.
  run_with new_Vector3_run. run_with new_Vector3_run.
  erewrite bind_Normal by apply ret_run.
  run_with Box3_clone_run. norm_heap.
  destruct (doc_tightBoundingBox data) as [tb|].
  - run_with new_Vector3_run. run_with Vector3_copy_run.
    run_with new_Vector3_run. run_with Vector3_copy_run.
    run_with Vector3_clone_run.
    run_with Vector3_sub_run. run_with Vector3_sub_run.
    run_with Vector3_sub_run. run_with Vector3_sub_run.
    repeat run_with assign_run.
    run_with Box3_getBoundingSphere_run. run_with assign_run.
    run_with Box3_getBoundingSphere_run. run_with assign_run.
    run_with assign_run. norm_heap. reflexivity.
  - erewrite bind_Normal by apply ret_run.
    run_with Vector3_clone_run.
    run_with Vector3_sub_run. run_with Vector3_sub_run.
    run_with Vector3_sub_run. run_with Vector3_sub_run.
    repeat run_with assign_run.
    run_with Box3_getBoundingSphere_run. run_with assign_run.
    run_with Box3_getBoundingSphere_run. run_with assign_run.
    run_with assign_run. norm_heap. reflexivity.
Qed.

(** Lines 79-87. *)
Lemma select_loader_run data box vs ns p c t :
  pco_pointAttributes p = Some (PARaw (doc_pointAttributes data)) ->
  select_loader data box (mkWorld vs ns p c t)
  = (Normal tt,
     mkWorld vs ns
       (set_pco_pointAttributes (Some (pointAttributes_of data))
          (set_pco_loader (Some (loader_of data box)) p))
       c (t ++ [EvNewLoader (loader_of data box)]
            ++ (if is_LAS_or_LAZ (doc_pointAttributes data) then []
                else [EvNewPointAttributes (doc_pointAttributes data)]))).
Proof.
  intros Hp. unfold select_loader, loader_of, pointAttributes_of.
  destruct (is_LAS_or_LAZ (doc_pointAttributes data)).
  - run_with emit_run. rewrite assign_run.
    destruct p. simpl in *. subst. reflexivity.
  - run_with emit_run. run_with assign_run. run_with get_run.
    simpl. rewrite Hp.
    run_with emit_run. rewrite assign_run. norm_heap. reflexivity.
Qed.

(** Lines 89-100. *)
Lemma build_root_run data v numPoints (n : nat) vs ns p c t :
  root_numPoints data v = Some numPoints ->
  pco_spacing p = Some (doc_spacing data) ->
  build_root data v (mkBox3 n (n + 1)%nat) (mkWorld vs ns p c t)
  = (Normal (<["r" := length ns]> (∅ : gmap string loc)),
     mkWorld vs (ns ++ [root_node data numPoints n])
       (set_pco_root (Some (length ns)) p) (numNodesLoading_after_load c)
       (t ++ [EvNewNode (length ns) "r"; EvNodeLoad (length ns)])).
Proof.
  intros Hnum Hsp. unfold build_root, root_node.
  run_with new_Node_run.
  run_with update_Node_run. run_with update_Node_run.
  run_with get_run. run_with update_Node_run.
  unfold root_numPoints in Hnum.
  assert ((if Version.upTo v "1.5" then first_numPoints data
           else ret num_zero)
            (mkWorld vs
               (ns ++ [set_spacing (pco_spacing p)
                         (set_hasChildren true
                            (set_level 0
                               (mkNode "r" (parseInt (charAt "r" (js_length "r" - 1)))
                                  (mkBox3 n (n + 1)%nat) None None None None ∅ None)))])
               p c (t ++ [EvNewNode (length ns) "r"]))
          = (Normal numPoints,
             mkWorld vs
               (ns ++ [set_spacing (pco_spacing p)
                         (set_hasChildren true
                            (set_level 0
                               (mkNode "r" (parseInt (charAt "r" (js_length "r" - 1)))
                                  (mkBox3 n (n + 1)%nat) None None None None ∅ None)))])
               p c (t ++ [EvNewNode (length ns) "r"]))) as Hstep.
  { unfold first_numPoints.
    destruct (Version.upTo v "1.5").
    - destruct (doc_hierarchy data) as [|[name0 n0] rest]; [discriminate|].
      injection Hnum as ->. reflexivity.
    - injection Hnum as <-. reflexivity. }
  norm_heap. simpl in Hstep.
  erewrite bind_Normal by exact Hstep.
  run_with update_Node_run. run_with assign_run. run_with Node_load_run.
  norm_heap. rewrite Hsp. reflexivity.
Qed.

(** Lines 35-100: for a document whose version parses and which gives the
    root its point count, everything before the loop completes, and leaves
    the vectors of the two boxes, the root node, the descriptor and the
    calls as follows. *)
Lemma build_descriptor_and_root_run url data v numPoints vs ns p c t :
  Version.parse (doc_version data) = Some v ->
  root_numPoints data v = Some numPoints ->
  build_descriptor_and_root url data (mkWorld vs ns p c t)
  = (Normal (v, <["r" := length ns]> (∅ : gmap string loc)),
     mkWorld (vs ++ normalized_vectors data)
       (ns ++ [root_node data numPoints (length vs)])
       (descriptor_of p url data (length vs) (length ns))
       (numNodesLoading_after_load c)
       (t ++ events_before_hierarchy data (length vs) (length ns))).
Proof.
  intros Hv Hnum. unfold build_descriptor_and_root.
  run_with read_header_run.
  erewrite bind_Normal by apply normalize_run.
  erewrite bind_Normal by (apply select_loader_run; reflexivity).
  erewrite bind_Normal by (eapply build_root_run; [exact Hnum | reflexivity]).
  unfold events_before_hierarchy, descriptor_of. norm_heap.
  destruct p. reflexivity.
Qed.

End Phases.

Section Loop.

Context {num : Type} {NumOps : Number num} {NodeOps : NodeClass}.
Implicit Types (vs : list (@Vector3 num)) (ns : list (@Node num)).
Implicit Types (p : @PointCloudOctreeGeometry num) (t : list (@Event num)).
Implicit Types (data : @MetadataDocument num) (w : @World num).
Implicit Types (idx : gmap string loc).

Lemma same_but_children_refl (a : @Node num) : same_but_children a a.
Proof. repeat split. Qed.

Lemma same_but_children_trans (a b c : @Node num) :
  same_but_children a b -> same_but_children b c -> same_but_children a c.
Proof.
  unfold same_but_children. intros H1 H2.
  destruct H1 as (?&?&?&?&?&?&?&?), H2 as (?&?&?&?&?&?&?&?).
  repeat split; congruence.
Qed.

Lemma nodes_kept_refl w : nodes_kept w w.
Proof. intros n a Ha. exists a. split; [exact Ha | apply same_but_children_refl]. Qed.

Lemma nodes_kept_trans w1 w2 w3 :
  nodes_kept w1 w2 -> nodes_kept w2 w3 -> nodes_kept w1 w3.
Proof.
  intros H12 H23 n a Ha.
  destruct (H12 n a Ha) as (b & Hb & Hab).
  destruct (H23 n b Hb) as (c & Hc & Hbc).
  exists c. split; [exact Hc | eapply same_but_children_trans; eassumption].
Qed.

Lemma vectors_kept_refl w : vectors_kept w w.
Proof. intros v a Ha. exact Ha. Qed.

Lemma vectors_kept_trans w1 w2 w3 :
  vectors_kept w1 w2 -> vectors_kept w2 w3 -> vectors_kept w1 w3.
Proof. intros H12 H23 v a Ha. apply H23, H12, Ha. Qed.

Lemma corners_kept w w' box a b :
  vectors_kept w w' -> corners w box = Some (a, b) -> corners w' box = Some (a, b).
Proof.
  intros Hk Hc. apply corners_Some in Hc as [Ha Hb].
  apply corners_Some. split; apply Hk; assumption.
Qed.

(** [parent.addChild(child)] on a child that was just allocated. *)
Lemma Node_addChild_run parent before child vs ns p c t :
  ns !! parent = Some before ->
  Node_addChild parent (length ns) (mkWorld vs (ns ++ [child]) p c t)
  = (Normal tt,
     mkWorld vs
       (<[parent := set_child (node_index child) (length ns) before]> ns
        ++ [set_parent parent child])
       p c t).
Proof.
  intros Hp. unfold Node_addChild.
  run_with read_Node_run.
  run_with update_Node_run.
  rewrite (insert_kept ns _ _ _ _ Hp).
  erewrite update_Node_run by (rewrite lookup_after_insert; reflexivity).
  rewrite insert_after_insert. reflexivity.
Qed.

(** Lines 107-120: one turn of the loop, when the parent is indexed. *)
Lemma build_node_run idx name numPoints parent before pmin pmax spacing
    vs ns p c t :
  idx !! parent_name name = Some parent ->
  ns !! parent = Some before ->
  vs !! Box3_min (node_boundingBox before) = Some pmin ->
  vs !! Box3_max (node_boundingBox before) = Some pmax ->
  pco_spacing p = Some spacing ->
  build_node idx (name, numPoints) (mkWorld vs ns p c t)
  = (Normal (<[name := length ns]> idx),
     mkWorld
       (vs ++ [fst (child_corners pmin pmax (child_index name));
               snd (child_corners pmin pmax (child_index name));
               vsub pmax pmin])
       (<[parent := set_child (child_index name) (length ns) before]> ns
        ++ [mkNode name (child_index name)
              (mkBox3 (length vs) (length vs + 1)%nat)
              (Some (level_of name)) (Some numPoints)
              (Some (num_div spacing (num_pow2 (level_of name))))
              None ∅ (Some parent)])
       p c (t ++ [EvNewNode (length ns) name])).
Proof.
  intros Hidx Hp Hmin Hmax Hsp.
  unfold build_node, parent_name, child_index, level_of, vsub in *.
  cbv zeta. cbn [fst snd]. rewrite Hidx.
  run_with read_Node_run.
  erewrite bind_Normal by (apply createChildAABB_run; eassumption).
  run_with new_Node_run.
  run_with update_Node_run. run_with update_Node_run.
  run_with get_run. simpl. rewrite Hsp.
  run_with update_Node_run. norm_heap.
  erewrite bind_Normal by (apply Node_addChild_run; exact Hp).
  reflexivity.
Qed.

Lemma nodes_after_turn ns parent (before after child a : @Node num) (n : nat) :
  ns !! parent = Some before -> ns !! n = Some a ->
  (<[parent := after]> ns ++ [child]) !! n
  = Some (if decide (parent = n) then after else a).
Proof.
  intros Hp Hn. apply lookup_kept.
  rewrite list_lookup_insert.
  destruct (decide (parent = n)) as [-> | Hne].
  - rewrite decide_True; [reflexivity|].
    split; [reflexivity | eapply lookup_lt_Some, Hn].
  - rewrite decide_False by tauto. exact Hn.
Qed.

Lemma same_but_children_set_child i child (a : @Node num) :
  same_but_children a (set_child i child a).
Proof. repeat split. Qed.

(** One turn of the loop completes when the parent of the entry is known,
    builds the node of the entry and keeps what the loop relies on. *)
Lemma build_node_ok rootSpacing known idx entry w :
  loop_invariant rootSpacing known idx w ->
  parent_name (fst entry) ∈ known ->
  exists idx' w',
    build_node idx entry w = (Normal idx', w') /\
    node_built rootSpacing entry idx w idx' w' (length (nodes w)) /\
    loop_invariant rootSpacing (fst entry :: known) idx' w' /\
    nodes_kept w w' /\ vectors_kept w w' /\
    pco w' = pco w /\ numNodesLoading w' = numNodesLoading w /\
    trace w' = trace w ++ [EvNewNode (length (nodes w)) (fst entry)] /\
    length (nodes w') = S (length (nodes w)) /\
    idx' = <[fst entry := length (nodes w)]> idx.
Proof.
  intros (Hknown & Hidx & Hsp) Hparent.
  destruct entry as [name numPoints], w as [vs ns p c t]. simpl in *.
  destruct (Hknown _ Hparent) as [parent Hpar].
  destruct (Hidx _ _ Hpar) as (before & pmin & pmax & Hbefore & Hc).
  simpl in Hbefore. apply corners_Some in Hc as [Hmin Hmax]. simpl in Hmin, Hmax.
  eexists _, _. split.
  { apply (build_node_run idx name numPoints parent before pmin pmax rootSpacing);
      assumption. }
  assert (forall n a, ns !! n = Some a ->
            (<[parent := set_child (child_index name) (length ns) before]> ns
             ++ [mkNode name (child_index name)
                   (mkBox3 (length vs) (length vs + 1)%nat)
                   (Some (level_of name)) (Some numPoints)
                   (Some (num_div rootSpacing (num_pow2 (level_of name))))
                   None ∅ (Some parent)]) !! n
            = Some (if decide (parent = n)
                    then set_child (child_index name) (length ns) before
                    else a)) as Hold.
  { intros n a Hn. eapply nodes_after_turn; eassumption. }
  assert (corners
            (mkWorld
               (vs ++ [fst (child_corners pmin pmax (child_index name));
                       snd (child_corners pmin pmax (child_index name));
                       vsub pmax pmin]) ns p c t)
            (mkBox3 (length vs) (length vs + 1)%nat)
          = Some (child_corners pmin pmax (child_index name))) as Hnew.
  { rewrite (surjective_pairing (child_corners pmin pmax (child_index name))).
    apply corners_Some. simpl. norm_heap. split; reflexivity. }
  split; [|split; [|split; [|split; [|split; [|split; [|split; [|split]]]]]]];
    simpl.
  - exists parent, before, pmin, pmax.
    eexists _, _. simpl.
    split; [exact Hpar|]. split; [exact Hbefore|].
    split; [apply corners_Some; auto|].
    split; [apply lookup_fresh0|].
    split; [rewrite lookup_after_insert; reflexivity|].
    do 6 (split; [reflexivity|]).
    split; [exact Hnew|].
    split; [rewrite (Hold _ _ Hbefore), decide_True by reflexivity;
            reflexivity|].
    split; [simpl; apply lookup_insert_eq | apply lookup_insert_eq].
  - split; [|split]; simpl.
    + intros name' Hin. destruct (decide (name = name')) as [-> | Hne].
      * rewrite lookup_insert_eq. eauto.
      * rewrite lookup_insert_ne by exact Hne.
        apply Hknown. apply elem_of_cons in Hin as [-> | Hin]; [congruence | exact Hin].
    + intros name' n Hn. destruct (decide (name = name')) as [-> | Hne].
      * rewrite lookup_insert_eq in Hn. injection Hn as <-.
        eexists _, _, _. split; [rewrite lookup_after_insert; reflexivity|].
        simpl. rewrite (surjective_pairing (child_corners pmin pmax (child_index name'))) in Hnew.
        apply corners_Some in Hnew. apply corners_Some. exact Hnew.
      * rewrite lookup_insert_ne in Hn by exact Hne.
        destruct (Hidx _ _ Hn) as (node & a & b & Hnode & Hcn). simpl in Hnode.
        eexists _, a, b. split; [apply (Hold _ _ Hnode)|].
        apply corners_Some in Hcn as [Ha Hb]. simpl in Ha, Hb.
        apply corners_Some. simpl.
        destruct (decide (parent = n)) as [-> | _].
        -- pose proof (eq_trans (eq_sym Hnode) Hbefore) as E.
           injection E as ->.
           simpl. split; apply lookup_kept; assumption.
        -- split; apply lookup_kept; assumption.
    + exact Hsp.
  - intros n a Hn. simpl in Hn. eexists. split; [apply (Hold _ _ Hn)|].
    destruct (decide (parent = n)) as [-> | _].
    + pose proof (eq_trans (eq_sym Hn) Hbefore) as E.
      injection E as ->.
      apply same_but_children_set_child.
    + apply same_but_children_refl.
  - intros v a Hv. simpl in *. apply lookup_kept, Hv.
  - reflexivity.
  - reflexivity.
  - reflexivity.
  - rewrite length_app, length_insert. simpl. lia.
  - reflexivity.
Qed.

(** The calls of the loop: one node constructor for each entry, in order;
    the nodes get consecutive locations from [first] on. *)
Lemma build_nodes_ok rootSpacing entries :
  forall known idx w,
    loop_invariant rootSpacing known idx w ->
    parents_precede known entries ->
    exists idx' w',
      build_nodes entries idx w = (Normal idx', w') /\
      loop_invariant rootSpacing (rev (map fst entries) ++ known) idx' w' /\
      nodes_kept w w' /\ vectors_kept w w' /\
      pco w' = pco w /\ numNodesLoading w' = numNodesLoading w /\
      trace w'
      = trace w ++ imap (fun k entry =>
                           EvNewNode (length (nodes w) + k)%nat (fst entry))
                        entries /\
      length (nodes w') = (length (nodes w) + length entries)%nat /\
      (forall name, name ∉ map fst entries -> idx' !! name = idx !! name).
Proof.
  induction entries as [|entry rest IH]; intros known idx w Hinv Hpp.
  - exists idx, w. simpl. rewrite app_nil_r, Nat.add_0_r.
    repeat split; try apply Hinv.
    + apply nodes_kept_refl.
    + apply vectors_kept_refl.
  - destruct Hpp as [Hparent Hrest].
    destruct (build_node_ok _ _ _ _ _ Hinv Hparent)
      as (idx1 & w1 & Hrun1 & _ & Hinv1 & Hn1 & Hv1 & Hp1 & Hc1 & Ht1 & Hl1
          & Hi1).
    destruct (IH _ _ _ Hinv1 Hrest)
      as (idx2 & w2 & Hrun2 & Hinv2 & Hn2 & Hv2 & Hp2 & Hc2 & Ht2 & Hl2 & Hi2).
    exists idx2, w2. simpl.
    rewrite (bind_Normal _ _ _ _ _ Hrun1).
    split; [exact Hrun2|].
    split; [rewrite <- app_assoc; exact Hinv2|].
    split; [eapply nodes_kept_trans; eassumption|].
    split; [eapply vectors_kept_trans; eassumption|].
    split; [congruence|]. split; [congruence|].
    split; [|split].
    + rewrite Ht2, Ht1, <- app_assoc. simpl. rewrite Nat.add_0_r.
      do 2 f_equal. apply imap_ext. intros k e _. simpl.
      rewrite Hl1. f_equal. lia.
    + rewrite Hl2, Hl1. lia.
    + intros name Hname. simpl in Hname.
      apply not_elem_of_cons in Hname as [Hne Hname].
      rewrite (Hi2 _ Hname), Hi1. apply lookup_insert_ne. congruence.
Qed.

Lemma build_nodes_app (l1 l2 : list (string * num)) :
  forall idx w,
    build_nodes (l1 ++ l2) idx w
    = bind (build_nodes l1 idx) (fun idx' => build_nodes l2 idx') w.
Proof.
  induction l1 as [|entry l1 IH]; intros idx w.
  - reflexivity.
  - simpl. rewrite bind_bind. apply bind_ext. intros idx1 w1. apply IH.
Qed.

Lemma parents_precede_app known (l1 l2 : list (string * num)) :
  parents_precede known (l1 ++ l2) <->
  parents_precede known l1 /\
  parents_precede (rev (map fst l1) ++ known) l2.
Proof.
  revert known. induction l1 as [|entry l1 IH]; intros known; simpl.
  - tauto.
  - rewrite IH, <- app_assoc. simpl. tauto.
Qed.

End Loop.

Section Handler.

Context {num : Type} {NumOps : Number num} {NodeOps : NodeClass}.
Implicit Types (vs : list (@Vector3 num)) (ns : list (@Node num)).
Implicit Types (p : @PointCloudOctreeGeometry num) (t : list (@Event num)).
Implicit Types (data : @MetadataDocument num) (w : @World num).
Implicit Types (idx : gmap string loc).

Lemma root_numPoints_Some data v :
  well_formed data v -> exists numPoints, root_numPoints data v = Some numPoints.
Proof.
  intros (_ & Hroot & _). unfold root_numPoints.
  destruct (Version.upTo v "1.5"); [|eauto].
  destruct (doc_hierarchy data) as [|[name n] rest]; [|eauto].
  exfalso. apply Hroot; reflexivity.
Qed.

Lemma build_hierarchy_entries data v idx w :
  build_hierarchy data v idx w = build_nodes (hierarchy_entries data v) idx w.
Proof.
  unfold build_hierarchy, hierarchy_entries.
  destruct (Version.upTo v "1.4"); reflexivity.
Qed.

Lemma parents_precede_entries data v :
  well_formed data v -> parents_precede ["r"] (hierarchy_entries data v).
Proof.
  intros (_ & _ & Hpp). unfold hierarchy_entries.
  destruct (Version.upTo v "1.4"); [apply Hpp; reflexivity | exact I].
Qed.

(** The loop starts from a world that it can rely on. *)
Lemma loop_invariant_root url data numPoints vs ns p c t :
  loop_invariant (doc_spacing data) ["r"]
    (<["r" := length ns]> (∅ : gmap string loc))
    (world_with_root url data numPoints vs ns p c t).
Proof.
  split; [|split].
  - intros name Hin. apply list_elem_of_singleton in Hin as ->.
    rewrite lookup_insert_eq. eauto.
  - intros name n Hn.
    destruct (decide ("r" = name)) as [<- | Hne].
    + rewrite lookup_insert_eq in Hn. injection Hn as <-.
      eexists _, _, _. unfold world_with_root. simpl.
      split; [rewrite lookup_grown0; reflexivity|].
      apply corners_Some. simpl. unfold normalized_vectors.
      norm_heap. split; reflexivity.
    + rewrite lookup_insert_ne, lookup_empty in Hn by exact Hne. discriminate.
  - reflexivity.
Qed.

(** On a well-formed document the handler completes: it builds the
    descriptor and the root, visits the entries of the hierarchy, stores
    the index and calls back. *)
Lemma xhr_onload_ok url data v vs ns p c t :
  well_formed data v ->
  exists numPoints idx_end w_end,
    let w_root := world_with_root url data numPoints vs ns p c t in
    let idx_root := <["r" := length ns]> (∅ : gmap string loc) in
    root_numPoints data v = Some numPoints /\
    build_descriptor_and_root url data (mkWorld vs ns p c t)
      = (Normal (v, idx_root), w_root) /\
    build_nodes (hierarchy_entries data v) idx_root w_root
      = (Normal idx_end, w_end) /\
    xhr_onload url data (mkWorld vs ns p c t)
      = (Normal tt, finished idx_end w_end) /\
    loop_invariant (doc_spacing data)
      (rev (map fst (hierarchy_entries data v)) ++ ["r"]) idx_end w_end /\
    nodes_kept w_root w_end /\ vectors_kept w_root w_end /\
    pco w_end = pco w_root /\
    numNodesLoading w_end = numNodesLoading_after_load c /\
    trace w_end
    = trace w_root
      ++ imap (fun k entry => EvNewNode (length ns + 1 + k)%nat (fst entry))
              (hierarchy_entries data v) /\
    length (nodes w_end)
    = (length ns + 1 + length (hierarchy_entries data v))%nat.
Proof.
  intros Hwf.
  destruct (root_numPoints_Some _ _ Hwf) as [numPoints Hnum].
  pose proof Hwf as (Hv & _ & _).
  pose proof (build_descriptor_and_root_run url data v numPoints vs ns p c t
                Hv Hnum) as Hprefix.
  destruct (build_nodes_ok (doc_spacing data) (hierarchy_entries data v)
              ["r"] _ _
              (loop_invariant_root url data numPoints vs ns p c t)
              (parents_precede_entries _ _ Hwf))
    as (idx_end & w_end & Hloop & Hinv & Hn & Hvk & Hp & Hc & Ht & Hl & _).
  exists numPoints, idx_end, w_end. cbv zeta.
  split; [exact Hnum|]. split; [exact Hprefix|]. split; [exact Hloop|].
  split.
  { unfold xhr_onload.
    rewrite (bind_Normal _ _ _ _ _ Hprefix). cbn [fst snd].
    rewrite bind_Normal with (a := idx_end) (w' := w_end)
      by (rewrite build_hierarchy_entries; exact Hloop).
    destruct w_end as [vs' ns' p' c' t'].
    run_with assign_run. reflexivity. }
  split; [exact Hinv|]. split; [exact Hn|]. split; [exact Hvk|].
  split; [exact Hp|]. split; [exact Hc|].
  split.
  - rewrite Ht. f_equal. apply imap_ext. intros k e _. simpl.
    rewrite length_app. reflexivity.
  - rewrite Hl. unfold world_with_root. simpl. rewrite length_app. reflexivity.
Qed.

End Handler.

Section Hierarchy.

Context {num : Type} {NumOps : Number num} {NodeOps : NodeClass}.
Implicit Types (data : @MetadataDocument num) (w : @World num).
Implicit Types (idx : gmap string loc).

Lemma well_formed_legacy data v first rest :
  Version.parse (doc_version data) = Some v ->
  doc_hierarchy data = first :: rest ->
  parents_precede ["r"] rest ->
  well_formed data v.
Proof.
  intros Hv Hh Hpp. split; [exact Hv|]. rewrite Hh. split.
  - intros _. discriminate.
  - intros _. exact Hpp.
Qed.

End Hierarchy.

Section Descriptor.

Context {num : Type} {NumOps : Number num} {NodeOps : NodeClass}.
Implicit Types (vs : list (@Vector3 num)) (ns : list (@Node num)).
Implicit Types (p : @PointCloudOctreeGeometry num) (t : list (@Event num)).
Implicit Types (data : @MetadataDocument num) (w : @World num).
Implicit Types (idx : gmap string loc).

(** [load] up to the answer of the transport. *)
Lemma load_Loaded url data vs ns p c t :
  load url (Loaded data) (mkWorld vs ns p c t)
  = xhr_onload url data
      (mkWorld vs ns (set_pco_url (Some url) new_pco) c
               (t ++ [EvXhrSend "GET" url])).
Proof. reflexivity. Qed.

(** On a well-formed document [load] completes.  The descriptor that the
    callback receives is the one built before the loop, with the index of
    nodes; the vectors and nodes made before the loop are kept by it, and
    the calls come in program order. *)
Lemma load_ok url data v vs ns p c t :
  well_formed data v ->
  exists numPoints idx_end w_end,
    let p0 := set_pco_url (Some url) new_pco in
    let w_root :=
      world_with_root url data numPoints vs ns p0 c
        (t ++ [EvXhrSend "GET" url]) in
    load url (Loaded data) (mkWorld vs ns p c t)
      = (Normal tt, finished idx_end w_end) /\
    root_numPoints data v = Some numPoints /\
    pco w_end = descriptor_of p0 url data (length vs) (length ns) /\
    vectors_kept w_root w_end /\ nodes_kept w_root w_end /\
    numNodesLoading w_end = numNodesLoading_after_load c /\
    trace w_end
    = t ++ [EvXhrSend "GET" url]
        ++ events_before_hierarchy data (length vs) (length ns)
        ++ imap (fun k entry => EvNewNode (length ns + 1 + k)%nat (fst entry))
                (hierarchy_entries data v).
Proof.
  intros Hwf.
  destruct (xhr_onload_ok url data v vs ns (set_pco_url (Some url) new_pco) c
              (t ++ [EvXhrSend "GET" url]) Hwf)
    as (numPoints & idx_end & w_end & Hnum & _ & _ & Hload & _ & Hnk & Hvk
        & Hp & Hc & Ht & _).
  exists numPoints, idx_end, w_end. cbv zeta in *.
  split; [rewrite load_Loaded; exact Hload|].
  split; [exact Hnum|]. split; [exact Hp|]. split; [exact Hvk|].
  split; [exact Hnk|]. split; [exact Hc|].
  rewrite Ht. unfold world_with_root. cbn [trace].
  rewrite <- !app_assoc. reflexivity.
Qed.

Lemma corners_normalized url data numPoints vs ns p c t w_end :
  vectors_kept (world_with_root url data numPoints vs ns p c t) w_end ->
  let off := declared_min (doc_boundingBox data) in
  vectors w_end !! (length vs + offset_slot data)%nat = Some off /\
  corners w_end (mkBox3 (length vs) (length vs + 1)%nat)
    = Some (vsub (declared_min (doc_boundingBox data)) off,
            vsub (declared_max (doc_boundingBox data)) off) /\
  corners w_end (mkBox3 (length vs + 2)%nat (length vs + 3)%nat)
    = Some (vsub (fst (declared_tight data)) off,
            vsub (snd (declared_tight data)) off).
Proof.
  intros Hvk off.
  split; [|split].
  - apply Hvk. unfold world_with_root, normalized_vectors, offset_slot. simpl.
    destruct (doc_tightBoundingBox data); norm_heap; reflexivity.
  - eapply corners_kept; [exact Hvk|].
    apply corners_Some. unfold world_with_root, normalized_vectors. simpl.
    norm_heap. split; reflexivity.
  - eapply corners_kept; [exact Hvk|].
    apply corners_Some. unfold world_with_root, normalized_vectors. simpl.
    norm_heap. split; reflexivity.
Qed.

(** C3, as amended.  On a well-formed document the loader sets the offset
    to the minimum corner of the declared box, and each box of the
    descriptor is the declared box with the offset subtracted from every
    coordinate.  Where subtracting and adding back is exact
    ([(a - b) + b = a]), adding the offset to the boxes of the descriptor
    gives back the declared boxes. *)
Theorem load_normalizes url data v w :
  well_formed data v ->
  exists w',
    load url (Loaded data) w = (Normal tt, w') /\
    normalized_by_offset data w' /\
    ((forall a b : num, num_add (num_sub a b) b = a) ->
     normalization_round_trip data w').
Proof.
  intros Hwf. destruct w as [vs ns p c t].
  destruct (load_ok url data v vs ns p c t Hwf)
    as (numPoints & idx_end & w_end & Hload & _ & Hp & Hvk & _).
  cbv zeta in *.
  destruct (corners_normalized _ _ _ _ _ _ _ _ _ Hvk) as (Hoff & Hbox & Htight).
  exists (finished idx_end w_end). split; [exact Hload|].
  split.
  - exists (mkBox3 (length vs) (length vs + 1)%nat),
      (mkBox3 (length vs + 2)%nat (length vs + 3)%nat),
      (length vs + offset_slot data)%nat.
    unfold finished. simpl. rewrite Hp. simpl.
    repeat split; assumption.
  - intros Hexact.
    exists (mkBox3 (length vs) (length vs + 1)%nat),
      (mkBox3 (length vs + 2)%nat (length vs + 3)%nat),
      (length vs + offset_slot data)%nat.
    eexists _, _, _, _, _.
    unfold finished. simpl. rewrite Hp. simpl.
    do 3 (split; [reflexivity|]). split; [exact Hoff|].
    split; [reflexivity|]. split; [exact Hbox|]. split; [exact Htight|].
    unfold vadd, vsub. simpl. rewrite !Hexact.
    destruct (declared_tight data) as [[? ? ?] [? ? ?]].
    repeat split.
Qed.

Lemma is_LAS_or_LAZ_true (pa : DocPointAttributes) :
  is_LAS_or_LAZ pa = true <-> pa = PATag "LAS" \/ pa = PATag "LAZ".
Proof.
  destruct pa as [tag | attrs]; simpl.
  - rewrite orb_true_iff, !String.eqb_eq.
    split; intros [H | H]; (left + right); congruence.
  - split; [discriminate | intros [H | H]; discriminate].
Qed.

(** C4. On a well-formed document: if [pointAttributes] is the tag "LAS"
    or the tag "LAZ", the loader is the LAS/LAZ decoder constructed with
    the version of the document and the descriptor keeps the tag as its
    [pointAttributes]; for every other value the loader is the binary
    decoder constructed with the version, the bounding box of the
    descriptor (normalized) and the scale of the document, and the
    descriptor's [pointAttributes] is the object [new PointAttributes] made
    from the value. *)
Theorem load_selects_decoder url data v w :
  well_formed data v ->
  exists w' box,
    load url (Loaded data) w = (Normal tt, w') /\
    pco_boundingBox (pco w') = Some box /\
    corners w' box
      = Some (vsub (declared_min (doc_boundingBox data))
                   (declared_min (doc_boundingBox data)),
              vsub (declared_max (doc_boundingBox data))
                   (declared_min (doc_boundingBox data))) /\
    (doc_pointAttributes data = PATag "LAS" \/
     doc_pointAttributes data = PATag "LAZ" ->
     pco_loader (pco w') = Some (LASLAZLoader (doc_version data)) /\
     pco_pointAttributes (pco w') = Some (PARaw (doc_pointAttributes data))) /\
    (doc_pointAttributes data <> PATag "LAS" ->
     doc_pointAttributes data <> PATag "LAZ" ->
     pco_loader (pco w')
       = Some (BinaryLoader (doc_version data) box (doc_scale data)) /\
     pco_pointAttributes (pco w')
       = Some (PAObject (doc_pointAttributes data))).
Proof.
  intros Hwf. destruct w as [vs ns p c t].
  destruct (load_ok url data v vs ns p c t Hwf)
    as (numPoints & idx_end & w_end & Hload & _ & Hp & Hvk & _).
  cbv zeta in *.
  destruct (corners_normalized _ _ _ _ _ _ _ _ _ Hvk) as (_ & Hbox & _).
  exists (finished idx_end w_end), (mkBox3 (length vs) (length vs + 1)%nat).
  split; [exact Hload|].
  unfold finished. simpl. rewrite Hp. simpl.
  split; [reflexivity|]. split; [exact Hbox|].
  unfold loader_of, pointAttributes_of.
  split.
  - intros Htag. apply is_LAS_or_LAZ_true in Htag. rewrite Htag. auto.
  - intros Hlas Hlaz.
    destruct (is_LAS_or_LAZ (doc_pointAttributes data)) eqn:E; [|auto].
    apply is_LAS_or_LAZ_true in E. tauto.
Qed.

(** C7. On a well-formed document: if [octreeDir] starts with "http", the
    descriptor's [octreeDir] is that string; otherwise it is the url of the
    document, "/../" and that string, joined as they are. *)
Theorem load_octreeDir url data v w :
  well_formed data v ->
  exists w',
    load url (Loaded data) w = (Normal tt, w') /\
    (starts_with "http" (doc_octreeDir data) = true ->
     pco_octreeDir (pco w') = Some (doc_octreeDir data)) /\
    (starts_with "http" (doc_octreeDir data) = false ->
     pco_octreeDir (pco w')
     = Some (String.append (String.append url "/../") (doc_octreeDir data))).
Proof.
  intros Hwf. destruct w as [vs ns p c t].
  destruct (load_ok url data v vs ns p c t Hwf)
    as (numPoints & idx_end & w_end & Hload & _ & Hp & _).
  cbv zeta in *.
  exists (finished idx_end w_end). split; [exact Hload|].
  unfold finished. simpl. rewrite Hp. simpl. unfold octreeDir_of.
  split; intros ->; reflexivity.
Qed.

(** C9. On a well-formed document the root is built with level 0, with
    [hasChildren] true and with the spacing of the document; its point
    count is that of the first entry of the hierarchy when the version is
    at most 1.5, and 0 otherwise.  (The loop over the hierarchy runs when
    the version is at most 1.4: see [hierarchy_entries].) *)
Theorem load_root url data v w :
  well_formed data v ->
  exists w' root node,
    load url (Loaded data) w = (Normal tt, w') /\
    pco_root (pco w') = Some root /\
    nodes w' !! root = Some node /\
    node_name node = "r" /\
    node_level node = Some 0 /\
    node_hasChildren node = Some true /\
    node_spacing node = Some (doc_spacing data) /\
    (Version.upTo v "1.5" = true ->
     exists name numPoints rest,
       doc_hierarchy data = (name, numPoints) :: rest /\
       node_numPoints node = Some numPoints) /\
    (Version.upTo v "1.5" = false -> node_numPoints node = Some num_zero).
Proof.
  intros Hwf. destruct w as [vs ns p c t].
  destruct (load_ok url data v vs ns p c t Hwf)
    as (numPoints & idx_end & w_end & Hload & Hnum & Hp & _ & Hnk & _).
  cbv zeta in *.
  destruct (Hnk (length ns) (root_node data numPoints (length vs)))
    as (node & Hnode & Hsame).
  { unfold world_with_root. simpl. rewrite lookup_grown0. reflexivity. }
  destruct Hsame as (Hname & _ & _ & Hlevel & Hpoints & Hspacing & Hhas & _).
  simpl in *.
  exists (finished idx_end w_end), (length ns), node.
  split; [exact Hload|].
  unfold finished. simpl. rewrite Hp. simpl.
  split; [reflexivity|]. split; [exact Hnode|].
  split; [congruence|]. split; [congruence|]. split; [congruence|].
  split; [congruence|].
  unfold root_numPoints in Hnum. rewrite <- Hpoints.
  split; intros Hv; rewrite Hv in Hnum.
  - destruct (doc_hierarchy data) as [|[name n] rest]; [discriminate|].
    exists name, n, rest. split; [reflexivity | congruence].
  - congruence.
Qed.

(** C5, as amended.  On a well-formed document the calls come in this
    order: the request; the two bounding spheres, of the normalized boxes;
    the constructor of the decoder (and of the attribute layout, for the
    binary decoder); the constructor of the root node; the load of the
    root; the constructors of the nodes of the hierarchy, in the order of
    the entries (legacy documents only); the callback with the
    descriptor. *)
Theorem load_call_order url data v w :
  well_formed data v ->
  exists w' box tight loader root,
    load url (Loaded data) w = (Normal tt, w') /\
    pco_boundingBox (pco w') = Some box /\
    pco_tightBoundingBox (pco w') = Some tight /\
    pco_loader (pco w') = Some loader /\
    pco_root (pco w') = Some root /\
    root = length (nodes w) /\
    trace w'
    = trace w
      ++ [EvXhrSend "GET" url;
          EvGetBoundingSphere box; EvGetBoundingSphere tight;
          EvNewLoader loader]
      ++ (if is_LAS_or_LAZ (doc_pointAttributes data) then []
          else [EvNewPointAttributes (doc_pointAttributes data)])
      ++ [EvNewNode root "r"; EvNodeLoad root]
      ++ imap (fun k entry => EvNewNode (root + 1 + k)%nat (fst entry))
              (hierarchy_entries data v)
      ++ [EvCallback (Some (pco w'))].
Proof.
  intros Hwf. destruct w as [vs ns p c t].
  destruct (load_ok url data v vs ns p c t Hwf)
    as (numPoints & idx_end & w_end & Hload & _ & Hp & _ & _ & _ & Ht).
  cbv zeta in *.
  exists (finished idx_end w_end).
  exists (mkBox3 (length vs) (length vs + 1)%nat),
    (mkBox3 (length vs + 2)%nat (length vs + 3)%nat),
    (loader_of data (mkBox3 (length vs) (length vs + 1)%nat)), (length ns).
  split; [exact Hload|].
  unfold finished. cbn [pco trace nodes]. rewrite Hp, Ht.
  do 5 (split; [reflexivity|]).
  unfold events_before_hierarchy. rewrite <- !app_assoc. reflexivity.
Qed.

(** C6. When the transport fails, [load] completes without an exception:
    the counter of loading nodes is decremented, the failure is logged with
    the url and the event, and the callback is called once, with no
    descriptor; the vectors and the nodes are untouched. *)
Theorem load_transport_failure url event w :
  load url (Failed event) w
  = (Normal tt,
     mkWorld (vectors w) (nodes w) (set_pco_url (Some url) new_pco)
       (numNodesLoading w - 1)
       (trace w ++ [EvXhrSend "GET" url;
                    EvConsoleLog "Potree: loading file failed." url event;
                    EvCallback None])).
Proof.
  destruct w as [vs ns p c t]. unfold load, xhr_onerror, callback_with_nothing.
  run_with assign_run. run_with assign_run. run_with emit_run.
  erewrite bind_Normal by reflexivity.
  run_with emit_run. rewrite emit_run. norm_heap. reflexivity.
Qed.

End Descriptor.

Section Completion.

Context {num : Type} {NumOps : Number num} {NodeOps : NodeClass}.
Implicit Types (vs : list (@Vector3 num)) (ns : list (@Node num)).
Implicit Types (p : @PointCloudOctreeGeometry num) (t : list (@Event num)).
Implicit Types (data : @MetadataDocument num) (w : @World num).
Implicit Types (idx : gmap string loc).

Lemma parents_precede_dec known (entries : list (string * num)) :
  {parents_precede known entries} + {~ parents_precede known entries}.
Proof.
  revert known. induction entries as [|entry rest IH]; intros known; simpl.
  - left. exact I.
  - destruct (decide (parent_name (fst entry) ∈ known)) as [Hin | Hout].
    + destruct (IH (fst entry :: known)) as [Hrest | Hrest].
      * left. auto.
      * right. tauto.
    + right. tauto.
Qed.

(** The loop throws at the first entry whose parent is not indexed. *)
Lemma build_nodes_throws rootSpacing entries :
  forall known idx w,
    loop_invariant rootSpacing known idx w ->
    (forall name, is_Some (idx !! name) -> name ∈ known) ->
    ~ parents_precede known entries ->
    exists e w', build_nodes entries idx w = (Throw e, w').
Proof.
  induction entries as [|entry rest IH]; intros known idx w Hinv Hdom Hnot.
  - exfalso. apply Hnot. exact I.
  - simpl in Hnot.
    destruct (decide (parent_name (fst entry) ∈ known)) as [Hin | Hout].
    + destruct (build_node_ok _ _ _ _ _ Hinv Hin)
        as (idx1 & w1 & Hrun1 & _ & Hinv1 & _ & _ & _ & _ & _ & _ & Hidx1).
      destruct (IH (fst entry :: known) idx1 w1 Hinv1) as (e & w' & Hthrow).
      * intros name Hname. subst idx1.
        destruct (decide (fst entry = name)) as [<- | Hne].
        -- apply list_elem_of_here.
        -- rewrite lookup_insert_ne in Hname by exact Hne.
           apply list_elem_of_further, Hdom, Hname.
      * tauto.
      * exists e, w'. simpl. rewrite (bind_Normal _ _ _ _ _ Hrun1). exact Hthrow.
    + assert (idx !! parent_name (fst entry) = None) as Hnone.
      { destruct (idx !! parent_name (fst entry)) eqn:E; [|reflexivity].
        exfalso. apply Hout, Hdom. rewrite E. eauto. }
      eexists _, w. simpl. apply bind_Throw.
      unfold build_node. cbv zeta.
      unfold parent_name in Hnone. rewrite Hnone. reflexivity.
Qed.

Lemma build_root_throws data v (box : Box3) w :
  root_numPoints data v = None ->
  exists e w', build_root data v box w = (Throw e, w').
Proof.
  intros Hnone. destruct w as [vs ns p c t]. unfold build_root.
  run_with new_Node_run.
  run_with update_Node_run. run_with update_Node_run.
  run_with get_run. run_with update_Node_run.
  eexists _, _. apply bind_Throw.
  unfold root_numPoints in Hnone. unfold first_numPoints.
  destruct (Version.upTo v "1.5"); [|discriminate].
  destruct (doc_hierarchy data) as [|[name n] rest]; [|discriminate].
  reflexivity.
Qed.

Lemma build_descriptor_and_root_throws url data v w :
  Version.parse (doc_version data) = Some v ->
  root_numPoints data v = None ->
  exists e w', build_descriptor_and_root url data w = (Throw e, w').
Proof.
  intros Hv Hnum. destruct w as [vs ns p c t].
  unfold build_descriptor_and_root.
  run_with read_header_run.
  erewrite bind_Normal by apply normalize_run.
  erewrite bind_Normal by (apply select_loader_run; reflexivity).
  match goal with
  | |- exists e w', bind _ _ ?W = _ =>
      destruct (build_root_throws data v
                  (mkBox3 (length vs) (length vs + 1)%nat) W Hnum)
        as (e & w' & Hthrow)
  end.
  exists e, w'. apply bind_Throw. exact Hthrow.
Qed.

End Completion.

(** * The sample documents, evaluated *)

Lemma legacy_doc_well_formed : well_formed legacy_doc (Version.mk 1 4).
Proof.
  split; [reflexivity|]. split.
  - intros _. discriminate.
  - intros _. simpl. repeat split; repeat constructor.
Qed.

Lemma offset_doc_well_formed : well_formed offset_doc (Version.mk 1 8).
Proof. split; [reflexivity|]. split; intros H; discriminate H. Qed.

Lemma wide_tight_doc_well_formed : well_formed wide_tight_doc (Version.mk 1 8).
Proof. split; [reflexivity|]. split; intros H; discriminate H. Qed.

Lemma exact_doc_well_formed : well_formed exact_doc (Version.mk 1 5).
Proof.
  split; [reflexivity|]. split.
  - intros _. discriminate.
  - intros H. discriminate H.
Qed.

Lemma createChildAABB_frame_witness :
  exists child w',
    createChildAABB float_cube (Int 5) float_cube_world = (Normal child, w') /\
    vectors_kept float_cube_world w' /\
    corners w' float_cube
      = Some (mkVector3 0.1%float 0.1%float 0.1%float,
              mkVector3 0.5%float 0.5%float 0.5%float).
Proof.
  destruct (createChildAABB_frame float_cube_world float_cube (Int 5)
              (mkVector3 0.1%float 0.1%float 0.1%float)
              (mkVector3 0.5%float 0.5%float 0.5%float) eq_refl)
    as (child & w' & Hrun & Hkept & Hparent & _).
  exists child, w'. auto.
Defined.

(** The legacy example, computed: "r0" at level 1 with spacing 0.5 and 10
    points in the lower octant of the root, "r01" at level 2 with spacing
    0.25 and 3 points in octant 1 of "r0"; the root has 100 points. *)
Lemma legacy_example :
  exists w',
    load sample_url (Loaded legacy_doc) empty_world = (Normal tt, w') /\
    nodes w' !! 0%nat
      = Some (mkNode "r" NaN (mkBox3 0%nat 1%nat) (Some 0) (Some 100%float)
                (Some 1%float) (Some true) {[Int 0 := 1%nat]} None) /\
    nodes w' !! 1%nat
      = Some (mkNode "r0" (Int 0) (mkBox3 5%nat 6%nat) (Some 1) (Some 10%float)
                (Some 0.5%float) None {[Int 1 := 2%nat]} (Some 0%nat)) /\
    nodes w' !! 2%nat
      = Some (mkNode "r01" (Int 1) (mkBox3 8%nat 9%nat) (Some 2) (Some 3%float)
                (Some 0.25%float) None ∅ (Some 1%nat)) /\
    corners w' (mkBox3 0%nat 1%nat)
      = Some (mkVector3 0%float 0%float 0%float,
              mkVector3 8%float 8%float 8%float) /\
    corners w' (mkBox3 5%nat 6%nat)
      = Some (mkVector3 0%float 0%float 0%float,
              mkVector3 4%float 4%float 4%float) /\
    corners w' (mkBox3 8%nat 9%nat)
      = Some (mkVector3 0%float 0%float 2%float,
              mkVector3 2%float 2%float 4%float).
Proof.
  eexists. split; [vm_compute; reflexivity|].
  repeat split; vm_compute; reflexivity.
Qed.

Lemma Qc_add_sub (a b : Qc) : num_add (num_sub a b) b = a.
Proof. apply Qc_is_canon. qc_order. Qed.

Lemma Qc_sub_le (a b c : Qc) : leq a b -> leq (num_sub a c) (num_sub b c).
Proof. intros H. qc_order. Qed.

Lemma load_normalizes_witness :
  exists w',
    load sample_url (Loaded exact_doc) empty_world = (Normal tt, w') /\
    normalized_by_offset exact_doc w' /\
    normalization_round_trip exact_doc w'.
Proof.
  destruct (load_normalizes sample_url exact_doc (Version.mk 1 5) empty_world)
    as (w' & Hload & Hsub & Hback).
  - split; [reflexivity|]. split; intros H; discriminate.
  - exists w'. split; [exact Hload|]. split; [exact Hsub|].
    apply Hback. exact Qc_add_sub.
Defined.

(** C3, as stated, fails in binary64: for the box from -3 to 0.1 the
    offset is -3 and the normalized maximum is 0.1 - (-3) =
    3.1000000000000001; adding the offset back gives 0.10000000000000009,
    which is not 0.1. *)
Lemma load_round_trip_float_counterexample :
  well_formed offset_doc (Version.mk 1 8) /\
  exists w',
    load sample_url (Loaded offset_doc) empty_world = (Normal tt, w') /\
    ~ normalization_round_trip offset_doc w'.
Proof.
  split; [exact offset_doc_well_formed|].
  eexists. split; [vm_compute; reflexivity|].
  intros (box & tight & offset & off & bmin & bmax & tmin & tmax
          & Hbox & _ & Hoffset & Hoff & _ & Hc & _ & _ & Hmax & _).
  vm_compute in Hbox. injection Hbox as <-.
  vm_compute in Hoffset. injection Hoffset as <-.
  vm_compute in Hoff. injection Hoff as <-.
  vm_compute in Hc. injection Hc as <- <-.
  apply (f_equal (fun a => PrimFloat.eqb (vec_x a) 0.1%float)) in Hmax.
  vm_compute in Hmax. discriminate.
Qed.

Lemma load_selects_decoder_witness :
  exists w' box,
    load sample_url (Loaded legacy_doc) empty_world = (Normal tt, w') /\
    pco_boundingBox (pco w') = Some box /\
    pco_loader (pco w') = Some (LASLAZLoader "1.4") /\
    pco_pointAttributes (pco w') = Some (PARaw (PATag "LAZ")).
Proof.
  destruct (load_selects_decoder sample_url legacy_doc (Version.mk 1 4)
              empty_world)
    as (w' & box & Hload & Hbox & _ & Hlas & _).
  - split; [reflexivity|]. split.
    + intros _. discriminate.
    + intros _. simpl. repeat split; repeat constructor.
  - exists w', box. split; [exact Hload|]. split; [exact Hbox|].
    apply Hlas. right. reflexivity.
Defined.

(** The other branch of the selection, computed: a list of attributes
    selects the binary decoder, built on the box of the descriptor, and is
    replaced by the attribute layout. *)
Lemma binary_decoder_example :
  exists w',
    load sample_url (Loaded offset_doc) empty_world = (Normal tt, w') /\
    pco_boundingBox (pco w') = Some (mkBox3 0%nat 1%nat) /\
    pco_loader (pco w')
      = Some (BinaryLoader "1.8" (mkBox3 0%nat 1%nat) (Some 0.001%float)) /\
    pco_pointAttributes (pco w')
      = Some (PAObject (PAList ["POSITION_CARTESIAN"])).
Proof.
  eexists. split; [vm_compute; reflexivity|].
  repeat split.
Qed.

Lemma load_octreeDir_witness :
  exists w',
    load sample_url (Loaded legacy_doc) empty_world = (Normal tt, w') /\
    pco_octreeDir (pco w') = Some "http://host/cloud.json/../data".
Proof.
  destruct (load_octreeDir sample_url legacy_doc (Version.mk 1 4) empty_world)
    as (w' & Hload & _ & Hrelative).
  - split; [reflexivity|]. split.
    + intros _. discriminate.
    + intros _. simpl. repeat split; repeat constructor.
  - exists w'. split; [exact Hload|]. apply Hrelative. reflexivity.
Defined.

(** A directory that starts with "http" is kept as it is. *)
Lemma absolute_octreeDir_example :
  exists w',
    load sample_url (Loaded offset_doc) empty_world = (Normal tt, w') /\
    pco_octreeDir (pco w') = Some "http://host/data".
Proof. eexists. split; [vm_compute; reflexivity | reflexivity]. Qed.

Lemma Qc_sub_le_iff (a b c : Qc) : leq (num_sub a c) (num_sub b c) <-> leq a b.
Proof. split; intros; qc_order. Qed.




Lemma load_root_witness :
  exists w' root node,
    load sample_url (Loaded exact_doc) empty_world = (Normal tt, w') /\
    pco_root (pco w') = Some root /\
    nodes w' !! root = Some node /\
    node_level node = Some 0 /\
    node_hasChildren node = Some true /\
    node_spacing node = Some (Q2Qc 1) /\
    node_numPoints node = Some (Q2Qc 100).
Proof.
  destruct (load_root sample_url exact_doc (Version.mk 1 5) empty_world)
    as (w' & root & node & Hload & Hroot & Hnode & _ & Hlevel & Hhas & Hsp
        & Hread & _).
  - split; [reflexivity|]. split; intros H; discriminate.
  - exists w', root, node.
    destruct (Hread eq_refl) as (name & numPoints & rest & Hh & Hpoints).
    injection Hh as _ <- _. auto 10.
Defined.

(** The two thresholds differ: at version 1.5 the root reads its point
    count from the first entry, and the loop over the hierarchy does not
    run: the root is the only node. *)
Lemma version_1_5_example :
  Version.upTo (Version.mk 1 5) "1.5" = true /\
  Version.upTo (Version.mk 1 5) "1.4" = false /\
  exists w',
    load sample_url (Loaded exact_doc) empty_world = (Normal tt, w') /\
    length (nodes w') = 1%nat /\
    pco_nodes (pco w') = Some {["r" := 0%nat]}.
Proof.
  split; [reflexivity|]. split; [reflexivity|].
  eexists. split; [vm_compute; reflexivity|].
  split; [reflexivity | vm_compute; reflexivity].
Qed.

Lemma load_call_order_witness :
  exists w',
    load sample_url (Loaded legacy_doc) empty_world = (Normal tt, w') /\
    trace w'
    = [EvXhrSend "GET" sample_url;
       EvGetBoundingSphere (mkBox3 0%nat 1%nat);
       EvGetBoundingSphere (mkBox3 2%nat 3%nat);
       EvNewLoader (LASLAZLoader "1.4");
       EvNewNode 0%nat "r"; EvNodeLoad 0%nat;
       EvNewNode 1%nat "r0"; EvNewNode 2%nat "r01";
       EvCallback (Some (pco w'))].
Proof.
  destruct (load_call_order sample_url legacy_doc (Version.mk 1 4) empty_world)
    as (w' & box & tight & loader & root & Hload & Hbox & Htight & Hloader
        & Hroot & Hr & Htrace).
  - split; [reflexivity|]. split.
    + intros _. discriminate.
    + intros _. simpl. repeat split; repeat constructor.
  - exists w'. split; [exact Hload|].
    rewrite Htrace. clear Htrace.
    vm_compute in Hload. injection Hload as <-.
    vm_compute in Hbox. injection Hbox as <-.
    vm_compute in Htight. injection Htight as <-.
    vm_compute in Hloader. injection Hloader as <-.
    subst root. reflexivity.
Defined.

(** C5, as stated, fails: the decoder is selected before any node is
    built, and the load of the root is triggered before the other nodes
    are built.  In the legacy example the load of the root is the sixth
    call and the constructor of "r0" the seventh. *)
Lemma load_call_order_counterexample :
  well_formed legacy_doc (Version.mk 1 4) /\
  exists w',
    load sample_url (Loaded legacy_doc) empty_world = (Normal tt, w') /\
    ~ follows stated_rank (trace w').
Proof.
  split; [exact legacy_doc_well_formed|].
  eexists. split; [vm_compute; reflexivity|].
  intros Hfollows.
  specialize (Hfollows 5%nat 6%nat (EvNodeLoad 0%nat) (EvNewNode 1%nat "r0")
                RootLoadTriggered TreeBuilding).
  simpl in Hfollows.
  specialize (Hfollows ltac:(lia) eq_refl eq_refl eq_refl eq_refl). lia.
Qed.

(** ** The callback and the counter *)

Lemma bind_inv {S A B} (m : M S A) (k : A -> M S B) (s s' : S) r :
  bind m k s = (r, s') ->
  (exists e, m s = (Throw e, s') /\ r = Throw e) \/
  (exists a s1, m s = (Normal a, s1) /\ k a s1 = (r, s')).
Proof.
  unfold bind. destruct (m s) as [[a | e] s1]; intros H.
  - right. eauto.
  - left. injection H as <- <-. eauto.
Qed.

Section Quiet.

Context {num : Type} {NumOps : Number num} {NodeOps : NodeClass}.
Implicit Types (data : @MetadataDocument num) (w : @World num).

Lemma counter_after_app (ev1 ev2 : list (@Event num)) (c : Z) :
  counter_after (ev1 ++ ev2) c = counter_after ev2 (counter_after ev1 c).
Proof. unfold counter_after. apply fold_left_app. Qed.

Lemma quiet_ret {A} (a : A) : quiet (ret (S := @World num) a).
Proof.
  intros w r w' [= <- <-]. exists []. rewrite app_nil_r. auto.
Qed.

Lemma quiet_throw {A} e : quiet (throw (S := @World num) (A := A) e).
Proof.
  intros w r w' [= <- <-]. exists []. rewrite app_nil_r. auto.
Qed.

Lemma quiet_get : quiet (get (S := @World num)).
Proof.
  intros w r w' [= <- <-]. exists []. rewrite app_nil_r. auto.
Qed.

Lemma quiet_bind {A B} (m : M (@World num) A) (k : A -> M (@World num) B) :
  quiet m -> (forall a, quiet (k a)) -> quiet (bind m k).
Proof.
  intros Hm Hk w r w' Hrun.
  apply bind_inv in Hrun as [(e & Hrun & ->) | (a & w1 & Hrun & Hrest)].
  - exact (Hm _ _ _ Hrun).
  - destruct (Hm _ _ _ Hrun) as (ev1 & Ht1 & Hq1 & Hc1).
    destruct (Hk a _ _ _ Hrest) as (ev2 & Ht2 & Hq2 & Hc2).
    exists (ev1 ++ ev2). rewrite Ht2, Ht1, app_assoc.
    split; [reflexivity|]. split; [apply Forall_app; auto|].
    rewrite counter_after_app, <- Hc1. exact Hc2.
Qed.

Lemma quiet_modify (f : @World num -> @World num) :
  (forall w, numNodesLoading (f w) = numNodesLoading w /\ trace (f w) = trace w) ->
  quiet (modify f).
Proof.
  intros Hf w r w' [= <- <-]. destruct (Hf w) as [Hc Ht].
  exists []. rewrite app_nil_r. auto.
Qed.

Lemma quiet_emit (e : @Event num) :
  is_callback e = false -> is_node_load e = false -> quiet (emit e).
Proof.
  intros He Hl w r w' [= <- <-].
  exists [e]. split; [reflexivity|]. split; [auto|].
  unfold counter_after. simpl. rewrite Hl. reflexivity.
Qed.

Lemma quiet_Node_load (n : loc) : quiet (Node_load (num := num) n).
Proof.
  intros w r w' [= <- <-].
  exists [EvNodeLoad n]. split; [reflexivity|]. split; [auto|]. reflexivity.
Qed.

Lemma quiet_new_Vector3 (x y z : num) : quiet (new_Vector3 x y z).
Proof.
  intros w r w' [= <- <-].
  exists []. simpl. rewrite app_nil_r. auto.
Qed.

Lemma quiet_read_Vector3 v : quiet (read_Vector3 (num := num) v).
Proof.
  intros w r w'. unfold read_Vector3.
  destruct (vectors w !! v); intros [= <- <-];
    exists []; rewrite app_nil_r; auto.
Qed.

Lemma quiet_read_Node n : quiet (read_Node (num := num) n).
Proof.
  intros w r w'. unfold read_Node.
  destruct (nodes w !! n); intros [= <- <-];
    exists []; rewrite app_nil_r; auto.
Qed.

(** Every step of [xhr.onload] before the callback is quiet. *)
Ltac quiet_steps :=
  repeat first
    [ apply quiet_ret | apply quiet_throw | apply quiet_get
    | apply quiet_new_Vector3 | apply quiet_read_Vector3
    | apply quiet_read_Node | apply quiet_Node_load
    | apply quiet_emit; reflexivity
    | apply quiet_modify; intros []; split; reflexivity
    | apply quiet_bind; [|intros ?]
    | match goal with
      | |- quiet (if ?b then _ else _) => destruct b
      | |- quiet (match ?x with _ => _ end) => destruct x
      end
    | assumption ].

Lemma quiet_createChildAABB aabb index :
  quiet (createChildAABB (num := num) aabb index).
Proof.
  unfold createChildAABB, Vector3_clone, Vector3_subVectors, add_half,
    sub_half, write_Vector3, new_Box3.
  quiet_steps.
Qed.

Lemma quiet_update_Node n (f : @Node num -> @Node num) : quiet (update_Node n f).
Proof. unfold update_Node. quiet_steps. Qed.

Lemma quiet_build_node idx (entry : string * num) : quiet (build_node idx entry).
Proof.
  unfold build_node. cbv zeta.
  destruct (idx !! _); [|apply quiet_throw].
  apply quiet_bind; [apply quiet_read_Node | intros parent].
  apply quiet_bind; [apply quiet_createChildAABB | intros box].
  unfold new_PointCloudOctreeGeometryNode, Node_addChild.
  pose proof quiet_update_Node.
  quiet_steps.
Qed.

Lemma quiet_build_nodes (entries : list (string * num)) :
  forall idx, quiet (build_nodes entries idx).
Proof.
  induction entries as [|entry rest IH]; intros idx; simpl.
  - apply quiet_ret.
  - apply quiet_bind; [apply quiet_build_node | exact IH].
Qed.

Lemma quiet_build_descriptor_and_root url data :
  quiet (build_descriptor_and_root url data).
Proof.
  unfold build_descriptor_and_root, read_header, new_Version, normalize,
    select_loader, build_root, first_numPoints, assign, Box3_clone,
    Box3_getBoundingSphere, Vector3_clone, Vector3_copy, Vector3_sub,
    write_Vector3, new_Box3, new_PointCloudOctreeGeometryNode.
  pose proof quiet_update_Node.
  quiet_steps.
Qed.

Lemma quiet_build_hierarchy data v idx : quiet (build_hierarchy data v idx).
Proof.
  unfold build_hierarchy.
  destruct (Version.upTo v "1.4"); [apply quiet_build_nodes | apply quiet_ret].
Qed.

Lemma load_transport_failure_eq url event (w : @World num) :
  load url (Failed event) w
  = (Normal tt,
     mkWorld (vectors w) (nodes w) (set_pco_url (Some url) new_pco)
       (numNodesLoading w - 1)
       (trace w ++ [EvXhrSend "GET" url;
                    EvConsoleLog "Potree: loading file failed." url event;
                    EvCallback None])).
Proof.
  destruct w as [vs ns p c t]. unfold load, xhr_onerror, callback_with_nothing.
  run_with assign_run. run_with assign_run. run_with emit_run.
  erewrite bind_Normal by reflexivity.
  run_with emit_run. rewrite emit_run. norm_heap. reflexivity.
Qed.

(** The handler up to the callback is quiet, and the callback ends it. *)
Lemma xhr_onload_outcome url data w r w' :
  xhr_onload url data w = (r, w') ->
  exists events,
    trace w' = trace w ++ events /\
    numNodesLoading w' = counter_after events (numNodesLoading w) /\
    match r with
    | Normal _ =>
        exists before,
          events = before ++ [EvCallback (Some (pco w'))] /\
          Forall (fun e => is_callback e = false) before
    | Throw _ => Forall (fun e => is_callback e = false) events
    end.
Proof.
  unfold xhr_onload. intros Hrun.
  apply bind_inv in Hrun as [(e & Hrun & ->) | (built & w1 & Hrun1 & Hrun)].
  { destruct (quiet_build_descriptor_and_root _ _ _ _ _ Hrun)
      as (ev & Ht & Hq & Hc).
    exists ev. auto. }
  destruct (quiet_build_descriptor_and_root _ _ _ _ _ Hrun1)
    as (ev1 & Ht1 & Hq1 & Hc1).
  apply bind_inv in Hrun as [(e & Hrun & ->) | (idx & w2 & Hrun2 & Hrun)].
  { destruct (quiet_build_hierarchy _ _ _ _ _ _ Hrun) as (ev2 & Ht2 & Hq2 & Hc2).
    exists (ev1 ++ ev2). rewrite Ht2, Ht1, app_assoc.
    split; [reflexivity|].
    split; [rewrite counter_after_app, <- Hc1; exact Hc2|].
    apply Forall_app; auto. }
  destruct (quiet_build_hierarchy _ _ _ _ _ _ Hrun2) as (ev2 & Ht2 & Hq2 & Hc2).
  destruct w2 as [vs ns p c t].
  unfold callback_with_pco in Hrun.
  rewrite (bind_Normal _ _ _ _ _ (assign_run _ _ _ _ _ _)) in Hrun.
  rewrite (bind_Normal _ _ _ _ _ (get_run _)) in Hrun.
  rewrite emit_run in Hrun. injection Hrun as <- <-. simpl in *.
  exists ((ev1 ++ ev2) ++ [EvCallback (Some (set_pco_nodes (Some idx) p))]).
  rewrite Ht2, Ht1, !app_assoc. split; [reflexivity|].
  split.
  - rewrite counter_after_app, counter_after_app, <- Hc1, <- Hc2.
    reflexivity.
  - exists (ev1 ++ ev2). split; [reflexivity | apply Forall_app; auto].
Qed.

(** X3. The callback is called once when [load] completes and never when
    it throws.  Whatever the transport answers and however the handler
    ends, the calls that [load] adds contain the callback at most once: at
    the very end, with the descriptor as it then stands (after a document)
    or with nothing (after a failure), when [load] completes; not at all
    when it throws. *)
Theorem load_callback_once url response w r w' :
  load url response w = (r, w') ->
  exists events,
    trace w' = trace w ++ events /\
    match r with
    | Normal _ =>
        exists before,
          events
          = before ++ [EvCallback (match response with
                                   | Loaded _ => Some (pco w')
                                   | Failed _ => None
                                   end)] /\
          Forall (fun e => is_callback e = false) before
    | Throw _ => Forall (fun e => is_callback e = false) events
    end.
Proof.
  destruct w as [vs ns p c t]. destruct response as [data | event].
  - rewrite load_Loaded. intros Hrun.
    destruct (xhr_onload_outcome _ _ _ _ _ Hrun) as (events & Ht & _ & Hr).
    simpl in Ht. exists ([EvXhrSend "GET" url] ++ events).
    rewrite Ht, <- app_assoc. split; [reflexivity|].
    destruct r as [[] | e].
    + destruct Hr as (before & -> & Hq).
      exists ([EvXhrSend "GET" url] ++ before).
      rewrite <- app_assoc. split; [reflexivity|].
      apply Forall_app. split; [repeat constructor | exact Hq].
    + apply Forall_app. split; [repeat constructor | exact Hr].
  - rewrite load_transport_failure_eq. intros [= <- <-]. simpl.
    eexists. split; [reflexivity|].
    exists [EvXhrSend "GET" url;
            EvConsoleLog "Potree: loading file failed." url event].
    split; [reflexivity | repeat constructor].
Qed.

(** X4. The loader writes the counter of loads in flight in one place
    only, the handler of a transport failure, which decrements it.  After
    a document, whether the handler completes or throws, the counter is
    what the calls of [node.load()] that the handler reached have made of
    it; the handler itself leaves [Global.numNodesLoading] alone. *)
Theorem load_counter url response w r w' :
  load url response w = (r, w') ->
  exists events,
    trace w' = trace w ++ events /\
    numNodesLoading w'
    = match response with
      | Loaded _ => counter_after events (numNodesLoading w)
      | Failed _ => numNodesLoading w - 1
      end.
Proof.
  destruct w as [vs ns p c t]. destruct response as [data | event].
  - rewrite load_Loaded. intros Hrun.
    destruct (xhr_onload_outcome _ _ _ _ _ Hrun) as (events & Ht & Hc & _).
    simpl in Ht, Hc. exists ([EvXhrSend "GET" url] ++ events).
    rewrite Ht, <- app_assoc. split; [reflexivity|].
    rewrite counter_after_app. exact Hc.
  - rewrite load_transport_failure_eq. intros [= <- <-]. simpl.
    eexists. split; reflexivity.
Qed.

End Quiet.

(** ** Documents on which the handler throws *)

Section Malformed.

Context {num : Type} {NumOps : Number num} {NodeOps : NodeClass}.
Implicit Types (data : @MetadataDocument num) (w : @World num).

(** X11. Two kinds of document make the handler throw, without a call of
    the callback: up to the format 1.5, a hierarchy with no first entry,
    from which the root would read its point count; up to the format 1.4,
    a hierarchy in which an entry after the first comes before its parent
    is indexed (the name without its last character is neither "r" nor
    the name of an earlier entry after the first). *)
Theorem load_malformed_throws url data v w :
  Version.parse (doc_version data) = Some v ->
  (Version.upTo v "1.5" = true /\ doc_hierarchy data = []) \/
  (Version.upTo v "1.4" = true /\
   ~ parents_precede ["r"] (tail (doc_hierarchy data))) ->
  exists e w' events,
    load url (Loaded data) w = (Throw e, w') /\
    trace w' = trace w ++ events /\
    Forall (fun ev => is_callback ev = false) events.
Proof.
  intros Hv Hbad. destruct w as [vs ns p c t].
  assert (exists e w',
            xhr_onload url data
              (mkWorld vs ns (set_pco_url (Some url) new_pco) c
                 (t ++ [EvXhrSend "GET" url])) = (Throw e, w'))
    as (e & w' & Hthrow).
  { unfold xhr_onload.
    destruct (root_numPoints data v) as [numPoints|] eqn:Hnum.
    - destruct Hbad as [[Hup Hempty] | [Hlegacy Hnot]].
      { unfold root_numPoints in Hnum. rewrite Hup, Hempty in Hnum.
        discriminate. }
      destruct (build_nodes_throws (doc_spacing data)
                  (tail (doc_hierarchy data)) ["r"] _ _
                  (loop_invariant_root url data numPoints vs ns
                     (set_pco_url (Some url) new_pco) c
                     (t ++ [EvXhrSend "GET" url])))
        as (e & w'' & Hthrow); [|exact Hnot|].
      { intros name Hname.
        destruct (decide ("r" = name)) as [<- | Hne];
          [apply list_elem_of_here|].
        rewrite lookup_insert_ne, lookup_empty in Hname by exact Hne.
        destruct Hname; discriminate. }
      exists e, w''.
      rewrite (bind_Normal _ _ _ _ _
                 (build_descriptor_and_root_run url data v numPoints
                    vs ns _ c _ Hv Hnum)).
      cbn [fst snd]. apply bind_Throw.
      unfold build_hierarchy. rewrite Hlegacy. exact Hthrow.
    - destruct (build_descriptor_and_root_throws url data v
                  (mkWorld vs ns (set_pco_url (Some url) new_pco) c
                           (t ++ [EvXhrSend "GET" url])) Hv Hnum)
        as (e & w'' & Hthrow).
      exists e, w''. apply bind_Throw. exact Hthrow. }
  destruct (xhr_onload_outcome _ _ _ _ _ Hthrow) as (events & Ht & _ & Hq).
  exists e, w', ([EvXhrSend "GET" url] ++ events).
  split; [rewrite load_Loaded; exact Hthrow|].
  simpl in Ht. rewrite Ht, <- app_assoc. split; [reflexivity|].
  apply Forall_app. split; [repeat constructor | exact Hq].
Qed.

End Malformed.

(** * Further properties of the loader *)

(** ** [createChildAABB] and the bits of the index *)

Lemma land_low_bits (i mask : Z) :
  mask = 1 \/ mask = 2 \/ mask = 4 -> Z.land i mask = Z.land (i mod 8) mask.
Proof.
  intros Hmask.
  assert (Z.land 7 mask = mask) as H7
    by (destruct Hmask as [-> | [-> | ->]]; reflexivity).
  rewrite <- H7 at 1. rewrite Z.land_assoc.
  change 7 with (Z.ones 3). rewrite Z.land_ones by lia. reflexivity.
Qed.

Section Bits.

Context {num : Type} {NumOps : Number num} {NodeOps : NodeClass}.

(** X1. [createChildAABB] reads the three low bits of the index and
    nothing else: an integer index gives what its remainder modulo 8
    gives (8 splits like 0, 9 like 1, -1 like 7), and [NaN] gives what 0
    gives.  So a name that ends in "8", "9" or a character that is no
    digit still gets a box, that of octant 0, 1 or 0. *)
Theorem createChildAABB_low_bits (w : @World num) aabb (i : Z) :
  createChildAABB aabb (Int i) w = createChildAABB aabb (Int (i mod 8)) w /\
  createChildAABB aabb NaN w = createChildAABB aabb (Int 0) w.
Proof.
  split; [|reflexivity].
  unfold createChildAABB, bitand.
  rewrite (land_low_bits i 1), (land_low_bits i 2), (land_low_bits i 4) by tauto.
  reflexivity.
Qed.

(** X2. Bit 0 of the index selects the half along z, bit 1 along y and
    bit 2 along x.  On each axis the child keeps one face of the parent as
    it is, in any arithmetic: its maximum is the parent's when the bit is
    set, its minimum is the parent's when the bit is clear; the other face
    is [min + size / 2] in the first case and [max - size / 2] in the
    second. *)
Theorem createChildAABB_bit_axes (w : @World num) aabb index pmin pmax :
  corners w aabb = Some (pmin, pmax) ->
  exists child w' cmin cmax,
    createChildAABB aabb index w = (Normal child, w') /\
    corners w' child = Some (cmin, cmax) /\
    forall mask proj,
      (mask, proj) = (4, vec_x) \/ (mask, proj) = (2, vec_y) \/
      (mask, proj) = (1, vec_z) ->
      let half := num_div (num_sub (proj pmax) (proj pmin)) num_two in
      ((bitand index mask >? 0) = true ->
       proj cmax = proj pmax /\ proj cmin = num_add (proj pmin) half) /\
      ((bitand index mask >? 0) = false ->
       proj cmin = proj pmin /\ proj cmax = num_sub (proj pmax) half).
Proof.
  intros Hc.
  destruct (createChildAABB_corners w aabb index pmin pmax Hc)
    as (child & w' & Hrun & Hchild).
  exists child, w', (fst (child_corners pmin pmax index)),
    (snd (child_corners pmin pmax index)).
  split; [exact Hrun|].
  split; [rewrite <- surjective_pairing; exact Hchild|].
  destruct (child_corners_axes pmin pmax index)
    as ((X1 & X2) & (Y1 & Y2) & (Z1 & Z2)).
  intros mask proj Hcase half. subst half.
  destruct Hcase as [Hcase | [Hcase | Hcase]]; injection Hcase as -> ->.
  - rewrite X1, X2. split; intros ->; simpl; auto.
  - rewrite Y1, Y2. split; intros ->; simpl; auto.
  - rewrite Z1, Z2. split; intros ->; simpl; auto.
Qed.

End Bits.

(** ** Completed turns of the loop *)

Section Turns.

Context {num : Type} {NumOps : Number num} {NodeOps : NodeClass}.
Implicit Types (vs : list (@Vector3 num)) (ns : list (@Node num)).
Implicit Types (p : @PointCloudOctreeGeometry num) (t : list (@Event num)).
Implicit Types (data : @MetadataDocument num) (w : @World num).
Implicit Types (idx : gmap string loc).

(** A turn of the loop on an entry whose parent is known is a [turn]. *)
Lemma build_node_turn rootSpacing known idx entry w :
  loop_invariant rootSpacing known idx w ->
  parent_name (fst entry) ∈ known ->
  exists idx' w',
    build_node idx entry w = (Normal idx', w') /\
    turn entry idx w idx' w' /\
    loop_invariant rootSpacing (fst entry :: known) idx' w'.
Proof.
  intros Hinv Hparent.
  destruct (build_node_ok _ _ _ _ _ Hinv Hparent)
    as (idx' & w' & Hrun & _ & Hinv' & _).
  exists idx', w'. split; [exact Hrun|]. split; [|exact Hinv'].
  destruct Hinv as (Hknown & Hidx & Hsp).
  destruct entry as [name numPoints], w as [vs ns p c t]. simpl in *.
  destruct (Hknown _ Hparent) as [parent Hpar].
  destruct (Hidx _ _ Hpar) as (before & pmin & pmax & Hbefore & Hc).
  simpl in Hbefore. pose proof Hc as Hc'.
  apply corners_Some in Hc' as [Hmin Hmax]. simpl in Hmin, Hmax.
  rewrite (build_node_run idx name numPoints parent before pmin pmax
             rootSpacing vs ns p c t Hpar Hbefore Hmin Hmax Hsp) in Hrun.
  injection Hrun as <- <-.
  exists parent, before, pmin, pmax, rootSpacing. simpl.
  repeat split; assumption.
Qed.

(** What holds of the index and the world at the start of the loop and is
    kept by every turn holds when the loop ends; [done] are the entries
    visited so far. *)
Lemma build_nodes_induction rootSpacing
    (P : list (string * num) -> gmap string loc -> @World num -> Prop)
    entries :
  (forall done idx w entry idx' w',
     P done idx w -> turn entry idx w idx' w' ->
     P (done ++ [entry]) idx' w') ->
  forall known done idx w,
    loop_invariant rootSpacing known idx w ->
    parents_precede known entries ->
    P done idx w ->
    exists idx' w',
      build_nodes entries idx w = (Normal idx', w') /\
      P (done ++ entries) idx' w'.
Proof.
  intros Hstep.
  induction entries as [|entry rest IH]; intros known done idx w Hinv Hpp HP.
  - exists idx, w. rewrite app_nil_r. auto.
  - destruct Hpp as [Hparent Hrest].
    destruct (build_node_turn _ _ _ _ _ Hinv Hparent)
      as (idx1 & w1 & Hrun1 & Hturn & Hinv1).
    destruct (IH _ (done ++ [entry]) _ _ Hinv1 Hrest
                (Hstep _ _ _ _ _ _ HP Hturn))
      as (idx' & w' & Hrun & HP').
    exists idx', w'. simpl. rewrite (bind_Normal _ _ _ _ _ Hrun1).
    rewrite <- app_assoc in HP'. auto.
Qed.

(** The same for the loop of a well-formed document, from the world in
    which the root has just been built. *)
Lemma loaded_induction url data v vs ns p c t
    (P : list (string * num) -> gmap string loc -> @World num -> Prop) :
  well_formed data v ->
  (forall done idx w entry idx' w',
     P done idx w -> turn entry idx w idx' w' ->
     P (done ++ [entry]) idx' w') ->
  (forall numPoints,
     root_numPoints data v = Some numPoints ->
     P [] (<["r" := length ns]> ∅)
       (world_with_root url data numPoints vs ns
          (set_pco_url (Some url) new_pco) c (t ++ [EvXhrSend "GET" url]))) ->
  exists idx_end w_end,
    load url (Loaded data) (mkWorld vs ns p c t)
      = (Normal tt, finished idx_end w_end) /\
    P (hierarchy_entries data v) idx_end w_end.
Proof.
  intros Hwf Hstep Hroot.
  destruct (xhr_onload_ok url data v vs ns (set_pco_url (Some url) new_pco) c
              (t ++ [EvXhrSend "GET" url]) Hwf)
    as (numPoints & idx_end & w_end & Hnum & _ & Hloop & Hload & _).
  cbv zeta in *.
  destruct (build_nodes_induction (doc_spacing data) P
              (hierarchy_entries data v) Hstep ["r"] [] _ _
              (loop_invariant_root url data numPoints vs ns _ c _)
              (parents_precede_entries _ _ Hwf) (Hroot _ Hnum))
    as (idx' & w' & Hloop' & HP).
  rewrite Hloop in Hloop'. injection Hloop' as <- <-.
  exists idx_end, w_end. split; [rewrite load_Loaded; exact Hload | exact HP].
Qed.

End Turns.

(** ** What a completed load leaves untouched, and its index *)

Section Frame.

Context {num : Type} {NumOps : Number num} {NodeOps : NodeClass}.
Implicit Types (vs : list (@Vector3 num)) (ns : list (@Node num)).
Implicit Types (p : @PointCloudOctreeGeometry num) (t : list (@Event num)).
Implicit Types (data : @MetadataDocument num) (w : @World num).
Implicit Types (idx : gmap string loc).

(** X5. A completed load writes to the objects it allocates and to no
    other: every vector and every node that existed before the call is in
    the store afterwards, exactly as it was (the children of old nodes
    included). *)
Theorem load_keeps_old_objects url data v w :
  well_formed data v ->
  exists w',
    load url (Loaded data) w = (Normal tt, w') /\
    (forall n a, vectors w !! n = Some a -> vectors w' !! n = Some a) /\
    (forall n a, nodes w !! n = Some a -> nodes w' !! n = Some a).
Proof.
  intros Hwf. destruct w as [vs ns p c t].
  destruct (loaded_induction url data v vs ns p c t
              (fun _ idx w' =>
                 (forall name n, idx !! name = Some n -> (length ns <= n)%nat) /\
                 (forall n a, vs !! n = Some a -> vectors w' !! n = Some a) /\
                 (forall n a, ns !! n = Some a -> nodes w' !! n = Some a))
              Hwf)
    as (idx_end & w_end & Hload & _ & Hvs & Hns).
  - intros done idx w entry idx' w' (Hge & Hvs & Hns)
      (parent & before & pmin & pmax & S0 & Hpar & Hbefore & _ & _ & -> & ->).
    simpl. split; [|split].
    + intros name n Hn. destruct (decide (fst entry = name)) as [<- | Hne].
      * rewrite lookup_insert_eq in Hn. injection Hn as <-.
        pose proof (Hge _ _ Hpar). apply lookup_lt_Some in Hbefore. lia.
      * rewrite lookup_insert_ne in Hn by exact Hne. eauto.
    + intros n a Hn. apply lookup_kept. eauto.
    + intros n a Hn. apply lookup_kept.
      rewrite list_lookup_insert_ne; [eauto|].
      pose proof (Hge _ _ Hpar). apply lookup_lt_Some in Hn. lia.
  - intros numPoints _. unfold world_with_root. simpl. split; [|split].
    + intros name n Hn. destruct (decide ("r" = name)) as [<- | Hne].
      * rewrite lookup_insert_eq in Hn. injection Hn as <-. lia.
      * rewrite lookup_insert_ne, lookup_empty in Hn by exact Hne. discriminate.
    + intros n a Hn. apply lookup_kept, Hn.
    + intros n a Hn. apply lookup_kept, Hn.
  - exists (finished idx_end w_end). split; [exact Hload|].
    split; [exact Hvs | exact Hns].
Qed.

Lemma last_position_snoc name (done : list (string * num)) entry :
  last_position name (done ++ [entry])
  = if decide (fst entry = name) then Some (length done)
    else last_position name done.
Proof.
  induction done as [|e done IH]; simpl.
  - destruct (decide (fst entry = name)); reflexivity.
  - rewrite IH. destruct (decide (fst entry = name)); [reflexivity|].
    reflexivity.
Qed.

(** X6. The index of a completed load, in full.  The root is the first
    node that the load allocates and the node of the [j]-th entry that the
    loop visits is the [j+1]-th after it; it has the name and the point
    count of that entry.  The index holds each name of an entry, for the
    node of the last entry of that name (a later entry replaces an earlier
    one of the same name, whose node stays in the store), "r" for the root
    unless an entry is called "r", and nothing else. *)
Theorem load_index url data v w :
  well_formed data v ->
  exists w' idx,
    let root := length (nodes w) in
    let entries := hierarchy_entries data v in
    load url (Loaded data) w = (Normal tt, w') /\
    pco_root (pco w') = Some root /\
    pco_nodes (pco w') = Some idx /\
    length (nodes w') = (root + 1 + length entries)%nat /\
    (forall name, idx !! name = index_of_entries root entries name) /\
    (forall j entry, entries !! j = Some entry ->
       exists node,
         nodes w' !! (root + 1 + j)%nat = Some node /\
         node_name node = fst entry /\
         node_numPoints node = Some (snd entry)).
Proof.
  intros Hwf. destruct w as [vs ns p c t]. cbv zeta. simpl.
  destruct (loaded_induction url data v vs ns p c t
              (fun done idx w' =>
                 length (nodes w') = (length ns + 1 + length done)%nat /\
                 pco_root (pco w') = Some (length ns) /\
                 (forall name,
                    idx !! name = index_of_entries (length ns) done name) /\
                 (forall name n, idx !! name = Some n ->
                    (n < length (nodes w'))%nat) /\
                 (forall j entry, done !! j = Some entry ->
                    exists node,
                      nodes w' !! (length ns + 1 + j)%nat = Some node /\
                      node_name node = fst entry /\
                      node_numPoints node = Some (snd entry)))
              Hwf)
    as (idx_end & w_end & Hload & Hlen & Hroot & Hidx & _ & Hnodes).
  - intros done idx w entry idx' w' (Hlen & Hroot & Hidx & Hlt & Hnodes)
      (parent & before & pmin & pmax & S0 & Hpar & Hbefore & _ & _ & -> & ->).
    simpl. split; [|split; [|split; [|split]]].
    + rewrite !length_app, length_insert, Hlen. simpl. lia.
    + exact Hroot.
    + intros name. unfold index_of_entries.
      rewrite last_position_snoc.
      destruct (decide (fst entry = name)) as [<- | Hne].
      * rewrite lookup_insert_eq, Hlen. reflexivity.
      * rewrite lookup_insert_ne by exact Hne. apply Hidx.
    + intros name n Hn. rewrite length_app, length_insert. simpl.
      destruct (decide (fst entry = name)) as [<- | Hne].
      * rewrite lookup_insert_eq in Hn. injection Hn as <-. lia.
      * rewrite lookup_insert_ne in Hn by exact Hne.
        pose proof (Hlt _ _ Hn). lia.
    + intros j e Hj.
      apply lookup_app_Some in Hj as [Hj | [Hge Hj]].
      * destruct (Hnodes _ _ Hj) as (node & Hnode & Hname & Hpoints).
        rewrite (nodes_after_turn _ _ _ _ _ _ _ Hbefore Hnode).
        case_decide as E.
        -- subst parent.
           pose proof (eq_trans (eq_sym Hnode) Hbefore) as E.
           injection E as E. subst node.
           eexists. split; [reflexivity|]. split; simpl; assumption.
        -- eexists. split; [reflexivity|]. split; assumption.
      * destruct (j - length done)%nat as [|k] eqn:Hk; [|destruct k; discriminate].
        injection Hj as <-.
        replace (length ns + 1 + j)%nat with (length (nodes w)) by lia.
        rewrite lookup_after_insert. eexists. split; [reflexivity|].
        split; reflexivity.
  - intros numPoints _. unfold world_with_root. simpl.
    split; [rewrite length_app; simpl; lia|].
    split; [reflexivity|]. split; [|split].
    + intros name. unfold index_of_entries. simpl.
      destruct (decide (name = "r")) as [-> | Hne].
      * apply lookup_insert_eq.
      * rewrite lookup_insert_ne, lookup_empty by congruence. reflexivity.
    + intros name n Hn. rewrite length_app. simpl.
      destruct (decide ("r" = name)) as [<- | Hne].
      * rewrite lookup_insert_eq in Hn. injection Hn as <-. lia.
      * rewrite lookup_insert_ne, lookup_empty in Hn by exact Hne. discriminate.
    + intros j entry Hj. discriminate.
  - exists (finished idx_end w_end), idx_end.
    split; [exact Hload|]. unfold finished. simpl.
    split; [exact Hroot|]. split; [reflexivity|].
    split; [exact Hlen|]. split; [exact Hidx | exact Hnodes].
Qed.

End Frame.

(** ** The tree of a completed load *)

Lemma length_substring0 (n : nat) (s : string) :
  (n <= String.length s)%nat -> String.length (String.substring 0 n s) = n.
Proof.
  revert n. induction s as [|a s IH]; intros [|n] Hn; simpl in *;
    try reflexivity; try lia.
  rewrite IH by lia. reflexivity.
Qed.

Lemma level_of_parent_name (name : string) :
  name <> "" -> level_of (parent_name name) = level_of name - 1.
Proof.
  intros Hne. unfold level_of, parent_name, substring0, js_length.
  rewrite length_substring0 by lia.
  destruct name as [|a s]; [congruence|]. simpl String.length. lia.
Qed.

Section Tree.

Context {num : Type} {NumOps : Number num} {NodeOps : NodeClass}.
Implicit Types (vs : list (@Vector3 num)) (ns : list (@Node num)).
Implicit Types (p : @PointCloudOctreeGeometry num) (t : list (@Event num)).
Implicit Types (data : @MetadataDocument num) (w : @World num).
Implicit Types (idx : gmap string loc).

(** What a turn leaves of an old node: the node, with one more child when
    it is the parent of the turn. *)
Lemma turn_old_node entry idx w idx' w' (m : nat) (a : @Node num) :
  turn entry idx w idx' w' -> nodes w !! m = Some a ->
  exists b,
    nodes w' !! m = Some b /\ same_but_children a b /\
    forall i c, node_children b !! i = Some c ->
      node_children a !! i = Some c \/
      (idx !! parent_name (fst entry) = Some m /\
       i = child_index (fst entry) /\ c = length (nodes w)).
Proof.
  intros (parent & before & pmin & pmax & S0 & Hpar & Hbefore & _ & _ & -> & ->)
    Ha.
  simpl. rewrite (nodes_after_turn _ _ _ _ _ _ _ Hbefore Ha).
  eexists. split; [reflexivity|]. case_decide as E.
  - subst m. pose proof (eq_trans (eq_sym Ha) Hbefore) as E.
    injection E as E. subst a.
    split; [apply same_but_children_set_child|].
    intros i c Hc. simpl in Hc.
    destruct (decide (child_index (fst entry) = i)) as [<- | Hne].
    + rewrite lookup_insert_eq in Hc. injection Hc as <-. right. auto.
    + rewrite lookup_insert_ne in Hc by exact Hne. left. exact Hc.
  - split; [apply same_but_children_refl|]. intros i c Hc. left. exact Hc.
Qed.

Lemma turn_new_node entry idx w idx' w' :
  turn entry idx w idx' w' ->
  exists parent before rootSpacing box,
    idx !! parent_name (fst entry) = Some parent /\
    nodes w !! parent = Some before /\
    pco_spacing (pco w) = Some rootSpacing /\
    length (nodes w') = S (length (nodes w)) /\
    nodes w' !! length (nodes w)
      = Some (entry_node rootSpacing entry parent box) /\
    idx' = <[fst entry := length (nodes w)]> idx.
Proof.
  intros (parent & before & pmin & pmax & S0 & Hpar & Hbefore & _ & Hsp & -> & ->).
  exists parent, before, S0. eexists. simpl.
  split; [exact Hpar|]. split; [exact Hbefore|]. split; [exact Hsp|].
  split; [rewrite length_app, length_insert; simpl; lia|].
  split; [|reflexivity]. rewrite lookup_after_insert. reflexivity.
Qed.

Lemma named_index_turn base entry idx w idx' w' :
  turn entry idx w idx' w' -> named_index base idx w ->
  named_index base idx' w' /\ fst entry <> "".
Proof.
  intros Hturn Hidx.
  destruct (turn_new_node _ _ _ _ _ Hturn)
    as (parent & before & S0 & box & Hpar & Hbefore & _ & _ & Hnew & ->).
  destruct (Hidx _ _ Hpar) as (Hge & Hnonempty & _).
  assert (fst entry <> "") as Hne.
  { intros E. rewrite E in Hnonempty. apply Hnonempty. reflexivity. }
  split; [|exact Hne].
  intros name n Hn. destruct (decide (fst entry = name)) as [<- | Hother].
  - rewrite lookup_insert_eq in Hn. injection Hn as <-.
    apply lookup_lt_Some in Hbefore.
    split; [lia|]. split; [exact Hne|].
    eexists. split; [exact Hnew | reflexivity].
  - rewrite lookup_insert_ne in Hn by exact Hother.
    destruct (Hidx _ _ Hn) as (Hge' & Hne' & a & Ha & Hname).
    split; [exact Hge'|]. split; [exact Hne'|].
    destruct (turn_old_node _ _ _ _ _ _ _ Hturn Ha) as (b & Hb & Hsame & _).
    exists b. split; [exact Hb|]. rewrite <- Hname. symmetry. apply Hsame.
Qed.

Lemma octree_from_turn base entry idx w idx' w' :
  turn entry idx w idx' w' -> named_index base idx w -> octree_from base w ->
  octree_from base w'.
Proof.
  intros Hturn Hidx Htree.
  destruct (named_index_turn _ _ _ _ _ _ Hturn Hidx) as [_ Hne].
  destruct (turn_new_node _ _ _ _ _ Hturn)
    as (parent & before & S0 & box & Hpar & Hbefore & _ & Hlen & Hnew & _).
  destruct (Hidx _ _ Hpar) as (Hge & _ & before' & Hbefore' & Hpname).
  pose proof (eq_trans (eq_sym Hbefore') Hbefore) as E.
  injection E as E. subst before'.
  pose proof (lookup_lt_Some _ _ _ Hbefore) as Hplt.
  intros n node Hn Hnode.
  destruct (decide (n < length (nodes w))%nat) as [Hold | Hfresh].
  - (* an old node *)
    destruct (lookup_lt_is_Some_2 _ _ Hold) as [a Ha].
    destruct (turn_old_node _ _ _ _ _ _ _ Hturn Ha) as (b & Hb & Hsame & Hch).
    pose proof (eq_trans (eq_sym Hnode) Hb) as E. injection E as E. subst b.
    destruct (Htree _ _ Hn Ha) as (Hname & Hlevel & Hindex & Hparent & Hchildren).
    destruct Hsame as (En & Ei & _ & El & _ & _ & _ & Ep).
    unfold linked. rewrite <- En, <- Ei, <- El, <- Ep.
    split; [exact Hname|]. split; [exact Hlevel|]. split; [exact Hindex|].
    split.
    + destruct (node_parent a) as [q|]; [|exact Hparent].
      destruct Hparent as (Hq & above & Habove & Haname & Halevel).
      split; [exact Hq|].
      destruct (turn_old_node _ _ _ _ _ _ _ Hturn Habove)
        as (above' & Habove' & Hsame' & _).
      exists above'. split; [exact Habove'|].
      destruct Hsame' as (En' & _ & _ & El' & _).
      rewrite <- En', <- El'. split; assumption.
    + intros i c Hc. destruct (Hch _ _ Hc) as [Hc' | (Hpar' & -> & ->)].
      * destruct (Hchildren _ _ Hc') as (Hlt & below & Hbelow & Hbp & Hbi).
        split; [exact Hlt|].
        destruct (turn_old_node _ _ _ _ _ _ _ Hturn Hbelow)
          as (below' & Hbelow' & Hsame' & _).
        exists below'. split; [exact Hbelow'|].
        destruct Hsame' as (_ & Ei' & _ & _ & _ & _ & _ & Ep').
        rewrite <- Ei', <- Ep'. split; assumption.
      * split; [exact Hold|].
        pose proof (eq_trans (eq_sym Hpar) Hpar') as E. injection E as ->.
        eexists. split; [exact Hnew|]. split; reflexivity.
  - (* the node of the entry *)
    assert (n = length (nodes w)) as ->.
    { apply lookup_lt_Some in Hnode. lia. }
    pose proof (eq_trans (eq_sym Hnode) Hnew) as E. injection E as E.
    subst node. unfold linked. simpl.
    split; [exact Hne|]. split; [reflexivity|]. split; [reflexivity|].
    split.
    + split; [lia|].
      destruct (turn_old_node _ _ _ _ _ _ _ Hturn Hbefore)
        as (above & Habove & Hsame & _).
      exists above. split; [exact Habove|].
      destruct Hsame as (En & _ & _ & El & _).
      rewrite <- En, <- El. split; [exact Hpname|].
      destruct (Htree _ _ Hge Hbefore) as (_ & Hlevel & _).
      rewrite Hlevel, Hpname. f_equal. apply level_of_parent_name, Hne.
    + intros i c Hc. rewrite lookup_empty in Hc. discriminate.
Qed.

(** X7. The nodes of a completed load form a tree.  The node of every
    name in the index has that name.  Every node has the level and the
    index that its name spells; the root, and only the root, has no
    parent; the parent of any other node was allocated before it, has the
    name of the node without its last character and is one level above;
    every child of a node was allocated after it, has it as parent and
    sits under its own index. *)
Theorem load_builds_octree url data v w :
  well_formed data v ->
  exists w' idx,
    load url (Loaded data) w = (Normal tt, w') /\
    pco_nodes (pco w') = Some idx /\
    named_index (length (nodes w)) idx w' /\
    octree_from (length (nodes w)) w'.
Proof.
  intros Hwf. destruct w as [vs ns p c t]. simpl.
  destruct (loaded_induction url data v vs ns p c t
              (fun _ idx w' =>
                 named_index (length ns) idx w' /\ octree_from (length ns) w')
              Hwf)
    as (idx_end & w_end & Hload & Hidx & Htree).
  - intros done idx w entry idx' w' [Hidx Htree] Hturn. split.
    + eapply named_index_turn; eassumption.
    + eapply octree_from_turn; eassumption.
  - intros numPoints _. unfold world_with_root. split.
    + intros name n Hn. simpl.
      destruct (decide ("r" = name)) as [<- | Hne].
      * rewrite lookup_insert_eq in Hn. injection Hn as <-.
        split; [lia|]. split; [discriminate|].
        eexists. split; [rewrite lookup_grown0; reflexivity | reflexivity].
      * rewrite lookup_insert_ne, lookup_empty in Hn by exact Hne. discriminate.
    + intros n node Hn Hnode. simpl in Hnode.
      assert (n = length ns) as ->.
      { apply lookup_lt_Some in Hnode. rewrite length_app in Hnode.
        simpl in Hnode. lia. }
      rewrite lookup_grown0 in Hnode. injection Hnode as <-.
      unfold linked. simpl.
      split; [discriminate|]. split; [reflexivity|]. split; [reflexivity|].
      split; [split; reflexivity|].
      intros i child Hc. rewrite lookup_empty in Hc. discriminate.
  - exists (finished idx_end w_end), idx_end.
    split; [exact Hload|]. split; [reflexivity|].
    split; [exact Hidx | exact Htree].
Qed.

End Tree.

(** ** The boxes of a completed load, in exact arithmetic *)

Section TurnBoxes.

Context {num : Type} {NumOps : Number num} {NodeOps : NodeClass}.
Implicit Types (w : @World num) (idx : gmap string loc).

(** The node of a turn and its box. *)
Lemma turn_new_box entry idx w idx' w' :
  turn entry idx w idx' w' ->
  exists parent before pmin pmax rootSpacing box,
    idx !! parent_name (fst entry) = Some parent /\
    nodes w !! parent = Some before /\
    corners w (node_boundingBox before) = Some (pmin, pmax) /\
    pco_spacing (pco w) = Some rootSpacing /\
    nodes w' !! length (nodes w)
      = Some (entry_node rootSpacing entry parent box) /\
    corners w' box = Some (child_corners pmin pmax (child_index (fst entry))) /\
    length (nodes w') = S (length (nodes w)) /\
    vectors_kept w w' /\ pco w' = pco w.
Proof.
  intros (parent & before & pmin & pmax & S0 & Hpar & Hbefore & Hc & Hsp & -> & ->).
  exists parent, before, pmin, pmax, S0. eexists. simpl.
  split; [exact Hpar|]. split; [exact Hbefore|]. split; [exact Hc|].
  split; [exact Hsp|].
  split; [rewrite lookup_after_insert; reflexivity|].
  split.
  { rewrite (surjective_pairing (child_corners pmin pmax _)).
    apply corners_Some. simpl. split.
    - rewrite lookup_grown0. reflexivity.
    - rewrite lookup_grown. reflexivity. }
  split; [rewrite length_app, length_insert; simpl; lia|].
  split; [|reflexivity].
  intros n a Hn. simpl. apply lookup_kept, Hn.
Qed.

End TurnBoxes.

(** ** The nodes of the legacy hierarchy *)

Lemma get_last_char (s : string) :
  s <> EmptyString -> String.get (String.length s - 1) s = last_char s.
Proof.
  induction s as [|c rest IH]; intros Hne; [congruence|].
  destruct rest as [|c' rest']; [reflexivity|].
  change (last_char (String c (String c' rest')))
    with (last_char (String c' rest')).
  rewrite <- IH by discriminate.
  simpl String.length. simpl. rewrite Nat.sub_0_r. reflexivity.
Qed.

Lemma octal_digit_is_digit (c : ascii) (d : Z) :
  octal_digit_of_ascii c = Some d -> digit_of_ascii c = Some d.
Proof.
  unfold octal_digit_of_ascii, digit_of_ascii.
  destruct ((48 <=? N_of_ascii c)%N) eqn:E1; simpl; [|discriminate].
  destruct ((N_of_ascii c <=? 55)%N) eqn:E2; [|discriminate].
  intros [= <-].
  apply N.leb_le in E2.
  assert ((N_of_ascii c <=? 57)%N = true) as -> by (apply N.leb_le; lia).
  reflexivity.
Qed.

(** What [parseInt] reads from a name that ends in an octal digit is that
    digit. *)
Lemma child_index_octal (name : string) (d : Z) :
  last_octal_digit name = Some d -> child_index name = Int d.
Proof.
  unfold last_octal_digit, child_index, charAt, js_length.
  destruct name as [|c0 rest0] eqn:Hname; [discriminate|].
  rewrite <- Hname. intros Hd.
  assert (name <> EmptyString) as Hne by (rewrite Hname; discriminate).
  assert (0 < String.length name)%nat as Hlen
    by (rewrite Hname; simpl; lia).
  destruct (Z.of_nat (String.length name) - 1 <? 0)%Z eqn:E; [lia|].
  replace (Z.to_nat (Z.of_nat (String.length name) - 1))
    with (String.length name - 1)%nat by lia.
  rewrite (get_last_char name Hne).
  destruct (last_char name) as [c|]; [|discriminate].
  unfold parseInt. rewrite (octal_digit_is_digit c d Hd). reflexivity.
Qed.

Section LegacyNodes.

Context {num : Type} {NumOps : Number num} {NodeOps : NodeClass}.
Implicit Types (vs : list (@Vector3 num)) (ns : list (@Node num)).
Implicit Types (p : @PointCloudOctreeGeometry num) (t : list (@Event num)).
Implicit Types (data : @MetadataDocument num) (w : @World num).
Implicit Types (idx : gmap string loc).

Lemma corners_kept_any w w' box (b : @Vector3 num * @Vector3 num) :
  vectors_kept w w' -> corners w box = Some b -> corners w' box = Some b.
Proof. destruct b. apply corners_kept. Qed.

(** What a turn leaves of the children of an old node. *)
Lemma turn_old_children entry idx w idx' w' (m : nat) (a : @Node num) :
  turn entry idx w idx' w' -> nodes w !! m = Some a ->
  exists b,
    nodes w' !! m = Some b /\ same_but_children a b /\
    node_children b
    = if decide (idx !! parent_name (fst entry) = Some m)
      then <[child_index (fst entry) := length (nodes w)]> (node_children a)
      else node_children a.
Proof.
  intros (parent & before & pmin & pmax & S0 & Hpar & Hbefore & _ & _ & -> & ->)
    Ha.
  cbn [nodes].
  rewrite (nodes_after_turn _ _ _ _ _ _ _ Hbefore Ha).
  case_decide as Hm.
  - subst m. pose proof (eq_trans (eq_sym Ha) Hbefore) as E.
    injection E as E. subst a.
    eexists. split; [reflexivity|].
    rewrite (decide_True (P := idx !! parent_name (fst entry) = Some parent))
      by exact Hpar.
    split; [apply same_but_children_set_child | reflexivity].
  - eexists. split; [reflexivity|].
    rewrite (decide_False (P := idx !! parent_name (fst entry) = Some m))
      by (intros E; pose proof (eq_trans (eq_sym Hpar) E) as E';
          injection E' as E'; exact (Hm E')).
    split; [apply same_but_children_refl | reflexivity].
Qed.

(** The entries visited before a turn keep what is said of them, and the
    entry of the turn gets it. *)
Lemma node_of_entry_turn rootSpacing base done entry idx w idx' w' :
  turn entry idx w idx' w' ->
  named_index base idx w ->
  (forall name, idx !! name = index_of_entries base done name) ->
  length (nodes w) = (base + 1 + length done)%nat ->
  pco_spacing (pco w) = Some rootSpacing ->
  (forall i e, done !! i = Some e ->
     node_of_entry rootSpacing base done idx w i e) ->
  forall i e, (done ++ [entry]) !! i = Some e ->
    node_of_entry rootSpacing base (done ++ [entry]) idx' w' i e.
Proof.
  intros Hturn Hnamed Hidx Hlen Hsp Hdone i e Hi.
  destruct (turn_new_box _ _ _ _ _ Hturn)
    as (parent & before & pmin & pmax & S0 & box & Hpar & Hbefore & Hc & Hsp'
        & Hnew & Hcnew & _ & Hkept & _).
  pose proof (eq_trans (eq_sym Hsp) Hsp') as E. injection E as <-.
  destruct (Hnamed _ _ Hpar) as (_ & _ & before' & Hbefore' & Hpname).
  pose proof (eq_trans (eq_sym Hbefore') Hbefore) as E.
  injection E as E. subst before'.
  assert (idx' = <[fst entry := length (nodes w)]> idx) as Hidx'.
  { destruct Hturn as (? & ? & ? & ? & ? & _ & _ & _ & _ & -> & _).
    reflexivity. }
  apply lookup_app_Some in Hi as [Hi | [Hge Hi]].
  - (* an entry visited before *)
    pose proof (lookup_lt_Some _ _ _ Hi) as Hlt.
    destruct (Hdone _ _ Hi)
      as (node & q & above & qmin & qmax & Hnode & Hname & Hlevel & Hindex
          & Hoctal & Hpoints & Hspacing & Hq & Hparent & Habove & Haname
          & Hqc & Hnc & Hchild & Hreg).
    destruct (turn_old_children _ _ _ _ _ _ _ Hturn Hnode)
      as (node' & Hnode' & Hsame & _).
    destruct (turn_old_children _ _ _ _ _ _ _ Hturn Habove)
      as (above' & Habove' & Hsame' & Hchildren').
    destruct Hsame as (En & Ei & Eb & El & Ep & Es & _ & Epar).
    destruct Hsame' as (En' & _ & Eb' & _).
    exists node', q, above', qmin, qmax. unfold node_of_entry.
    rewrite <- En, <- Ei, <- Eb, <- El, <- Ep, <- Es, <- Epar, <- En', <- Eb'.
    split; [exact Hnode'|]. split; [exact Hname|]. split; [exact Hlevel|].
    split; [exact Hindex|]. split; [exact Hoctal|]. split; [exact Hpoints|].
    split; [exact Hspacing|].
    split; [rewrite take_app_le by lia; exact Hq|].
    split; [exact Hparent|]. split; [exact Habove'|]. split; [exact Haname|].
    split; [eapply corners_kept; eassumption|].
    split; [eapply corners_kept_any; eassumption|].
    split.
    + intros Hlater. rewrite Hchildren'.
      assert (node_children above !! node_index node
              = Some (base + 1 + i)%nat) as Hold.
      { apply Hchild. intros k later Hk Hlk.
        apply (Hlater k later Hk). apply lookup_app_l_Some. exact Hlk. }
      case_decide as Hsame; [|exact Hold].
      rewrite lookup_insert_ne; [exact Hold|].
      rewrite Hindex.
      apply (Hlater (length done) entry Hlt).
      * rewrite lookup_app_r by lia. rewrite Nat.sub_diag. reflexivity.
      * pose proof (eq_trans (eq_sym Hpar) Hsame) as E. injection E as ->.
        pose proof (eq_trans (eq_sym Hbefore) Habove) as E.
        injection E as ->. congruence.
    + intros Hlater. rewrite Hidx'.
      rewrite lookup_insert_ne.
      * apply Hreg. intros k later Hk Hlk.
        apply (Hlater k later Hk). apply lookup_app_l_Some. exact Hlk.
      * apply (Hlater (length done) entry Hlt).
        rewrite lookup_app_r by lia. rewrite Nat.sub_diag. reflexivity.
  - (* the entry of the turn *)
    destruct (i - length done)%nat as [|k] eqn:Hk; [|destruct k; discriminate].
    injection Hi as <-.
    assert (i = length done) as -> by lia.
    destruct (turn_old_children _ _ _ _ _ _ _ Hturn Hbefore)
      as (above' & Habove' & Hsame' & Hchildren').
    destruct Hsame' as (En' & _ & Eb' & _).
    rewrite decide_True in Hchildren' by exact Hpar.
    exists (entry_node rootSpacing entry parent box), parent, above', pmin, pmax.
    unfold node_of_entry. rewrite <- En', <- Eb', <- Hlen. simpl.
    split; [exact Hnew|]. split; [reflexivity|]. split; [reflexivity|].
    split; [reflexivity|]. split; [intros d Hd; apply child_index_octal, Hd|].
    split; [reflexivity|]. split; [reflexivity|].
    split.
    { rewrite take_app_length. rewrite <- Hidx. exact Hpar. }
    split; [reflexivity|]. split; [exact Habove'|]. split; [exact Hpname|].
    split; [eapply corners_kept; eassumption|].
    split; [exact Hcnew|].
    split.
    + intros _. rewrite Hchildren'. apply lookup_insert_eq.
    + intros _. rewrite Hidx'. apply lookup_insert_eq.
Qed.

(** C1, as amended.  In a legacy document (version at most 1.4) let the
    hierarchy have a first entry, and let every entry after the first have
    its parent in the index before it: the name of the entry without its
    last character is "r", the key under which the root is indexed
    whatever the first entry is called, or the name of an earlier entry
    after the first.  Then [load] completes, and of each entry after the
    first it leaves what [node_of_entry] says: a node with the level
    [length name - 1], the index read from the last character (the digit
    itself when that is an octal digit), the box that [createChildAABB]
    computes from the box of its parent for that index, the root spacing
    divided by [2^level] and the point count of the entry; its parent is
    the node indexed under the name without its last character when the
    entry was visited; it is the child of that node under its index
    unless a later entry has the same parent name and index, and the
    index has it under its name unless a later entry has the same name. *)
Theorem legacy_hierarchy_nodes url data v first rest w :
  Version.parse (doc_version data) = Some v ->
  Version.upTo v "1.4" = true ->
  doc_hierarchy data = first :: rest ->
  parents_precede ["r"] rest ->
  exists w' idx,
    load url (Loaded data) w = (Normal tt, w') /\
    pco_nodes (pco w') = Some idx /\
    forall i entry, rest !! i = Some entry ->
      node_of_entry (doc_spacing data) (length (nodes w)) rest idx w' i entry.
Proof.
  intros Hv Hlegacy Hh Hpp.
  pose proof (well_formed_legacy _ _ _ _ Hv Hh Hpp) as Hwf.
  assert (hierarchy_entries data v = rest) as Hrest
    by (unfold hierarchy_entries; rewrite Hlegacy, Hh; reflexivity).
  destruct w as [vs ns p c t]. simpl.
  destruct (loaded_induction url data v vs ns p c t
              (fun done idx w' =>
                 named_index (length ns) idx w' /\
                 (forall name,
                    idx !! name = index_of_entries (length ns) done name) /\
                 length (nodes w') = (length ns + 1 + length done)%nat /\
                 pco_spacing (pco w') = Some (doc_spacing data) /\
                 forall i e, done !! i = Some e ->
                   node_of_entry (doc_spacing data) (length ns) done idx w' i e)
              Hwf)
    as (idx_end & w_end & Hload & _ & _ & _ & _ & Hnodes).
  - intros done idx w entry idx' w' (Hnamed & Hidx & Hlen & Hsp & Hdone) Hturn.
    split; [eapply named_index_turn; eassumption|].
    destruct (turn_new_box _ _ _ _ _ Hturn)
      as (parent & before & pmin & pmax & S0 & box & Hpar & Hbefore & _ & _
          & _ & _ & Hlen' & _ & Hpco).
    split.
    { assert (idx' = <[fst entry := length (nodes w)]> idx) as ->.
      { destruct Hturn as (? & ? & ? & ? & ? & _ & _ & _ & _ & -> & _).
        reflexivity. }
      intros name. unfold index_of_entries. rewrite last_position_snoc.
      destruct (decide (fst entry = name)) as [<- | Hne].
      - rewrite lookup_insert_eq, Hlen. reflexivity.
      - rewrite lookup_insert_ne by exact Hne. apply Hidx. }
    split; [rewrite Hlen', Hlen, length_app; simpl; lia|].
    split; [rewrite Hpco; exact Hsp|].
    eapply node_of_entry_turn; eassumption.
  - intros numPoints _. unfold world_with_root.
    split.
    { intros name n Hn. simpl.
      destruct (decide ("r" = name)) as [<- | Hne].
      - rewrite lookup_insert_eq in Hn. injection Hn as <-.
        split; [lia|]. split; [discriminate|].
        eexists. split; [rewrite lookup_grown0; reflexivity | reflexivity].
      - rewrite lookup_insert_ne, lookup_empty in Hn by exact Hne.
        discriminate. }
    split.
    { intros name. unfold index_of_entries. simpl.
      destruct (decide (name = "r")) as [-> | Hne].
      - apply lookup_insert_eq.
      - rewrite lookup_insert_ne, lookup_empty by congruence. reflexivity. }
    split; [simpl; rewrite length_app; simpl; lia|].
    split; [reflexivity|].
    intros i e Hi. discriminate.
  - rewrite Hrest in Hnodes.
    exists (finished idx_end w_end), idx_end.
    split; [exact Hload|]. split; [reflexivity|].
    intros i entry Hi. exact (Hnodes i entry Hi).
Qed.

End LegacyNodes.

Lemma Qc_pow2_succ (l : Z) :
  0 <= l -> Qc_pow2 (l + 1) = (Q2Qc 2 * Qc_pow2 l)%Qc.
Proof.
  intros Hl. destruct l as [|q|q]; [| |lia].
  - simpl. ring.
  - change (Z.pos q + 1) with (Z.pos (q + 1)). unfold Qc_pow2.
    rewrite Pos.add_1_r, Pos2Nat.inj_succ. reflexivity.
Qed.

Lemma Qc_div_twice (a b : Qc) :
  num_div (num_div a b) num_two = num_div a (Q2Qc 2 * b)%Qc.
Proof.
  apply Qc_is_canon.
  unfold num_div, num_two, Qc_Number, Qcdiv, Qcmult, Qcinv. simpl.
  repeat rewrite Qred_correct.
  rewrite Qinv_mult_distr. ring.
Qed.

Lemma Qc_div_one (a : Qc) : num_div a (num_pow2 0) = a.
Proof.
  apply Qc_is_canon.
  unfold num_div, num_pow2, Qc_Number, Qc_pow2, Qcdiv, Qcmult, Qcinv. simpl.
  repeat rewrite Qred_correct. change (Qinv 1) with 1%Q. ring.
Qed.

Lemma axis_half_inside upper (lo hi : Qc) :
  leq lo hi ->
  leq lo (fst (axis_half upper lo hi)) /\
  leq (fst (axis_half upper lo hi)) (snd (axis_half upper lo hi)) /\
  leq (snd (axis_half upper lo hi)) hi.
Proof. destruct upper; simpl; intros; repeat split; qc_order. Qed.

Lemma leq_trans_Qc (a b c : Qc) : leq a b -> leq b c -> leq a c.
Proof. intros; qc_order. Qed.

Lemma leq_refl_Qc (a : Qc) : leq a a.
Proof. qc_order. Qed.

(** One axis of a child of a box at the level [l]: it is at the level
    [l + 1]. *)
Lemma axis_at_level upper (rlo rhi lo hi : Qc) (l : Z) :
  0 <= l ->
  leq lo hi -> leq rlo lo -> leq hi rhi ->
  num_sub hi lo = num_div (num_sub rhi rlo) (num_pow2 l) ->
  let c := axis_half upper lo hi in
  leq (fst c) (snd c) /\
  (leq rlo (fst c) /\ leq (snd c) rhi) /\
  num_sub (snd c) (fst c) = num_div (num_sub rhi rlo) (num_pow2 (l + 1)).
Proof.
  intros Hl Ho Hlo Hhi He c. subst c.
  destruct (axis_half_inside upper lo hi Ho) as (H1 & H2 & H3).
  split; [exact H2|]. split.
  - split; eapply leq_trans_Qc; eassumption.
  - rewrite axis_half_extent, He, Qc_div_twice.
    change (@num_pow2 Qc _) with Qc_pow2. rewrite Qc_pow2_succ by exact Hl.
    reflexivity.
Qed.

Lemma child_box_at_level (root box : @Vector3 Qc * @Vector3 Qc) index (l : Z) :
  0 <= l ->
  box_at_level root box l ->
  box_at_level root (child_corners (fst box) (snd box) index) (l + 1).
Proof.
  intros Hl ((Ox & Oy & Oz) & ((Cx1 & Cx2) & (Cy1 & Cy2) & (Cz1 & Cz2))
             & (Ex & Ey & Ez)).
  destruct (child_corners_axes (fst box) (snd box) index)
    as ((Xa & Xb) & (Ya & Yb) & (Za & Zb)).
  pose proof (axis_at_level (bitand index 4 >? 0) _ _ _ _ l Hl Ox Cx1 Cx2 Ex)
    as (X1 & X2 & X3).
  pose proof (axis_at_level (bitand index 2 >? 0) _ _ _ _ l Hl Oy Cy1 Cy2 Ey)
    as (Y1 & Y2 & Y3).
  pose proof (axis_at_level (bitand index 1 >? 0) _ _ _ _ l Hl Oz Cz1 Cz2 Ez)
    as (Z1 & Z2 & Z3).
  unfold box_at_level, ordered, contained, on_every_axis, extent.
  rewrite Xa, Xb, Ya, Yb, Za, Zb. tauto.
Qed.

Lemma level_of_nonneg (name : string) : name <> "" -> 0 <= level_of name.
Proof.
  intros Hne. destruct name as [|a s]; [congruence|].
  unfold level_of, js_length. simpl String.length. lia.
Qed.

Section Boxes.

Context {NodeOps : NodeClass}.
Implicit Types (vs : list (@Vector3 Qc)) (ns : list (@Node Qc)).
Implicit Types (p : @PointCloudOctreeGeometry Qc) (t : list (@Event Qc)).
Implicit Types (data : @MetadataDocument Qc) (w : @World Qc).
Implicit Types (idx : gmap string loc).

(** X8. In exact arithmetic, when the box that the document declares has
    its minimum at most its maximum on each axis, a completed load gives
    every node a box that lies in the box of the descriptor and whose
    extent on each axis is the extent of that box divided by [2^level],
    and the spacing of the document divided by [2^level], where [level] is
    the length of its name less one. *)
Theorem load_boxes_exact url data v w :
  well_formed data v ->
  ordered (declared (doc_boundingBox data)) ->
  exists w' rootBox root,
    load url (Loaded data) w = (Normal tt, w') /\
    pco_boundingBox (pco w') = Some rootBox /\
    corners w' rootBox = Some root /\
    forall n node,
      (length (nodes w) <= n)%nat -> nodes w' !! n = Some node ->
      exists box,
        corners w' (node_boundingBox node) = Some box /\
        box_at_level root box (level_of (node_name node)) /\
        node_spacing node
          = Some (num_div (doc_spacing data)
                          (num_pow2 (level_of (node_name node)))).
Proof.
  intros Hwf Hord. destruct w as [vs ns p c t]. simpl.
  set (off := declared_min (doc_boundingBox data)).
  set (root := (vsub (declared_min (doc_boundingBox data)) off,
                vsub (declared_max (doc_boundingBox data)) off)).
  set (rootBox := mkBox3 (length vs) (length vs + 1)%nat).
  destruct (loaded_induction url data v vs ns p c t
              (fun _ idx w' =>
                 named_index (length ns) idx w' /\
                 pco_spacing (pco w') = Some (doc_spacing data) /\
                 pco_boundingBox (pco w') = Some rootBox /\
                 corners w' rootBox = Some root /\
                 forall n node,
                   (length ns <= n)%nat -> nodes w' !! n = Some node ->
                   exists box,
                     corners w' (node_boundingBox node) = Some box /\
                     box_at_level root box (level_of (node_name node)) /\
                     node_spacing node
                       = Some (num_div (doc_spacing data)
                                 (num_pow2 (level_of (node_name node)))))
              Hwf)
    as (idx_end & w_end & Hload & _ & _ & Hbox & Hroot & Hnodes).
  - intros done idx w entry idx' w' (Hidx & Hsp & Hbox & Hroot & Hnodes) Hturn.
    destruct (named_index_turn _ _ _ _ _ _ Hturn Hidx) as [Hidx' Hne].
    destruct (turn_new_box _ _ _ _ _ Hturn)
      as (parent & before & pmin & pmax & S0 & box & Hpar & Hbefore & Hc & Hsp'
          & Hnew & Hcnew & Hlen & Hkept & Hpco).
    split; [exact Hidx'|]. rewrite Hpco.
    split; [exact Hsp|]. split; [exact Hbox|].
    split; [eapply corners_kept; eassumption|].
    destruct (Hidx _ _ Hpar) as (Hge & Hpne & before' & Hbefore' & Hpname).
    pose proof (eq_trans (eq_sym Hbefore') Hbefore) as E.
    injection E as E. subst before'.
    intros n node Hn Hnode.
    destruct (decide (n < length (nodes w))%nat) as [Hold | Hfresh].
    + destruct (lookup_lt_is_Some_2 _ _ Hold) as [a Ha].
      destruct (turn_old_node _ _ _ _ _ _ _ Hturn Ha) as (b & Hb & Hsame & _).
      pose proof (eq_trans (eq_sym Hnode) Hb) as E. injection E as E. subst b.
      destruct (Hnodes _ _ Hn Ha) as (abox & Hab & Hal & Has).
      destruct Hsame as (En & _ & Eb & _ & _ & Es & _).
      rewrite <- En, <- Eb, <- Es. exists abox.
      split; [|split; assumption].
      destruct abox. eapply corners_kept; eassumption.
    + assert (n = length (nodes w)) as ->.
      { apply lookup_lt_Some in Hnode. lia. }
      pose proof (eq_trans (eq_sym Hnode) Hnew) as E. injection E as E.
      subst node. simpl.
      exists (child_corners pmin pmax (child_index (fst entry))).
      split; [exact Hcnew|].
      destruct (Hnodes _ _ Hge Hbefore) as (pbox & Hpb & Hpl & _).
      pose proof (eq_trans (eq_sym Hpb) Hc) as E. injection E as E. subst pbox.
      rewrite Hpname in Hpl.
      pose proof (level_of_parent_name _ Hne) as Hlevel.
      pose proof (level_of_nonneg _ Hpne) as Hnonneg.
      replace (level_of (fst entry))
        with (level_of (parent_name (fst entry)) + 1) by lia.
      split.
      * apply (child_box_at_level root (pmin, pmax)); assumption.
      * pose proof (eq_trans (eq_sym Hsp) Hsp') as E. injection E as <-.
        reflexivity.
  - intros numPoints _. unfold world_with_root.
    split.
    { intros name n Hn. simpl.
      destruct (decide ("r" = name)) as [<- | Hne].
      - rewrite lookup_insert_eq in Hn. injection Hn as <-.
        split; [lia|]. split; [discriminate|].
        eexists. split; [rewrite lookup_grown0; reflexivity | reflexivity].
      - rewrite lookup_insert_ne, lookup_empty in Hn by exact Hne.
        discriminate. }
    split; [reflexivity|]. split; [reflexivity|].
    assert (corners
              (mkWorld (vs ++ normalized_vectors data)
                 (ns ++ [root_node data numPoints (length vs)])
                 (descriptor_of (set_pco_url (Some url) new_pco) url data
                    (length vs) (length ns)) c
                 ((t ++ [EvXhrSend "GET" url])
                  ++ events_before_hierarchy data (length vs) (length ns)))
              rootBox = Some root) as Hroot.
    { apply corners_Some. simpl. split.
      - rewrite lookup_grown0. reflexivity.
      - rewrite lookup_grown. reflexivity. }
    split; [exact Hroot|].
    intros n node Hn Hnode. simpl in Hnode.
    assert (n = length ns) as ->.
    { apply lookup_lt_Some in Hnode. rewrite length_app in Hnode.
      simpl in Hnode. lia. }
    rewrite lookup_grown0 in Hnode. injection Hnode as <-.
    exists root. split; [exact Hroot|]. simpl node_name. simpl node_spacing.
    change (level_of "r") with 0.
    split; [|rewrite Qc_div_one; reflexivity].
    destruct Hord as (Ox & Oy & Oz).
    unfold box_at_level, ordered, contained, on_every_axis, extent.
    rewrite !Qc_div_one. subst root off. simpl.
    repeat split; try apply leq_refl_Qc; apply Qc_sub_le; assumption.
  - exists (finished idx_end w_end), rootBox, root.
    split; [exact Hload|]. split; [exact Hbox|].
    split; [exact Hroot | exact Hnodes].
Qed.

End Boxes.

(** ** What the loader reads of the hierarchy *)

Lemma bind_cong {S A B} (m m' : M S A) (k k' : A -> M S B) (s : S) :
  m s = m' s ->
  (forall a s1, m s = (Normal a, s1) -> k a s1 = k' a s1) ->
  bind m k s = bind m' k' s.
Proof.
  intros Hm Hk. unfold bind. rewrite <- Hm.
  destruct (m s) as [[a | e] s1]; [apply Hk|]; reflexivity.
Qed.

Lemma upTo_1_4_1_5 (v : Version.t) :
  Version.upTo v "1.5" = false -> Version.upTo v "1.4" = false.
Proof.
  unfold Version.upTo.
  change (Version.parse "1.5") with (Some (Version.mk 1 5)).
  change (Version.parse "1.4") with (Some (Version.mk 1 4)).
  unfold Version.leb. simpl. lia.
Qed.

Section Reads.

Context {num : Type} {NumOps : Number num} {NodeOps : NodeClass}.
Implicit Types (data : @MetadataDocument num) (w : @World num).
Implicit Types (h : list (string * num)).

(** The version that the header returns is the one that the document
    spells. *)
Lemma read_header_version url data w (v' : Version.t) w' v :
  Version.parse (doc_version data) = Some v ->
  read_header url data w = (Normal v', w') -> v' = v.
Proof.
  intros Hparse. unfold read_header, new_Version. rewrite Hparse.
  intros Hrun.
  apply bind_inv in Hrun as [(e & Hrun & E) | (a & s1 & Hrun1 & Hrun)];
    [discriminate|].
  injection Hrun1 as <- <-.
  repeat (apply bind_inv in Hrun as [(e & _ & E) | (? & ? & _ & Hrun)];
          [discriminate|]).
  injection Hrun as <- _. reflexivity.
Qed.

(** The handler on two documents that differ in their hierarchy, whose
    roots read the same point count and whose loops visit the same
    entries. *)
Lemma xhr_onload_hierarchy url data h h' v w :
  Version.parse (doc_version data) = Some v ->
  (Version.upTo v "1.5" = true -> head h = head h') ->
  (Version.upTo v "1.4" = true -> tail h = tail h') ->
  xhr_onload url (set_doc_hierarchy h data) w
  = xhr_onload url (set_doc_hierarchy h' data) w.
Proof.
  intros Hparse Hhead Htail.
  unfold xhr_onload, build_descriptor_and_root.
  rewrite !bind_bind. apply bind_cong; [reflexivity|].
  intros v' w1 Hheader. cbv beta.
  apply (read_header_version _ _ _ _ _ _ Hparse) in Hheader. subst v'.
  rewrite ?bind_bind. apply bind_cong; [reflexivity|]. intros box w2 _.
  cbv beta. rewrite ?bind_bind. apply bind_cong; [reflexivity|].
  intros [] w3 _. cbv beta. rewrite ?bind_bind. apply bind_cong.
  - unfold build_root, first_numPoints. simpl doc_hierarchy.
    destruct (Version.upTo v "1.5"); [|reflexivity].
    specialize (Hhead eq_refl).
    destruct h as [|[n1 p1] r1], h' as [|[n2 p2] r2]; try discriminate;
      [reflexivity|].
    injection Hhead as -> ->. reflexivity.
  - intros idx w4 _. cbv beta.
    rewrite !(bind_Normal _ _ _ _ _ (ret_run _ _)). simpl fst. simpl snd.
    unfold build_hierarchy. simpl doc_hierarchy.
    destruct (Version.upTo v "1.4"); [|reflexivity].
    rewrite (Htail eq_refl). reflexivity.
Qed.

(** X9. After the format 1.4 the loader reads of the hierarchy its first
    entry at most: a document of a later version gives the same run of
    [load], completed or thrown, as the document with all entries but the
    first removed. *)
Theorem load_reads_first_entry_only url data v h w :
  Version.parse (doc_version data) = Some v ->
  Version.upTo v "1.4" = false ->
  load url (Loaded (set_doc_hierarchy h data)) w
  = load url (Loaded (set_doc_hierarchy (take 1 h) data)) w.
Proof.
  intros Hparse H14. destruct w as [vs ns p c t]. rewrite !load_Loaded.
  apply (xhr_onload_hierarchy url data h (take 1 h) v); [exact Hparse | |].
  - intros _. destruct h; reflexivity.
  - rewrite H14. discriminate.
Qed.

(** X10. After the format 1.5 the loader does not read the hierarchy at
    all: two documents of a later version that differ in their hierarchy
    only give the same run of [load]. *)
Theorem load_ignores_hierarchy url data v h h' w :
  Version.parse (doc_version data) = Some v ->
  Version.upTo v "1.5" = false ->
  load url (Loaded (set_doc_hierarchy h data)) w
  = load url (Loaded (set_doc_hierarchy h' data)) w.
Proof.
  intros Hparse H15. destruct w as [vs ns p c t]. rewrite !load_Loaded.
  apply (xhr_onload_hierarchy url data h h' v); [exact Hparse | |].
  - rewrite H15. discriminate.
  - rewrite (upTo_1_4_1_5 v H15). discriminate.
Qed.

End Reads.

(** ** Which boxes share their vectors *)

Section Aliasing.

Context {num : Type} {NumOps : Number num} {NodeOps : NodeClass}.
Implicit Types (vs : list (@Vector3 num)) (ns : list (@Node num)).
Implicit Types (p : @PointCloudOctreeGeometry num) (t : list (@Event num)).
Implicit Types (data : @MetadataDocument num) (w : @World num).
Implicit Types (idx : gmap string loc).

Lemma node_box_locs_turn base ns parent (before : @Node num) i child node :
  ns !! parent = Some before -> (base <= length ns)%nat ->
  node_box_locs base (<[parent := set_child i child before]> ns ++ [node])
  = node_box_locs base ns ++ box_locs (node_boundingBox node).
Proof.
  intros Hbefore Hbase. unfold node_box_locs.
  rewrite map_app.
  change (map node_boundingBox (<[parent := set_child i child before]> ns))
    with (node_boundingBox <$> <[parent := set_child i child before]> ns).
  rewrite list_fmap_insert. simpl node_boundingBox.
  rewrite (list_insert_id (node_boundingBox <$> ns) parent
             (node_boundingBox before))
    by (rewrite list_lookup_fmap, Hbefore; reflexivity).
  rewrite drop_app_le by (rewrite length_fmap; exact Hbase).
  rewrite flat_map_app. simpl. rewrite ?app_nil_r. reflexivity.
Qed.

Lemma NoDup_fresh_pair (A T : list loc) (L : nat) :
  NoDup (A ++ T) -> Forall (fun l => (l < L)%nat) (A ++ T) ->
  NoDup ((A ++ [L; S L]) ++ T).
Proof.
  intros Hnd Hlt.
  assert ((A ++ [L; S L]) ++ T ≡ₚ L :: S L :: (A ++ T)) as ->.
  { rewrite <- app_assoc. rewrite (Permutation_app_comm A).
    rewrite <- !app_assoc. simpl. do 2 constructor.
    rewrite (Permutation_app_comm T). reflexivity. }
  rewrite Forall_forall in Hlt.
  apply NoDup_cons. split.
  - rewrite elem_of_cons. intros [E | Hin]; [lia|].
    specialize (Hlt _ Hin). lia.
  - apply NoDup_cons. split; [|exact Hnd].
    intros Hin. specialize (Hlt _ Hin). lia.
Qed.

(** X12. Which boxes share their vectors after a completed load.  The box
    of the descriptor, the box of the root and the box handed to the
    binary decoder are one object.  Apart from that no two boxes share a
    corner: the corners of the boxes of all the nodes of this load, those
    of the tight box and the offset are pairwise distinct vectors, all
    allocated by this load. *)
Theorem load_boxes_unaliased url data v w :
  well_formed data v ->
  exists w' box tight offset rootNode,
    load url (Loaded data) w = (Normal tt, w') /\
    pco_boundingBox (pco w') = Some box /\
    pco_tightBoundingBox (pco w') = Some tight /\
    pco_offset (pco w') = Some offset /\
    pco_loader (pco w') = Some (loader_of data box) /\
    nodes w' !! length (nodes w) = Some rootNode /\
    node_boundingBox rootNode = box /\
    let locs := node_box_locs (length (nodes w)) (nodes w')
                ++ box_locs tight ++ [offset] in
    NoDup locs /\
    Forall (fun l => (length (vectors w) <= l < length (vectors w'))%nat) locs.
Proof.
  intros Hwf. destruct w as [vs ns p c t]. cbv zeta. simpl.
  set (n := length vs).
  set (rest := [(n + 2)%nat; (n + 3)%nat; (n + offset_slot data)%nat]).
  destruct (loaded_induction url data v vs ns p c t
              (fun _ idx w' =>
                 pco w' = descriptor_of (set_pco_url (Some url) new_pco)
                            url data n (length ns) /\
                 (length ns <= length (nodes w'))%nat /\
                 (exists rootNode,
                    nodes w' !! length ns = Some rootNode /\
                    node_boundingBox rootNode = mkBox3 n (n + 1)%nat) /\
                 NoDup (node_box_locs (length ns) (nodes w') ++ rest) /\
                 Forall (fun l => (n <= l < length (vectors w'))%nat)
                        (node_box_locs (length ns) (nodes w') ++ rest))
              Hwf)
    as (idx_end & w_end & Hload & Hpco & _ & (rootNode & Hroot & Hrbox)
        & Hnd & Hfresh).
  - intros done idx w entry idx' w' (Hpco & Hlen & Hroot & Hnd & Hfresh) Hturn.
    destruct Hroot as (rootNode & Hroot & Hrbox).
    destruct (turn_old_node _ _ _ _ _ _ _ Hturn Hroot)
      as (rootNode' & Hroot' & Hsame & _).
    destruct Hturn
      as (parent & before & pmin & pmax & S0 & Hpar & Hbefore & _ & _ & -> & ->).
    simpl in *.
    split; [exact Hpco|].
    split; [rewrite length_app, length_insert; lia|].
    split.
    { exists rootNode'. split; [exact Hroot'|].
      destruct Hsame as (_ & _ & <- & _). exact Hrbox. }
    rewrite (node_box_locs_turn _ _ _ _ _ _ _ Hbefore Hlen). simpl box_locs.
    replace (length (vectors w) + 1)%nat with (S (length (vectors w))) by lia.
    split.
    + apply NoDup_fresh_pair; [exact Hnd|].
      eapply Forall_impl; [exact Hfresh|]. simpl. intros l Hl. lia.
    + rewrite length_app. simpl.
      rewrite <- app_assoc, Forall_app, Forall_app in *.
      destruct Hfresh as [HA HT].
      assert (n <= length (vectors w))%nat as Hn.
      { subst rest. apply Forall_cons in HT as [HT _]. lia. }
      split; [eapply Forall_impl; [exact HA|]; simpl; intros; lia|].
      split; [unfold box_locs; simpl; repeat (constructor; [lia|]); constructor|].
      eapply Forall_impl; [exact HT|]. simpl. intros; lia.
  - intros numPoints _. unfold world_with_root. simpl.
    split; [reflexivity|].
    split; [rewrite length_app; lia|].
    split.
    { eexists. split; [rewrite lookup_grown0; reflexivity | reflexivity]. }
    unfold node_box_locs. rewrite map_app, drop_app_length'
      by (rewrite length_map; reflexivity).
    simpl. subst rest. rewrite length_app. unfold normalized_vectors, offset_slot.
    fold n.
    destruct (doc_tightBoundingBox data); simpl; split;
      try (repeat (apply NoDup_cons; split;
                   [rewrite ?elem_of_cons, elem_of_nil; lia|]);
           apply NoDup_nil; exact I);
      repeat (constructor; [lia|]); constructor.
  - exists (finished idx_end w_end).
    exists (mkBox3 n (n + 1)%nat), (mkBox3 (n + 2)%nat (n + 3)%nat),
      (n + offset_slot data)%nat, rootNode.
    split; [exact Hload|]. unfold finished. simpl. rewrite Hpco. simpl.
    repeat (split; [reflexivity|]).
    split; [exact Hroot|]. split; [exact Hrbox|].
    split; [exact Hnd | exact Hfresh].
Qed.

End Aliasing.

(** * The further properties, on the sample documents *)

Lemma createChildAABB_bit_axes_witness :
  exists child w' cmin cmax,
    createChildAABB float_cube (Int 5) float_cube_world = (Normal child, w') /\
    corners w' child = Some (cmin, cmax) /\
    vec_x cmax = 0.5%float /\ vec_y cmin = 0.1%float /\ vec_z cmax = 0.5%float.
Proof.
  destruct (createChildAABB_bit_axes float_cube_world float_cube (Int 5)
              (mkVector3 0.1%float 0.1%float 0.1%float)
              (mkVector3 0.5%float 0.5%float 0.5%float) eq_refl)
    as (child & w' & cmin & cmax & Hrun & Hc & Hbits).
  exists child, w', cmin, cmax. split; [exact Hrun|]. split; [exact Hc|].
  split; [|split].
  - apply (Hbits 4 vec_x); [left; reflexivity | reflexivity].
  - apply (Hbits 2 vec_y); [right; left; reflexivity | reflexivity].
  - apply (Hbits 1 vec_z); [right; right; reflexivity | reflexivity].
Defined.

Lemma load_callback_once_witness :
  exists w' before,
    load sample_url (Loaded legacy_doc) empty_world = (Normal tt, w') /\
    trace w' = before ++ [EvCallback (Some (pco w'))] /\
    Forall (fun e => is_callback e = false) before.
Proof.
  destruct (load_callback_once sample_url (Loaded legacy_doc) empty_world
              (Normal tt)
              (snd (load sample_url (Loaded legacy_doc) empty_world)))
    as (events & Ht & before & -> & Hq).
  - vm_compute. reflexivity.
  - exists (snd (load sample_url (Loaded legacy_doc) empty_world)), before.
    split; [vm_compute; reflexivity|]. split; [exact Ht | exact Hq].
Defined.

Lemma load_counter_witness :
  exists e w',
    load sample_url (Loaded orphan_doc) empty_world = (Throw e, w') /\
    numNodesLoading w' = numNodesLoading_after_load 0.
Proof.
  exists (TypeError "parentNode is undefined"),
    (snd (load sample_url (Loaded orphan_doc) empty_world)).
  split; [vm_compute; reflexivity|].
  destruct (load_counter sample_url (Loaded orphan_doc) empty_world
              (Throw (TypeError "parentNode is undefined"))
              (snd (load sample_url (Loaded orphan_doc) empty_world)))
    as (events & Ht & Hc).
  - vm_compute. reflexivity.
  - rewrite Hc. simpl in Ht. rewrite <- Ht. vm_compute. reflexivity.
Defined.

Lemma load_keeps_old_objects_witness :
  exists w',
    load sample_url (Loaded legacy_doc) float_cube_world = (Normal tt, w') /\
    vectors w' !! 0%nat = Some (mkVector3 0.1%float 0.1%float 0.1%float) /\
    vectors w' !! 1%nat = Some (mkVector3 0.5%float 0.5%float 0.5%float).
Proof.
  destruct (load_keeps_old_objects sample_url legacy_doc (Version.mk 1 4)
              float_cube_world)
    as (w' & Hload & Hvs & _).
  - split; [reflexivity|]. split; [intros _; discriminate|].
    intros _. simpl. repeat split; repeat constructor.
  - exists w'. split; [exact Hload|]. split; apply Hvs; reflexivity.
Defined.

Lemma load_index_witness :
  exists w' idx,
    load sample_url (Loaded legacy_doc) empty_world = (Normal tt, w') /\
    pco_nodes (pco w') = Some idx /\
    idx !! "r" = Some 0%nat /\ idx !! "r0" = Some 1%nat /\
    idx !! "r01" = Some 2%nat /\ idx !! "r1" = None.
Proof.
  destruct (load_index sample_url legacy_doc (Version.mk 1 4) empty_world)
    as (w' & idx & Hload & _ & Hnodes & _ & Hidx & _).
  - split; [reflexivity|]. split; [intros _; discriminate|].
    intros _. simpl. repeat split; repeat constructor.
  - exists w', idx. split; [exact Hload|]. split; [exact Hnodes|].
    rewrite !Hidx. repeat split.
Defined.

Lemma load_builds_octree_witness :
  exists w' idx,
    load sample_url (Loaded legacy_doc) empty_world = (Normal tt, w') /\
    pco_nodes (pco w') = Some idx /\
    named_index 0%nat idx w' /\ octree_from 0%nat w'.
Proof.
  apply (load_builds_octree sample_url legacy_doc (Version.mk 1 4) empty_world).
  split; [reflexivity|]. split; [intros _; discriminate|].
  intros _. simpl. repeat split; repeat constructor.
Defined.

Lemma load_boxes_exact_witness :
  exists w' rootBox root,
    load sample_url (Loaded exact_legacy_doc) empty_world = (Normal tt, w') /\
    pco_boundingBox (pco w') = Some rootBox /\
    corners w' rootBox = Some root /\
    forall n node,
      nodes w' !! n = Some node ->
      exists box,
        corners w' (node_boundingBox node) = Some box /\
        box_at_level root box (level_of (node_name node)).
Proof.
  destruct (load_boxes_exact sample_url exact_legacy_doc (Version.mk 1 4)
              empty_world)
    as (w' & rootBox & root & Hload & Hbox & Hroot & Hnodes).
  - split; [reflexivity|]. split; [intros _; discriminate|].
    intros _. simpl. repeat split; repeat constructor.
  - repeat split.
  - exists w', rootBox, root. split; [exact Hload|]. split; [exact Hbox|].
    split; [exact Hroot|]. intros n node Hnode.
    destruct (Hnodes n node (Nat.le_0_l n) Hnode) as (box & Hc & Hl & _).
    exists box. split; [exact Hc | exact Hl].
Defined.

Lemma load_reads_first_entry_only_witness :
  load sample_url
    (Loaded (set_doc_hierarchy [("r", Q2Qc 100); ("r0", Q2Qc 10)] exact_doc))
    empty_world
  = load sample_url (Loaded (set_doc_hierarchy [("r", Q2Qc 100)] exact_doc))
      empty_world.
Proof.
  apply (load_reads_first_entry_only sample_url exact_doc (Version.mk 1 5)
           [("r", Q2Qc 100); ("r0", Q2Qc 10)] empty_world);
    reflexivity.
Defined.

Lemma load_ignores_hierarchy_witness :
  load sample_url (Loaded (set_doc_hierarchy [] offset_doc)) empty_world
  = load sample_url
      (Loaded (set_doc_hierarchy [("r00", 2%float)] offset_doc)) empty_world.
Proof.
  apply (load_ignores_hierarchy sample_url offset_doc (Version.mk 1 8));
    reflexivity.
Defined.

Lemma load_boxes_unaliased_witness :
  exists w' box tight offset,
    load sample_url (Loaded legacy_doc) empty_world = (Normal tt, w') /\
    pco_boundingBox (pco w') = Some box /\
    pco_tightBoundingBox (pco w') = Some tight /\
    pco_offset (pco w') = Some offset /\
    NoDup (node_box_locs 0%nat (nodes w') ++ box_locs tight ++ [offset]).
Proof.
  destruct (load_boxes_unaliased sample_url legacy_doc (Version.mk 1 4)
              empty_world)
    as (w' & box & tight & offset & rootNode & Hload & Hbox & Htight & Hoff
        & _ & _ & _ & Hnd & _).
  - split; [reflexivity|]. split; [intros _; discriminate|].
    intros _. simpl. repeat split; repeat constructor.
  - exists w', box, tight, offset. auto.
Defined.

Lemma load_malformed_throws_witness :
  exists e w' events,
    load sample_url (Loaded orphan_doc) empty_world = (Throw e, w') /\
    trace w' = events /\
    Forall (fun ev => is_callback ev = false) events.
Proof.
  apply (load_malformed_throws sample_url orphan_doc (Version.mk 1 4)
           empty_world).
  - reflexivity.
  - right. split; [reflexivity|].
    simpl. intros [Hin _]. apply list_elem_of_singleton in Hin. discriminate.
Defined.

Lemma legacy_hierarchy_nodes_witness :
  exists w' idx,
    load sample_url (Loaded legacy_doc) empty_world = (Normal tt, w') /\
    pco_nodes (pco w') = Some idx /\
    node_of_entry 1%float 0%nat [("r0", 10%float); ("r01", 3%float)] idx w'
      1%nat ("r01", 3%float).
Proof.
  destruct (legacy_hierarchy_nodes sample_url legacy_doc (Version.mk 1 4)
              ("r", 100%float) [("r0", 10%float); ("r01", 3%float)]
              empty_world)
    as (w' & idx & Hload & Hidx & Hnodes).
  - reflexivity.
  - reflexivity.
  - reflexivity.
  - simpl. repeat split; repeat constructor.
  - exists w', idx. split; [exact Hload|]. split; [exact Hidx|].
    apply (Hnodes 1%nat ("r01", 3%float)). reflexivity.
Defined.

(** C1, as stated, fails in three ways.  The parent of every entry may be
    listed before it and the handler still throw: the root is indexed
    under "r" whatever the first entry is called, so under a first entry
    "x" the parent of "x0" is not found.  The last character of a name
    need not be an octal digit: "r8" and "rx" get nodes, with the indices
    8 and [NaN].  And a node need not stay attached and registered: of two
    entries "r0" the first gets a node that has the root as parent, while
    the root has the node of the second as child 0 and the index has the
    node of the second under "r0". *)
Lemma legacy_hierarchy_nodes_counterexample :
  (Version.upTo (Version.mk 1 4) "1.4" = true /\
   parent_listed_before (doc_hierarchy root_x_doc) /\
   exists e w',
     load sample_url (Loaded root_x_doc) empty_world = (Throw e, w')) /\
  (parents_precede ["r"] (tail (doc_hierarchy odd_names_doc)) /\
   last_octal_digit "r8" = None /\ last_octal_digit "rx" = None /\
   exists w' eight other,
     load sample_url (Loaded odd_names_doc) empty_world = (Normal tt, w') /\
     nodes w' !! 1%nat = Some eight /\ node_name eight = "r8" /\
     node_index eight = Int 8 /\
     nodes w' !! 2%nat = Some other /\ node_name other = "rx" /\
     node_index other = NaN) /\
  (parents_precede ["r"] (tail (doc_hierarchy twin_doc)) /\
   exists w' idx root first,
     load sample_url (Loaded twin_doc) empty_world = (Normal tt, w') /\
     pco_nodes (pco w') = Some idx /\
     nodes w' !! 0%nat = Some root /\
     nodes w' !! 1%nat = Some first /\
     node_name first = "r0" /\ node_parent first = Some 0%nat /\
     node_children root !! Int 0 = Some 2%nat /\
     idx !! "r0" = Some 2%nat).
Proof.
  split; [|split].
  - split; [reflexivity|]. split.
    + intros i entry Hi Hentry.
      destruct i as [|[|i]]; [lia| |discriminate].
      injection Hentry as <-.
      exists 0%nat, ("x", 100%float). split; [lia|]. split; reflexivity.
    + eexists _, _. vm_compute. reflexivity.
  - split; [simpl; repeat split; repeat constructor|].
    split; [reflexivity|]. split; [reflexivity|].
    eexists _, _, _. split; [vm_compute; reflexivity|].
    repeat split; vm_compute; reflexivity.
  - split; [simpl; repeat split; repeat constructor|].
    eexists _, _, _, _. split; [vm_compute; reflexivity|].
    repeat split; vm_compute; reflexivity.
Qed.
